(** * oss-data-analyst: SQL validation and database-error classification

    Shallow embedding of [src/lib/sql/validate.ts] (normalizeSQLiteQuotes,
    syntaxScan, semanticCheck) and of [lib/execute/errors.ts]
    (isColumnNotFound, isQuoteSyntaxError), with the properties the
    specification states about them.

    A JavaScript string is a sequence of UTF-16 code units.  The embedding
    covers the code units 0..255 (ASCII and Latin-1), one [ascii] per code
    unit; a string is a [list ascii].  White space, case mapping and the
    regular expressions of the source are written out for that range. *)

From Stdlib Require Import List Ascii String Bool Arith Lia.
Import ListNotations.

(** [length] below is always the length of a list. *)
Local Abbreviation length := List.length.

(* ================================================================== *)
(** * JavaScript primitives used by the source *)
(* ================================================================== *)

Module Js.

Definition jsstring : Type := list ascii.

(** String literals of the source, written as Rocq strings. *)
Definition str (s : string) : jsstring := list_ascii_of_string s.
Arguments str s%_string.

Definition code (c : ascii) : nat := nat_of_ascii c.

Definition between (lo hi : nat) (c : ascii) : bool :=
  (lo <=? code c) && (code c <=? hi).

(** The double quote, code unit 34. *)
Definition dquote : ascii := Ascii false true false false false true false false.
(** The single quote, code unit 39. *)
Definition squote : ascii := "'"%char.
(** The backslash, code unit 92. *)
Definition backslash : ascii := "\"%char.

(** [===] on strings. *)
Fixpoint streq (a b : jsstring) : bool :=
  match a, b with
  | [], [] => true
  | x :: a', y :: b' => Ascii.eqb x y && streq a' b'
  | _, _ => false
  end.

(** White space and line terminators (what [trim] removes and [\s] matches):
    TAB, LF, VT, FF, CR, SPACE and NO-BREAK SPACE. *)
Definition isWhiteSpace (c : ascii) : bool :=
  between 9 13 c || (code c =? 32) || (code c =? 160).

(** Line terminators, which [.] does not match: LF and CR. *)
Definition isLineTerminator (c : ascii) : bool :=
  (code c =? 10) || (code c =? 13).

Definition isAsciiUpper (c : ascii) : bool := between 65 90 c.
Definition isAsciiLower (c : ascii) : bool := between 97 122 c.
Definition isDigit (c : ascii) : bool := between 48 57 c.

(** Latin-1 letters with a lower-case (resp. upper-case) partner 32 places
    away: A..Z and U+00C0..U+00DE without the multiplication sign U+00D7;
    a..z and U+00E0..U+00FE without the division sign U+00F7. *)
Definition hasLower (c : ascii) : bool :=
  isAsciiUpper c || (between 192 222 c && negb (code c =? 215)).
Definition hasUpper (c : ascii) : bool :=
  isAsciiLower c || (between 224 254 c && negb (code c =? 247)).

Definition toLowerCaseChar (c : ascii) : ascii :=
  if hasLower c then ascii_of_nat (code c + 32) else c.

(** [s.toLowerCase()]. *)
Definition toLowerCase (s : jsstring) : jsstring := map toLowerCaseChar s.

(** [c === c.toUpperCase()] for a one-character string [c]: false for the
    letters with an upper-case partner, and for the three Latin-1 letters
    whose upper case leaves the range or is two letters long: MICRO SIGN
    (181), SHARP S (223) and Y WITH DIAERESIS (255). *)
Definition upperCaseFixed (c : ascii) : bool :=
  negb (hasUpper c || (code c =? 181) || (code c =? 223) || (code c =? 255)).

(** Canonicalize of a case-insensitive regular expression without the u
    flag.  MICRO SIGN and Y WITH DIAERESIS canonicalize outside Latin-1, to
    code units no other Latin-1 character canonicalizes to, so they stand
    for themselves here. *)
Definition canonicalize (c : ascii) : ascii :=
  if hasUpper c then ascii_of_nat (code c - 32) else c.

Definition ci_eqb (a b : ascii) : bool :=
  Ascii.eqb (canonicalize a) (canonicalize b).

(** Word characters of [\b]: [A-Za-z0-9_]. *)
Definition isWordChar (c : ascii) : bool :=
  isAsciiUpper c || isAsciiLower c || isDigit c || Ascii.eqb c "_"%char.

(** [s.trim()]. *)
Fixpoint trimStart (s : jsstring) : jsstring :=
  match s with
  | c :: s' => if isWhiteSpace c then trimStart s' else s
  | [] => []
  end.

Definition trimEnd (s : jsstring) : jsstring := rev (trimStart (rev s)).

Definition trim (s : jsstring) : jsstring := trimEnd (trimStart s).

(** [s.split(sep)] for a one-character separator: the pieces between the
    separators, one more than there are separators. *)
Fixpoint split_go (sep : ascii) (s piece : jsstring) : list jsstring :=
  match s with
  | [] => [piece]
  | c :: s' =>
      if Ascii.eqb c sep then piece :: split_go sep s' []
      else split_go sep s' (piece ++ [c])
  end.

Definition split (sep : ascii) (s : jsstring) : list jsstring :=
  split_go sep s [].

(** [s.includes(c)] and [s.endsWith(c)] for a one-character [c]. *)
Definition includes (c : ascii) (s : jsstring) : bool :=
  existsb (Ascii.eqb c) s.

Definition endsWith (c : ascii) (s : jsstring) : bool :=
  match rev s with
  | x :: _ => Ascii.eqb x c
  | [] => false
  end.

(** An insertion-ordered [Set<string>]. *)
Definition JsSet : Type := list jsstring.

Definition Set_has (s : JsSet) (x : jsstring) : bool := existsb (streq x) s.

Definition Set_add (s : JsSet) (x : jsstring) : JsSet :=
  if Set_has s x then s else s ++ [x].

(** [Array.from(new Set(xs))]: the elements of [xs], each kept at its first
    occurrence. *)
Definition Set_from (xs : list jsstring) : JsSet := fold_left Set_add xs [].

(** An insertion-ordered [Map<string, V>]: entries in insertion order. *)
Definition JsMap (V : Type) : Type := list (jsstring * V).

Definition Map_get {V : Type} (m : JsMap V) (k : jsstring) : option V :=
  match find (fun kv => streq k (fst kv)) m with
  | Some kv => Some (snd kv)
  | None => None
  end.

Definition Map_has {V : Type} (m : JsMap V) (k : jsstring) : bool :=
  existsb (fun kv => streq k (fst kv)) m.

(** The values a [for (const [, v] of m)] loop visits, in order. *)
Definition Map_values {V : Type} (m : JsMap V) : list V := map snd m.

End Js.

Import Js.

(* ================================================================== *)
(** * src/lib/sql/validate.ts *)
(* ================================================================== *)

Module Validate.

(** The declarations of [EntityJson] ([@/lib/semantic/types]) and of
    [FinalizedPlan] ([@/lib/planning/types]) are not among the sources.  The
    records below carry the fields the functions of this file read, with the
    shapes section 3 of the specification gives them. *)

(** Modelled from the spec: an element of [dimensions], missing with the
    declaration of [EntityJson]: a name and, optionally, aliases. *)
Record Dimension : Type := {
  dim_name : jsstring;
  aliases : option (list jsstring)
}.

(** Modelled from the spec: an element of [time_dimensions], missing with
    the declaration of [EntityJson]. *)
Record TimeDimension : Type := { td_name : jsstring }.

(** Modelled from the spec: an element of [measures], missing with the
    declaration of [EntityJson]. *)
Record Measure : Type := { measure_name : jsstring }.

(** Modelled from the spec: the missing declaration of [EntityJson].  The
    lookup indexes are the sets of names the source asks [has] of; the
    reverse alias index maps an alias to its canonical name. *)
Record EntityJson : Type := {
  name : jsstring;
  table : jsstring;
  dimensions : list Dimension;
  time_dimensions : list TimeDimension;
  measures : list Measure;
  _dimIndex : JsSet;
  _metricIndex : JsSet;
  _measureIndex : JsSet;
  _reverseAliasIndex : JsMap jsstring
}.

(** The registry, [Map<string, EntityJson>]. *)
Definition Registry : Type := JsMap EntityJson.

(** Modelled from the spec: an element of [joinGraph], missing with the
    declaration of [FinalizedPlan]. *)
Record JoinEdge : Type := { from : jsstring; to : jsstring }.

(** Modelled from the spec: the [intent] of a plan, missing with the
    declaration of [FinalizedPlan].  The two lists may be absent; the time
    range is present or absent. *)
Record Intent : Type := {
  intent_dimensions : option (list jsstring);
  intent_metrics : option (list jsstring);
  timeRange : bool
}.

(** Modelled from the spec: the missing declaration of [FinalizedPlan]. *)
Record FinalizedPlan : Type := {
  selectedEntities : list jsstring;
  joinGraph : list JoinEdge;
  intent : Intent
}.

(** ** normalizeSQLiteQuotes *)

(** The body of [for (const [, ent] of registry)]: what one entity adds to
    [knownIdentifiers]. *)
Definition add_dimension (known : JsSet) (d : Dimension) : JsSet :=
  let known := Set_add known (dim_name d) in
  match aliases d with
  | Some al => fold_left Set_add al known
  | None => known
  end.

Definition add_entity (known : JsSet) (ent : EntityJson) : JsSet :=
  let known := Set_add known (name ent) in
  let known := Set_add known (table ent) in
  let known := fold_left add_dimension (dimensions ent) known in
  let known :=
    fold_left (fun k td => Set_add k (td_name td)) (time_dimensions ent) known in
  fold_left (fun k m => Set_add k (measure_name m)) (measures ent) known.

Definition knownIdentifiers (registry : Registry) : JsSet :=
  fold_left add_entity (Map_values registry) [].

Definition sqlKeywords : JsSet :=
  [ str "select"; str "from"; str "where"; str "group"; str "by";
    str "order"; str "having"; str "join";
    str "left"; str "right"; str "inner"; str "outer"; str "on"; str "as";
    str "and"; str "or"; str "not";
    str "count"; str "sum"; str "avg"; str "min"; str "max";
    str "distinct"; str "limit"; str "offset" ].

(** [/^[a-z_][a-z0-9_]*$/i.test(token)]. *)
Definition identStart (c : ascii) : bool :=
  isAsciiLower c || isAsciiUpper c || Ascii.eqb c "_"%char.

Definition identPart (c : ascii) : bool :=
  isAsciiLower c || isAsciiUpper c || isDigit c || Ascii.eqb c "_"%char.

Definition identifierPattern (token : jsstring) : bool :=
  match token with
  | c :: rest => identStart c && forallb identPart rest
  | [] => false
  end.

Definition isIdentifier (known : JsSet) (token : jsstring) : bool :=
  Set_has known token
  || Set_has known (toLowerCase token)
  || Set_has sqlKeywords (toLowerCase token)
  || identifierPattern token.

(** [token.replace(/'/g, "''")]. *)
Definition escapeQuotes (token : jsstring) : jsstring :=
  flat_map (fun c => if Ascii.eqb c squote then [squote; squote] else [c]) token.

(** The inner loop of the single-quote branch.  [prev] is [sql[i - 1]],
    [s] is the input from index [i] on.  Returns the result, the input left
    after the loop, and whether the loop left through its [break] (a closing
    quote was read) rather than at the end of the input. *)
Fixpoint singleQuoted (prev : ascii) (s result : jsstring)
  : jsstring * jsstring * bool :=
  match s with
  | [] => (result, [], false)
  | c :: s' =>
      let result := result ++ [c] in
      if Ascii.eqb c squote && negb (Ascii.eqb prev backslash)
      then (result, s', true)
      else singleQuoted c s' result
  end.

(** The inner loop of the double-quote branch, and the [i++] that skips the
    closing quote.  Returns the token, the input left, and whether a closing
    quote was there to skip. *)
Fixpoint doubleQuoted (s token : jsstring) : jsstring * jsstring * bool :=
  match s with
  | [] => (token, [], false)
  | c :: s' =>
      if Ascii.eqb c dquote then (token, s', true)
      else doubleQuoted s' (token ++ [c])
  end.

(** What the double-quote branch appends for a token. *)
Definition emitToken (known : JsSet) (token : jsstring) : jsstring :=
  if isIdentifier known token
  then [dquote] ++ token ++ [dquote]
  else [squote] ++ escapeQuotes token ++ [squote].

(** The main loop [while (i < sql.length)].  [s] is the input from index [i]
    on.  Every iteration reads at least one character, so [length s]
    iterations are enough ([scan_fuel] below). *)
Fixpoint scan (fuel : nat) (known : JsSet) (s result : jsstring) : jsstring :=
  match fuel with
  | 0 => result
  | S fuel =>
      match s with
      | [] => result
      | ch :: s' =>
          if Ascii.eqb ch squote then
            let '(result, rest, _) := singleQuoted ch s' (result ++ [ch]) in
            scan fuel known rest result
          else if Ascii.eqb ch dquote then
            let '(token, rest, _) := doubleQuoted s' [] in
            scan fuel known rest (result ++ emitToken known token)
          else scan fuel known s' (result ++ [ch])
      end
  end.

Definition normalizeSQLiteQuotes (sql : jsstring) (registry : Registry)
  : jsstring :=
  scan (length sql) (knownIdentifiers registry) sql [].

(** The main loop with a given set of known identifiers. *)
Definition norm (known : JsSet) (s : jsstring) : jsstring :=
  scan (length s) known s [].

(** The tokens the double-quote branch extracts, in order: the same loop,
    collecting the tokens instead of the result. *)
Fixpoint doubleQuotedTokens (fuel : nat) (s : jsstring) : list jsstring :=
  match fuel with
  | 0 => []
  | S fuel =>
      match s with
      | [] => []
      | ch :: s' =>
          if Ascii.eqb ch squote then
            let '(_, rest, _) := singleQuoted ch s' [] in
            doubleQuotedTokens fuel rest
          else if Ascii.eqb ch dquote then
            let '(token, rest, _) := doubleQuoted s' [] in
            token :: doubleQuotedTokens fuel rest
          else doubleQuotedTokens fuel s'
      end
  end.

Definition tokensOf (sql : jsstring) : list jsstring :=
  doubleQuotedTokens (length sql) sql.

(** Whether the main loop, run on [s] alone, ends outside every quoted span:
    each inner loop it enters finds its closing quote. *)
Fixpoint quotesClosed (fuel : nat) (s : jsstring) : bool :=
  match s with
  | [] => true
  | ch :: s' =>
      match fuel with
      | 0 => false
      | S fuel =>
          if Ascii.eqb ch squote then
            let '(_, rest, closed) := singleQuoted ch s' [] in
            closed && quotesClosed fuel rest
          else if Ascii.eqb ch dquote then
            let '(_, rest, closed) := doubleQuoted s' [] in
            closed && quotesClosed fuel rest
          else quotesClosed fuel s'
      end
  end.

Definition atTopLevel (pre : jsstring) : bool := quotesClosed (length pre) pre.

(** The known identifiers of a registry, as the specification lists them. *)
Definition entityIdentifier (ent : EntityJson) (x : jsstring) : Prop :=
  x = name ent
  \/ x = table ent
  \/ (exists d, In d (dimensions ent) /\ x = dim_name d)
  \/ (exists d al, In d (dimensions ent) /\ aliases d = Some al /\ In x al)
  \/ (exists td, In td (time_dimensions ent) /\ x = td_name td)
  \/ (exists m, In m (measures ent) /\ x = measure_name m).

Definition registryIdentifier (registry : Registry) (x : jsstring) : Prop :=
  exists ent, In ent (Map_values registry) /\ entityIdentifier ent x.

(** A token between double quotes. *)
Definition dq (token : jsstring) : jsstring := [dquote] ++ token ++ [dquote].

(** A token between single quotes, its single quotes doubled. *)
Definition sq (token : jsstring) : jsstring :=
  [squote] ++ escapeQuotes token ++ [squote].

End Validate.

Import Validate.

(* ------------------------------------------------------------------ *)
(** ** syntaxScan *)
(* ------------------------------------------------------------------ *)

Module SyntaxScan.

(** A regular expression [/\bWORD\b/i] of [DISALLOWED], by its word. *)
Record Disallowed : Type := { word : jsstring }.

(** [rx.source]. *)
Definition source (rx : Disallowed) : jsstring :=
  str "\b" ++ word rx ++ str "\b".

Definition DISALLOWED : list Disallowed :=
  [ {| word := str "DROP" |}; {| word := str "TRUNCATE" |};
    {| word := str "ALTER" |}; {| word := str "CREATE" |};
    {| word := str "INSERT" |}; {| word := str "UPDATE" |};
    {| word := str "DELETE" |}; {| word := str "MERGE" |};
    {| word := str "COPY" |}; {| word := str "PUT" |};
    {| word := str "GET" |} ].

(** [\b] between the character before the position ([None] at the start)
    and the character at it ([None] at the end). *)
Definition isWord (c : option ascii) : bool :=
  match c with
  | Some c => isWordChar c
  | None => false
  end.

Definition wordBoundary (before : option ascii) (s : jsstring) : bool :=
  xorb (isWord before) (isWord (hd_error s)).

(** The characters of [lit], case-insensitively, at the head of [s]: the
    last character read and the input left. *)
Fixpoint literalAt (lit : jsstring) (before : option ascii) (s : jsstring)
  : option (option ascii * jsstring) :=
  match lit with
  | [] => Some (before, s)
  | p :: lit' =>
      match s with
      | c :: s' => if ci_eqb p c then literalAt lit' (Some c) s' else None
      | [] => None
      end
  end.

(** [\bWORD\b] tried at one position. *)
Definition disallowedAt (rx : Disallowed) (before : option ascii)
           (s : jsstring) : bool :=
  wordBoundary before s
  && match literalAt (word rx) before s with
     | Some (last, rest) => wordBoundary last rest
     | None => false
     end.

(** [rx.test(sql)]: the pattern tried at every position, left to right. *)
Fixpoint testFrom (rx : Disallowed) (before : option ascii) (s : jsstring)
  : bool :=
  disallowedAt rx before s
  || match s with
     | c :: s' => testFrom rx (Some c) s'
     | [] => false
     end.

Definition test (rx : Disallowed) (sql : jsstring) : bool :=
  testFrom rx None sql.

(** [(sql.match(/ab/g) || []).length] for a two-character pattern: the
    matches are counted left to right, the search resuming after each. *)
Fixpoint countPairs (a b : ascii) (s : jsstring) : nat :=
  match s with
  | x :: s' =>
      match s' with
      | y :: s'' =>
          if Ascii.eqb x a && Ascii.eqb y b then S (countPairs a b s'')
          else countPairs a b s'
      | [] => 0
      end
  | [] => 0
  end.

(** The local object [res]. *)
Record Res : Type := { res_ok : bool; syntaxOk : bool; res_issues : list jsstring }.

(** [res.ok = false; res.syntaxOk = false; res.issues.push(issue)]. *)
Definition fail (res : Res) (issue : jsstring) : Res :=
  {| res_ok := false; syntaxOk := false; res_issues := res_issues res ++ [issue] |}.

Record ScanResult : Type := { ok : bool; issues : list jsstring }.

Definition multipleStatements : jsstring := str "Multiple statements detected.".

Definition checkDisallowed (sql : jsstring) (res : Res) (rx : Disallowed) : Res :=
  if test rx sql then fail res (str "Disallowed token: " ++ source rx) else res.

(** The array [lines] of the source is never read and is left out. *)
Definition syntaxScan (sql : jsstring) : ScanResult :=
  let res := {| res_ok := true; syntaxOk := true; res_issues := [] |} in
  let cleanedSql := trim sql in
  let semis := length (split ";"%char cleanedSql) - 1 in
  let endsWithSemi := endsWith ";"%char cleanedSql in
  let res :=
    if (1 <? semis) || ((semis =? 1) && negb endsWithSemi)
    then fail res multipleStatements
    else res in
  let res := fold_left (checkDisallowed sql) DISALLOWED res in
  let openComments := countPairs "/"%char "*"%char sql in
  let closeComments := countPairs "*"%char "/"%char sql in
  let res :=
    if negb (openComments =? closeComments)
    then fail res (str "Unclosed or unmatched block comment.")
    else res in
  {| ok := res_ok res; issues := res_issues res |}.

(** The test of the multi-statement rule, on the trimmed text. *)
Definition semi : ascii := ";"%char.

Definition multi (t : jsstring) : bool :=
  let semis := length (split semi t) - 1 in
  (1 <? semis) || ((semis =? 1) && negb (endsWith semi t)).

End SyntaxScan.

(* ------------------------------------------------------------------ *)
(** ** semanticCheck *)
(* ------------------------------------------------------------------ *)

Module SemanticCheck.
Import Validate.

(** A value raised with [throw], by what the clause
    [catch (e) { issues.push(String(e.message ?? e)) }] reads of it.
    - [ThrownNullish]: null or undefined.  Reading [e.message] raises a
      TypeError.
    - [ThrownValue]: any other value that can be read and rendered, with its
      [message] property when that is neither null nor undefined (as [String]
      renders it) and the rendering [String(e)] of the value itself.
    - [ThrownUnrenderable]: any other value whose [message] cannot be read,
      or for which [String] raises (on its message when it has one, on the
      value itself otherwise), such as an object without a prototype. *)
Inductive Thrown : Type :=
| ThrownNullish
| ThrownValue (thrown_message : option jsstring) (thrown_string : jsstring)
| ThrownUnrenderable.

(** What the [catch] clause itself raises: the TypeError of reading the
    message of null or undefined, or what reading or rendering the value
    raised. *)
Inductive CatchError : Type :=
| MessageOfNullish
| NotRenderable.

(** How a call completes: it returns a value or raises one. *)
Inductive Completion (E A : Type) : Type :=
| Returns (a : A)
| Raises (e : E).
Arguments Returns {E A} a.
Arguments Raises {E A} e.

Definition bind {E A B : Type} (c : Completion E A)
           (k : A -> Completion E B) : Completion E B :=
  match c with
  | Returns a => k a
  | Raises e => Raises e
  end.

(** [try { body } catch (e) { handler }]. *)
Definition tryCatch {E E' A : Type} (body : Completion E A)
           (handler : E -> Completion E' A) : Completion E' A :=
  match body with
  | Returns a => Returns a
  | Raises e => handler e
  end.

Notation "x <- c ;; k" := (bind c (fun x => k))
  (at level 61, c at next level, right associativity).

(** [String(e.message ?? e)]. *)
Definition thrownText (e : Thrown) : Completion CatchError jsstring :=
  match e with
  | ThrownNullish => Raises MessageOfNullish
  | ThrownValue (Some m) _ => Returns m
  | ThrownValue None s => Returns s
  | ThrownUnrenderable => Raises NotRenderable
  end.

Record SemanticResult : Type := {
  ok : bool;
  issues : list jsstring;
  semanticOk : bool
}.

(** The truth value of a string in a condition: false for the empty one. *)
Definition truthy (s : jsstring) : bool :=
  match s with
  | [] => false
  | _ :: _ => true
  end.

(** [ent.time_dimensions.some(td => td.name === fieldName)]. *)
Definition hasTimeDim (ent : EntityJson) (fieldName : jsstring) : bool :=
  existsb (fun td => streq (td_name td) fieldName) (time_dimensions ent).

(** The checks [existsInAnyEntity] makes on one entity; the source writes
    them out twice, in the dotted branch and in the body of the loop over
    the registry, with [fieldName] and [name] as the field. *)
Definition fieldIn (ent : EntityJson) (fieldName : jsstring)
           (checkDimensions checkTime : bool) : bool :=
  if checkDimensions && Set_has (_dimIndex ent) fieldName then true
  else if checkTime && hasTimeDim ent fieldName then true
  else
    match Map_get (_reverseAliasIndex ent) fieldName with
    | Some canonical =>
        if truthy canonical then
          if checkDimensions && Set_has (_dimIndex ent) canonical then true
          else if checkTime && hasTimeDim ent canonical then true
          else false
        else false
    | None => false
    end.

(** [const [entityName, fieldName] = name.split('.')], for a name that
    includes a dot. *)
Definition splitDotted (name : jsstring) : option (jsstring * jsstring) :=
  match split "."%char name with
  | entityName :: fieldName :: _ => Some (entityName, fieldName)
  | _ => None
  end.

Definition existsInAnyEntity (registry : Registry) (name : jsstring)
           (checkDimensions checkTime : bool) : bool :=
  if includes "."%char name then
    match splitDotted name with
    | Some (entityName, fieldName) =>
        match Map_get registry entityName with
        | Some ent => fieldIn ent fieldName checkDimensions checkTime
        | None => false
        end
    | None => false
    end
  else
    existsb (fun ent => fieldIn ent name checkDimensions checkTime)
            (Map_values registry).

(** The checks [metricOrMeasureExists] makes on one entity. *)
Definition metricIn (ent : EntityJson) (fieldName : jsstring) : bool :=
  if Set_has (_metricIndex ent) fieldName || Set_has (_measureIndex ent) fieldName
  then true
  else
    match Map_get (_reverseAliasIndex ent) fieldName with
    | Some canonical =>
        truthy canonical
        && (Set_has (_metricIndex ent) canonical
            || Set_has (_measureIndex ent) canonical)
    | None => false
    end.

Definition metricOrMeasureExists (registry : Registry) (name : jsstring) : bool :=
  if includes "."%char name then
    match splitDotted name with
    | Some (entityName, fieldName) =>
        match Map_get registry entityName with
        | Some ent => metricIn ent fieldName
        | None => false
        end
    | None => false
    end
  else existsb (fun ent => metricIn ent name) (Map_values registry).

(** The issue texts. *)
Definition quoted (s : jsstring) : jsstring := [dquote] ++ s ++ [dquote].

Definition notLoaded (e : jsstring) : jsstring :=
  str "Selected entity " ++ quoted e ++ str " not loaded.".

Definition joinFromMissing (e : jsstring) : jsstring :=
  str "Join edge from missing entity " ++ quoted e ++ str ".".

Definition joinToMissing (e : jsstring) : jsstring :=
  str "Join edge to missing entity " ++ quoted e ++ str ".".

Definition dimensionNotFound (d : jsstring) : jsstring :=
  str "Dimension " ++ quoted d ++ str " not found in selected entities or aliases.".

Definition metricNotFound (m : jsstring) : jsstring :=
  str "Metric/measure " ++ quoted m ++ str " not found in selected entities or aliases.".

Definition noTimeDimensions : jsstring :=
  str "Time range provided but no time dimensions available.".

(** [xs ?? []]. *)
Definition orEmpty (xs : option (list jsstring)) : list jsstring :=
  match xs with
  | Some l => l
  | None => []
  end.

(** The loops, each pushing on [issues]. *)
Definition checkEntities (registry : Registry) (selected : list jsstring)
           (issues : list jsstring) : list jsstring :=
  fold_left (fun issues e =>
               if negb (Map_has registry e) then issues ++ [notLoaded e]
               else issues)
            selected issues.

Definition checkJoins (registry : Registry) (joins : list JoinEdge)
           (issues : list jsstring) : list jsstring :=
  fold_left (fun issues j =>
               let issues :=
                 if negb (Map_has registry (from j))
                 then issues ++ [joinFromMissing (from j)] else issues in
               if negb (Map_has registry (to j))
               then issues ++ [joinToMissing (to j)] else issues)
            joins issues.

Definition checkDimensions (registry : Registry) (dims : list jsstring)
           (issues : list jsstring) : list jsstring :=
  fold_left (fun issues d =>
               if negb (existsInAnyEntity registry d true true)
               then issues ++ [dimensionNotFound d] else issues)
            dims issues.

Definition checkMetrics (registry : Registry) (metrics : list jsstring)
           (issues : list jsstring) : list jsstring :=
  fold_left (fun issues m =>
               if negb (metricOrMeasureExists registry m)
               then issues ++ [metricNotFound m] else issues)
            metrics issues.

Definition checkTimeRange (registry : Registry) (present : bool)
           (issues : list jsstring) : list jsstring :=
  if present then
    let hasTimeDim :=
      existsb (fun ent => 0 <? length (time_dimensions ent))
              (Map_values registry) in
    if negb hasTimeDim then issues ++ [noTimeDimensions] else issues
  else issues.

Section WithPolicy.

(** The policy collaborator [verifyAllowedTables] of
    [@/lib/security/policy]: it returns nothing or raises. *)
Variable verifyAllowedTables : Registry -> Completion Thrown unit.

(** The argument [sql] is not read by the source.  What the function can
    raise is what its [catch] clause raises. *)
Definition semanticCheck (plan : FinalizedPlan) (sql : jsstring)
           (registry : Registry) : Completion CatchError SemanticResult :=
  let issues : list jsstring := [] in
  issues <- tryCatch (_ <- verifyAllowedTables registry ;; Returns issues)
                     (fun e => text <- thrownText e ;;
                               Returns (issues ++ [text])) ;;
  let issues := checkEntities registry (selectedEntities plan) issues in
  let issues := checkJoins registry (joinGraph plan) issues in
  let issues :=
    checkDimensions registry (orEmpty (intent_dimensions (intent plan))) issues in
  let issues :=
    checkMetrics registry (orEmpty (intent_metrics (intent plan))) issues in
  let issues := checkTimeRange registry (timeRange (intent plan)) issues in
  let ok := length issues =? 0 in
  Returns {| ok := ok; issues := issues; semanticOk := ok |}.

End WithPolicy.

(** *** The issues, loop by loop *)

Definition missing (registry : Registry) (e : jsstring) : bool :=
  negb (Map_has registry e).

(** The policy returns, or raises a value the [catch] clause can read. *)
Definition legible (outcome : Completion Thrown unit) : Prop :=
  match outcome with
  | Returns _ => True
  | Raises e => exists text, thrownText e = Returns text
  end.

(** What the policy check leaves in [issues]; for a value the [catch]
    clause cannot read nothing is pushed, the clause raises. *)
Definition policyIssues (outcome : Completion Thrown unit) : list jsstring :=
  match outcome with
  | Returns _ => []
  | Raises e =>
      match thrownText e with
      | Returns text => [text]
      | Raises _ => []
      end
  end.

(** What the loops after the entity loop push. *)
Definition laterIssues (plan : FinalizedPlan) (registry : Registry)
  : list jsstring :=
  checkJoins registry (joinGraph plan) []
  ++ checkDimensions registry (orEmpty (intent_dimensions (intent plan))) []
  ++ checkMetrics registry (orEmpty (intent_metrics (intent plan))) []
  ++ checkTimeRange registry (timeRange (intent plan)) [].

Definition allIssues (verify : Registry -> Completion Thrown unit)
           (plan : FinalizedPlan) (registry : Registry) : list jsstring :=
  policyIssues (verify registry)
  ++ map notLoaded (filter (missing registry) (selectedEntities plan))
  ++ laterIssues plan registry.

(** The issues of the later loops are told apart by their first
    character. *)
Definition startsWith (c : ascii) (i : jsstring) : Prop := hd_error i = Some c.

Definition laterIssue (i : jsstring) : Prop :=
  startsWith "J"%char i \/ startsWith "D"%char i
  \/ startsWith "M"%char i \/ startsWith "T"%char i.

End SemanticCheck.

(* ================================================================== *)
(** * lib/execute/errors.ts *)
(* ================================================================== *)

Module Errors.

(** The argument [err], by what [String(err?.message ?? err ?? '')] reads
    of it: null or undefined; a value whose [message] is neither (as
    [String] renders that message); any other value (as [String] renders
    it). *)
Inductive ErrValue : Type :=
| ErrNullish
| ErrWithMessage (message : jsstring)
| ErrOther (rendering : jsstring).

Definition errorText (err : ErrValue) : jsstring :=
  match err with
  | ErrNullish => []
  | ErrWithMessage m => m
  | ErrOther s => s
  end.

(** *** Regular expressions

    A pattern is modelled by what it matches at the head of its input; a
    search tries it at each position from the left.  The patterns of this
    file never need to give back characters: a greedy class is always
    followed by a character outside the class.  The one exception, [.*], is
    written with its backtracking. *)

Definition isQuote (c : ascii) : bool := Ascii.eqb c squote || Ascii.eqb c dquote.

(** The longest prefix of characters in a class, and what follows. *)
Fixpoint span (p : ascii -> bool) (s : jsstring) : jsstring * jsstring :=
  match s with
  | c :: s' =>
      if p c then let '(run, rest) := span p s' in (c :: run, rest)
      else ([], s)
  | [] => ([], [])
  end.

(** The characters of [lit], case-insensitively, at the head of [s]: the
    text matched and the input left. *)
Fixpoint literal (lit s : jsstring) : option (jsstring * jsstring) :=
  match lit with
  | [] => Some ([], s)
  | p :: lit' =>
      match s with
      | c :: s' =>
          if ci_eqb p c then
            match literal lit' s' with
            | Some (text, rest) => Some (c :: text, rest)
            | None => None
            end
          else None
      | [] => None
      end
  end.

(** A match: the text matched, its capture group, and the input left. *)
Record Match : Type := { text : jsstring; group1 : jsstring; rest : jsstring }.

(** [LIT\s*Q([^Q]+)Q] with the i flag, at the head of [s]; [Q] stands for
    the class of the two quote characters, single and double. *)
Definition quotedAfter (lit s : jsstring) : option Match :=
  match literal lit s with
  | Some (t, r) =>
      let '(ws, r) := span isWhiteSpace r in
      match r with
      | q :: r =>
          if isQuote q then
            let '(captured, r) := span (fun c => negb (isQuote c)) r in
            match captured, r with
            | _ :: _, q' :: r =>
                Some {| text := t ++ ws ++ [q] ++ captured ++ [q'];
                        group1 := captured;
                        rest := r |}
            | _, _ => None
            end
          else None
      | [] => None
      end
  | None => None
  end.

(** [s.match(rx)] without the g flag, [rx.exec(s)]: the first position, from
    the left, where the pattern matches. *)
Fixpoint search {A : Type} (at_head : jsstring -> option A) (s : jsstring)
  : option A :=
  match at_head s with
  | Some a => Some a
  | None =>
      match s with
      | _ :: s' => search at_head s'
      | [] => None
      end
  end.

(** [rx.test(s)]. *)
Definition test {A : Type} (at_head : jsstring -> option A) (s : jsstring)
  : bool :=
  match search at_head s with
  | Some _ => true
  | None => false
  end.

(** [s.match(rx)] with the g flag: the successive matches, each search
    resuming where the previous match ended.  A match is never empty here,
    so [length s + 1] rounds are enough. *)
Fixpoint matches (fuel : nat) (at_head : jsstring -> option Match)
         (s : jsstring) : list Match :=
  match fuel with
  | 0 => []
  | S fuel =>
      match at_head s with
      | Some m => m :: matches fuel at_head (rest m)
      | None =>
          match s with
          | _ :: s' => matches fuel at_head s'
          | [] => []
          end
      end
  end.

Definition matchAll (at_head : jsstring -> option Match) (s : jsstring)
  : list Match :=
  matches (S (length s)) at_head s.

(** [/invalid identifier\s*Q([^Q]+)Q/i]. *)
Definition invalidIdentifier : jsstring -> option Match :=
  quotedAfter (str "invalid identifier").

(** [.*] followed by [next], greedy: the longest run is tried first, then
    shorter ones. *)
Fixpoint dotStar (next : jsstring -> bool) (s : jsstring) : bool :=
  match s with
  | c :: s' =>
      (if isLineTerminator c then false else dotStar next s') || next s
  | [] => next []
  end.

Definition isSome {A : Type} (o : option A) : bool :=
  match o with
  | Some _ => true
  | None => false
  end.

(** [/column .* not found/i]. *)
Definition columnAnyNotFound (s : jsstring) : option unit :=
  match literal (str "column ") s with
  | Some (_, r) =>
      if dotStar (fun t => isSome (literal (str " not found") t)) r
      then Some tt else None
  | None => None
  end.

(** [/column ([^ ]+) not found/i]: the capture group. *)
Definition columnNotFound (s : jsstring) : option jsstring :=
  match literal (str "column ") s with
  | Some (_, r) =>
      let '(captured, r) := span (fun c => negb (Ascii.eqb c " "%char)) r in
      match captured with
      | _ :: _ =>
          match literal (str " not found") r with
          | Some _ => Some captured
          | None => None
          end
      | [] => None
      end
  | None => None
  end.

(** [c.replace(/Q/g, '')]: every quote character goes. *)
Definition removeQuotes (c : jsstring) : jsstring :=
  filter (fun x => negb (isQuote x)) c.

Definition truthy (s : jsstring) : bool :=
  match s with
  | [] => false
  | _ :: _ => true
  end.

Record ColumnNotFoundInfo : Type := { missingColumns : list jsstring }.

Definition isColumnNotFound (err : ErrValue) : option ColumnNotFoundInfo :=
  let msg := errorText err in
  let m := map text (matchAll invalidIdentifier msg) in
  match m with
  | _ :: _ =>
      let cols :=
        Set_from
          (filter truthy
             (map (fun s =>
                     match search invalidIdentifier s with
                     | Some found => group1 found
                     | None => []
                     end) m)) in
      Some {| missingColumns := cols |}
  | [] =>
      if test columnAnyNotFound msg then
        let c :=
          match search columnNotFound msg with
          | Some captured => captured
          | None => []
          end in
        Some {| missingColumns := if truthy c then [removeQuotes c] else [] |}
      else None
  end.

Record QuoteSyntaxInfo : Type := {
  message : jsstring;
  needsSingleQuotes : option bool;
  needsDoubleQuotes : option bool
}.

(** [{ message: msg, needsSingleQuotes: true }]. *)
Definition singleQuotesHint (msg : jsstring) : QuoteSyntaxInfo :=
  {| message := msg; needsSingleQuotes := Some true; needsDoubleQuotes := None |}.

(** A literal pattern with the i flag. *)
Definition mentions (lit : jsstring) (msg : jsstring) : bool :=
  test (literal lit) msg.

(** [/^[A-Z_]+$/.test(colName)]. *)
Definition allCapsUnderscore (colName : jsstring) : bool :=
  truthy colName
  && forallb (fun c => isAsciiUpper c || Ascii.eqb c "_"%char) colName.

(** [/no such column:\s*Q([^Q]+)Q/i]. *)
Definition noSuchColumn : jsstring -> option Match :=
  quotedAfter (str "no such column:").

(** [colName[0] === colName[0].toUpperCase() && !/^[A-Z_]+$/.test(colName)];
    [colName] is never empty, the capture group needs one character. *)
Definition looksLikeLiteral (colName : jsstring) : bool :=
  match colName with
  | c :: _ => upperCaseFixed c && negb (allCapsUnderscore colName)
  | [] => false
  end.

Definition isQuoteSyntaxError (err : ErrValue) : option QuoteSyntaxInfo :=
  let msg := errorText err in
  if mentions (str "unrecognized token") msg && includes dquote msg
  then Some (singleQuotesHint msg)
  else
    let literalLike :=
      if mentions (str "no such column") msg then
        match search noSuchColumn msg with
        | Some found => looksLikeLiteral (group1 found)
        | None => false
        end
      else false in
    if literalLike then Some (singleQuotesHint msg)
    else if (mentions (str "syntax error") msg || mentions (str "near") msg)
            && includes dquote msg
    then Some (singleQuotesHint msg)
    else None.

End Errors.

(* ================================================================== *)
(** * The properties of section 8 in the specification's own words *)
(* ================================================================== *)

Module SpecWords.

(** Deduplicated, preserving first-seen order: an element is kept where it
    is first seen and dropped from what follows. *)
Fixpoint dedupFirstSeen (xs : list jsstring) : list jsstring :=
  match xs with
  | [] => []
  | x :: xs' => x :: filter (fun y => negb (streq y x)) (dedupFirstSeen xs')
  end.

(** Stripping the surrounding quote characters of a name: the quotes at its
    two ends go, those inside stay. *)
Fixpoint stripLeadingQuotes (s : jsstring) : jsstring :=
  match s with
  | c :: s' => if Errors.isQuote c then stripLeadingQuotes s' else s
  | [] => []
  end.

Definition stripSurroundingQuotes (s : jsstring) : jsstring :=
  rev (stripLeadingQuotes (rev (stripLeadingQuotes s))).

(** A name that starts with an uppercase letter. *)
Definition startsWithUppercaseLetter (s : jsstring) : bool :=
  match s with
  | c :: _ => hasLower c
  | [] => false
  end.

(** A token with every single quote inside it doubled. *)
Fixpoint singleQuotesDoubled (token : jsstring) : jsstring :=
  match token with
  | [] => []
  | c :: rest =>
      if Ascii.eqb c squote
      then squote :: squote :: singleQuotesDoubled rest
      else c :: singleQuotesDoubled rest
  end.

(** Equal in any letter case. *)
Definition sameIgnoringCase (a b : jsstring) : Prop :=
  toLowerCase a = toLowerCase b.

End SpecWords.

(* ================================================================== *)
(** * Sample data *)
(* ================================================================== *)

Module Samples.
Import Validate.

Definition plainEntity (n : jsstring) : EntityJson :=
  {| name := n; table := n;
     dimensions := []; time_dimensions := []; measures := [];
     _dimIndex := []; _metricIndex := []; _measureIndex := [];
     _reverseAliasIndex := [] |}.

(** An entity whose dimension is named with capitals and a space, and has a
    lower-case alias. *)
Definition orders : EntityJson :=
  {| name := str "orders"; table := str "orders";
     dimensions :=
       [ {| dim_name := str "Order Total";
            aliases := Some [str "total amount"] |} ];
     time_dimensions := []; measures := [];
     _dimIndex := [str "Order Total"];
     _metricIndex := []; _measureIndex := [];
     _reverseAliasIndex := [(str "total amount", str "Order Total")] |}.

Definition ordersRegistry : Registry := [(str "orders", orders)].

(** The entity [customers] with the dimension [country] and its alias
    [region]. *)
Definition customers : EntityJson :=
  {| name := str "customers"; table := str "customers";
     dimensions :=
       [ {| dim_name := str "country"; aliases := Some [str "region"] |} ];
     time_dimensions := []; measures := [];
     _dimIndex := [str "country"];
     _metricIndex := []; _measureIndex := [];
     _reverseAliasIndex := [(str "region", str "country")] |}.

Definition shopRegistry : Registry :=
  [(str "customers", customers); (str "products", plainEntity (str "products"))].

Definition emptyIntent : Intent :=
  {| intent_dimensions := None; intent_metrics := None; timeRange := false |}.

Definition ordersPlan : FinalizedPlan :=
  {| selectedEntities := [str "orders"]; joinGraph := []; intent := emptyIntent |}.

Definition regionPlan : FinalizedPlan :=
  {| selectedEntities := [str "customers"]; joinGraph := [];
     intent := {| intent_dimensions := Some [str "region"];
                  intent_metrics := None; timeRange := false |} |}.

(** A policy that allows every table, and one that raises. *)
Definition allowAll (_ : Registry)
  : SemanticCheck.Completion SemanticCheck.Thrown unit :=
  SemanticCheck.Returns tt.

Definition denied : SemanticCheck.Thrown :=
  SemanticCheck.ThrownValue (Some (str "Table not allowed"))
                            (str "Error: Table not allowed").

Definition denyAll (_ : Registry)
  : SemanticCheck.Completion SemanticCheck.Thrown unit :=
  SemanticCheck.Raises denied.

(** A policy that throws null. *)
Definition throwNull (_ : Registry)
  : SemanticCheck.Completion SemanticCheck.Thrown unit :=
  SemanticCheck.Raises SemanticCheck.ThrownNullish.

End Samples.

(* ================================================================== *)
(** * lib/execute/errors.ts: the two other classifiers *)
(* ================================================================== *)

Module Classifiers.
Import Errors.

Record AmbiguousColumnInfo : Type := { columns : list jsstring }.

Record TimeoutInfo : Type := { message : jsstring }.

(** [/D([^D]+)D/]: a run of characters between two double quotes, with
    [D] for the double quote. *)
Definition doubleQuotedName (s : jsstring) : option Match :=
  match s with
  | q :: r =>
      if Ascii.eqb q dquote then
        let '(captured, r) := span (fun c => negb (Ascii.eqb c dquote)) r in
        match captured, r with
        | _ :: _, q' :: r =>
            Some {| text := [q] ++ captured ++ [q'];
                    group1 := captured;
                    rest := r |}
        | _, _ => None
        end
      else None
  | [] => None
  end.

(** [s.replace(/D/g, '')]: every double quote goes. *)
Definition removeDoubleQuotes (s : jsstring) : jsstring :=
  filter (fun c => negb (Ascii.eqb c dquote)) s.

Definition unknownColumn : jsstring := str "(unknown)".

Definition isAmbiguousColumn (err : ErrValue) : option AmbiguousColumnInfo :=
  let msg := errorText err in
  if mentions (str "ambiguous") msg && mentions (str "column") msg then
    let cols :=
      Set_from
        (map removeDoubleQuotes (map text (matchAll doubleQuotedName msg))) in
    Some {| columns := if 0 <? length cols then cols else [unknownColumn] |}
  else None.

Definition isTimeout (err : ErrValue) : option TimeoutInfo :=
  let msg := errorText err in
  if mentions (str "timeout") msg then Some {| message := msg |}
  else if mentions (str "Statement timeout") msg then Some {| message := msg |}
  else None.

End Classifiers.

(* ================================================================== *)
(** * Notions the further properties are stated with *)
(* ================================================================== *)

Module Notions.

(** Two texts that are the same once their letters are canonicalized, as a
    literal pattern with the i flag compares them. *)
Definition sameLetters (lit occ : jsstring) : Prop :=
  map canonicalize occ = map canonicalize lit.

(** [lit] occurs in [msg], in any letter case. *)
Definition occursIgnoringCase (lit msg : jsstring) : Prop :=
  exists pre occ post, msg = pre ++ occ ++ post /\ sameLetters lit occ.

Definition lastChar (s : jsstring) : option ascii := hd_error (rev s).

(** [w] occurs in [sql], in any letter case, as a whole word: no word
    character stands right before it or right after it. *)
Definition occursAsWord (w sql : jsstring) : Prop :=
  exists pre occ post,
    sql = pre ++ occ ++ post
    /\ sameLetters w occ
    /\ SyntaxScan.isWord (lastChar pre) = false
    /\ SyntaxScan.isWord (hd_error post) = false.

(** The places where the two characters [a], [b] stand side by side. *)
Fixpoint occurrences (a b : ascii) (s : jsstring) : nat :=
  match s with
  | x :: s' =>
      (match s' with
       | y :: _ => if Ascii.eqb x a && Ascii.eqb y b then 1 else 0
       | [] => 0
       end) + occurrences a b s'
  | [] => 0
  end.

(** The issue texts of the keyword rule and of the comment rule. *)
Definition disallowedIssue (rx : SyntaxScan.Disallowed) : jsstring :=
  str "Disallowed token: " ++ SyntaxScan.source rx.

Definition commentIssue : jsstring :=
  str "Unclosed or unmatched block comment.".

(** What the multi-statement rule and the comment rule leave in the
    issues. *)
Definition multiPart (sql : jsstring) : list jsstring :=
  if SyntaxScan.multi (trim sql) then [SyntaxScan.multipleStatements] else [].

Definition commentPart (sql : jsstring) : list jsstring :=
  if negb (SyntaxScan.countPairs "/"%char "*"%char sql
           =? SyntaxScan.countPairs "*"%char "/"%char sql)
  then [commentIssue] else [].

(** A word made of the capitals A to Z. *)
Definition capitals (w : jsstring) : Prop :=
  w <> [] /\ forallb isAsciiUpper w = true.

(** A text with its two kinds of quote characters taken out. *)
Definition withoutQuotes (s : jsstring) : jsstring :=
  filter (fun c => negb (Errors.isQuote c)) s.

(** A text holds no quote character of either kind. *)
Definition quoteFree (s : jsstring) : Prop :=
  ~ In squote s /\ ~ In dquote s.

(** A name holds no dot. *)
Definition dotFree (s : jsstring) : Prop := ~ In "."%char s.

(** Whether some entity of the registry has a time dimension. *)
Definition hasTimeDimensions (registry : Validate.Registry) : bool :=
  existsb (fun ent => 0 <? length (Validate.time_dimensions ent))
          (Map_values registry).

(** What the time-range check leaves in the issues. *)
Definition timeRangePart (plan : Validate.FinalizedPlan)
           (registry : Validate.Registry) : list jsstring :=
  if Validate.timeRange (Validate.intent plan) && negb (hasTimeDimensions registry)
  then [SemanticCheck.noTimeDimensions] else [].

(** A bare reference that is a registered alias: it holds no dot, and the
    reverse alias index of some entity of the registry sends it to a
    canonical name that the entity has as a dimension or as a time
    dimension. *)
Definition registeredAlias (registry : Validate.Registry) (alias : jsstring)
  : Prop :=
  ~ In "."%char alias
  /\ exists ent canonical,
      In ent (Map_values registry)
      /\ Map_get (Validate._reverseAliasIndex ent) alias = Some canonical
      /\ canonical <> []
      /\ (Set_has (Validate._dimIndex ent) canonical = true
          \/ SemanticCheck.hasTimeDim ent canonical = true).

(** Everything a plan refers to is found in the registry. *)
Definition resolvable (plan : Validate.FinalizedPlan)
           (registry : Validate.Registry) : Prop :=
  (forall e, In e (Validate.selectedEntities plan) -> Map_has registry e = true)
  /\ (forall j, In j (Validate.joinGraph plan) ->
                Map_has registry (Validate.from j) = true
                /\ Map_has registry (Validate.to j) = true)
  /\ (forall d,
         In d (SemanticCheck.orEmpty
                 (Validate.intent_dimensions (Validate.intent plan))) ->
         SemanticCheck.existsInAnyEntity registry d true true = true)
  /\ (forall m,
         In m (SemanticCheck.orEmpty
                 (Validate.intent_metrics (Validate.intent plan))) ->
         SemanticCheck.metricOrMeasureExists registry m = true)
  /\ (Validate.timeRange (Validate.intent plan) = true ->
      exists ent,
        In ent (Map_values registry) /\ Validate.time_dimensions ent <> []).

Definition dot : ascii := "."%char.

(** The issues of one join edge: each missing side on its own. *)
Definition joinIssues (registry : Validate.Registry) (j : Validate.JoinEdge)
  : list jsstring :=
  (if Map_has registry (Validate.from j) then []
   else [SemanticCheck.joinFromMissing (Validate.from j)])
  ++ (if Map_has registry (Validate.to j) then []
      else [SemanticCheck.joinToMissing (Validate.to j)]).

End Notions.

(* ================================================================== *)
(** * Facts about the JavaScript primitives and the quote normalizer *)
(* ================================================================== *)

Module JsFacts.

Example dquote_code : code dquote = 34.
Proof. reflexivity. Qed.

Example trim_example : trim (str "  SELECT 1;  ") = str "SELECT 1;".
Proof. reflexivity. Qed.

Example split_example :
  split "."%char (str "customers.region") = [str "customers"; str "region"].
Proof. reflexivity. Qed.

Example toLowerCase_example : toLowerCase (str "Order Total") = str "order total".
Proof. reflexivity. Qed.

Lemma streq_refl (a : jsstring) : streq a a = true.
Proof.
  induction a as [|x a IH]; simpl; [reflexivity|].
  now rewrite Ascii.eqb_refl.
Qed.

Lemma streq_eq (a b : jsstring) : streq a b = true <-> a = b.
Proof.
  split.
  - revert b; induction a as [|x a IH]; intros [|y b] H; simpl in H;
      try discriminate; [reflexivity|].
    apply andb_true_iff in H as [Hx Hab].
    apply Ascii.eqb_eq in Hx. f_equal; auto.
  - intros ->. apply streq_refl.
Qed.

Lemma Set_has_In (s : JsSet) (x : jsstring) : Set_has s x = true <-> In x s.
Proof.
  unfold Set_has. rewrite existsb_exists. split.
  - intros (y & Hy & E). apply streq_eq in E. now subst.
  - intros H. exists x. split; [assumption | apply streq_refl].
Qed.

Lemma Set_has_false (s : JsSet) (x : jsstring) :
  Set_has s x = false <-> ~ In x s.
Proof.
  rewrite <- Set_has_In. destruct (Set_has s x); split; congruence.
Qed.

Lemma Set_add_In (s : JsSet) (x y : jsstring) :
  In x (Set_add s y) <-> In x s \/ x = y.
Proof.
  unfold Set_add. destruct (Set_has s y) eqn:E.
  - apply Set_has_In in E. split; [auto | intros [H | ->]; assumption].
  - rewrite in_app_iff. simpl. intuition congruence.
Qed.

Lemma Set_add_all_In (l : list jsstring) (s : JsSet) (x : jsstring) :
  In x (fold_left Set_add l s) <-> In x s \/ In x l.
Proof.
  revert s; induction l as [|y l IH]; intros s; simpl.
  - tauto.
  - rewrite IH, Set_add_In. intuition congruence.
Qed.

(** A fold that adds one name per element. *)
Lemma Set_add_map_In (A : Type) (f : A -> jsstring) (l : list A) (s : JsSet)
      (x : jsstring) :
  In x (fold_left (fun k a => Set_add k (f a)) l s)
  <-> In x s \/ exists a, In a l /\ x = f a.
Proof.
  revert s; induction l as [|a l IH]; intros s; simpl.
  - split; [auto | intros [H | (a & [] & _)]; assumption].
  - rewrite IH, Set_add_In. split.
    + intros [[H | ->] | (b & Hb & ->)]; eauto.
    + intros [H | (b & [<- | Hb] & ->)]; eauto.
Qed.

End JsFacts.

Module NormalizeFacts.
Import JsFacts.

Lemma add_dimension_In (k : JsSet) (d : Dimension) (x : jsstring) :
  In x (add_dimension k d)
  <-> In x k \/ x = dim_name d \/ exists al, aliases d = Some al /\ In x al.
Proof.
  unfold add_dimension. destruct (aliases d) as [al|].
  - rewrite Set_add_all_In, Set_add_In. split.
    + intros [[H | H] | H]; eauto.
    + intros [H | [H | (al' & E & H)]]; auto. injection E as <-. auto.
  - rewrite Set_add_In. split.
    + intros [H | H]; auto.
    + intros [H | [H | (al' & E & _)]]; auto. discriminate.
Qed.

Lemma add_dimensions_In (ds : list Dimension) (k : JsSet) (x : jsstring) :
  In x (fold_left add_dimension ds k)
  <-> In x k
      \/ (exists d, In d ds /\ x = dim_name d)
      \/ (exists d al, In d ds /\ aliases d = Some al /\ In x al).
Proof.
  revert k; induction ds as [|d ds IH]; intros k; simpl.
  - split; [auto | intros [H | [(d & [] & _) | (d & al & [] & _)]]; assumption].
  - rewrite IH, add_dimension_In. split.
    + intros [[H | [-> | (al & E & H)]] | [(d' & Hd & ->) | (d' & al & Hd & E & H)]];
        eauto 8.
    + intros [H | [(d' & [<- | Hd] & ->) | (d' & al & [<- | Hd] & E & H)]];
        eauto 8.
Qed.

Lemma add_entity_In (k : JsSet) (ent : EntityJson) (x : jsstring) :
  In x (add_entity k ent) <-> In x k \/ entityIdentifier ent x.
Proof.
  unfold add_entity, entityIdentifier.
  rewrite (Set_add_map_In _ measure_name), (Set_add_map_In _ td_name),
    add_dimensions_In, !Set_add_In.
  tauto.
Qed.

Lemma knownIdentifiers_In (registry : Registry) (x : jsstring) :
  In x (knownIdentifiers registry) <-> registryIdentifier registry x.
Proof.
  unfold knownIdentifiers, registryIdentifier.
  generalize (Map_values registry) as ents.
  assert (G : forall ents k,
             In x (fold_left add_entity ents k)
             <-> In x k \/ exists ent, In ent ents /\ entityIdentifier ent x).
  { induction ents as [|e ents IH]; intros k; simpl.
    - split; [auto | intros [H | (e & [] & _)]; assumption].
    - rewrite IH, add_entity_In. split.
      + intros [[H | H] | (e' & He & H)]; eauto.
      + intros [H | (e' & [<- | He] & H)]; eauto. }
  intros ents. rewrite G. simpl. split; [intros [[] | H]; assumption | auto].
Qed.

End NormalizeFacts.

Module ScanFacts.
Import JsFacts NormalizeFacts.

(** *** The inner loops *)

Lemma singleQuoted_acc (s : jsstring) :
  forall prev result,
    singleQuoted prev s result
    = let '(out, rest, closed) := singleQuoted prev s [] in
      (result ++ out, rest, closed).
Proof.
  induction s as [|c s IH]; intros prev result; simpl.
  - now rewrite app_nil_r.
  - destruct (Ascii.eqb c squote && negb (Ascii.eqb prev backslash)).
    + reflexivity.
    + rewrite (IH c (result ++ [c])), (IH c [c]).
      destruct (singleQuoted c s []) as [[out rest] closed].
      now rewrite <- app_assoc.
Qed.

Lemma singleQuoted_split (s : jsstring) :
  forall prev out rest closed,
    singleQuoted prev s [] = (out, rest, closed) ->
    s = out ++ rest /\ (closed = false -> rest = []).
Proof.
  induction s as [|c s IH]; intros prev out rest closed; simpl.
  - intros [= <- <- <-]. auto.
  - destruct (Ascii.eqb c squote && negb (Ascii.eqb prev backslash)).
    + intros [= <- <- <-]. split; [reflexivity | discriminate].
    + rewrite singleQuoted_acc.
      destruct (singleQuoted c s []) as [[out' rest'] closed'] eqn:E.
      intros [= <- <- <-]. destruct (IH _ _ _ _ E) as [-> Hc]. auto.
Qed.

(** A span that found its closing quote is read the same way whatever
    follows it. *)
Lemma singleQuoted_local (s : jsstring) :
  forall prev out rest t,
    singleQuoted prev s [] = (out, rest, true) ->
    singleQuoted prev (out ++ t) [] = (out, t, true).
Proof.
  induction s as [|c s IH]; intros prev out rest t; simpl.
  - discriminate.
  - destruct (Ascii.eqb c squote && negb (Ascii.eqb prev backslash)) eqn:Q.
    + intros [= <- <-]. simpl. now rewrite Q.
    + rewrite singleQuoted_acc.
      destruct (singleQuoted c s []) as [[out' rest'] closed'] eqn:E.
      intros [= <- <- ->]. simpl. rewrite Q, singleQuoted_acc.
      now rewrite (IH _ _ _ t E).
Qed.

Lemma doubleQuoted_acc (s : jsstring) :
  forall token,
    doubleQuoted s token
    = let '(tok, rest, closed) := doubleQuoted s [] in
      (token ++ tok, rest, closed).
Proof.
  induction s as [|c s IH]; intros token; simpl.
  - now rewrite app_nil_r.
  - destruct (Ascii.eqb c dquote).
    + now rewrite app_nil_r.
    + rewrite (IH (token ++ [c])), (IH [c]).
      destruct (doubleQuoted s []) as [[tok rest] closed].
      now rewrite <- app_assoc.
Qed.

Lemma doubleQuoted_split (s : jsstring) :
  forall tok rest closed,
    doubleQuoted s [] = (tok, rest, closed) ->
    ~ In dquote tok
    /\ (closed = true -> s = tok ++ dquote :: rest)
    /\ (closed = false -> s = tok /\ rest = []).
Proof.
  induction s as [|c s IH]; intros tok rest closed; simpl.
  - intros [= <- <- <-]. repeat split; auto; discriminate.
  - destruct (Ascii.eqb c dquote) eqn:Q.
    + intros [= <- <- <-]. apply Ascii.eqb_eq in Q. subst c.
      repeat split; auto; discriminate.
    + rewrite doubleQuoted_acc.
      destruct (doubleQuoted s []) as [[tok' rest'] closed'] eqn:E.
      intros [= <- <- <-]. destruct (IH _ _ _ eq_refl) as (Hn & Hc & Ho).
      apply Ascii.eqb_neq in Q. split; [|split].
      * simpl. intros [H | H]; [congruence | contradiction].
      * intros H. simpl. now rewrite (Hc H).
      * intros H. destruct (Ho H) as [-> ->]. auto.
Qed.

Lemma doubleQuoted_token (tok t : jsstring) :
  ~ In dquote tok ->
  doubleQuoted (tok ++ dquote :: t) [] = (tok, t, true).
Proof.
  induction tok as [|c tok IH]; intros Hn; simpl.
  - reflexivity.
  - destruct (Ascii.eqb c dquote) eqn:Q.
    + apply Ascii.eqb_eq in Q. subst c. exfalso. apply Hn. now left.
    + rewrite doubleQuoted_acc, IH; [reflexivity|].
      intros H. apply Hn. now right.
Qed.

Lemma doubleQuoted_unterminated (tok : jsstring) :
  ~ In dquote tok -> doubleQuoted tok [] = (tok, [], false).
Proof.
  induction tok as [|c tok IH]; intros Hn; simpl.
  - reflexivity.
  - destruct (Ascii.eqb c dquote) eqn:Q.
    + apply Ascii.eqb_eq in Q. subst c. exfalso. apply Hn. now left.
    + rewrite doubleQuoted_acc, IH; [reflexivity|].
      intros H. apply Hn. now right.
Qed.

Lemma singleQuoted_length (s : jsstring) prev out rest closed :
  singleQuoted prev s [] = (out, rest, closed) -> length rest <= length s.
Proof.
  intros H. apply singleQuoted_split in H as [-> _].
  rewrite length_app. lia.
Qed.

Lemma doubleQuoted_length (s : jsstring) tok rest closed :
  doubleQuoted s [] = (tok, rest, closed) -> length rest <= length s.
Proof.
  intros H. apply doubleQuoted_split in H as (_ & Hc & Ho).
  destruct closed.
  - rewrite (Hc eq_refl), length_app. simpl. lia.
  - destruct (Ho eq_refl) as [_ ->]. simpl. lia.
Qed.

(** *** The main loop *)

Lemma scan_acc (known : JsSet) (fuel : nat) :
  forall s result, scan fuel known s result = result ++ scan fuel known s [].
Proof.
  induction fuel as [|fuel IH]; intros s result; simpl.
  - now rewrite app_nil_r.
  - destruct s as [|ch s']; [now rewrite app_nil_r|].
    destruct (Ascii.eqb ch squote).
    + rewrite (singleQuoted_acc s' ch (result ++ [ch])),
        (singleQuoted_acc s' ch [ch]).
      destruct (singleQuoted ch s' []) as [[out rest] closed].
      rewrite (IH rest ((result ++ [ch]) ++ out)), (IH rest ([ch] ++ out)).
      now rewrite <- !app_assoc.
    + destruct (Ascii.eqb ch dquote).
      * destruct (doubleQuoted s' []) as [[tok rest] closed].
        rewrite (IH rest (result ++ _)), (IH rest (emitToken known tok)).
        now rewrite <- !app_assoc.
      * rewrite (IH s' (result ++ [ch])), (IH s' [ch]).
        now rewrite <- !app_assoc.
Qed.

Lemma scan_fuel_irrelevant (known : JsSet) (fuel1 : nat) :
  forall fuel2 s,
    length s <= fuel1 -> length s <= fuel2 ->
    scan fuel1 known s [] = scan fuel2 known s [].
Proof.
  induction fuel1 as [|fuel1 IH]; intros fuel2 s H1 H2.
  - destruct s; [now destruct fuel2 | simpl in H1; lia].
  - destruct s as [|ch s']; [now destruct fuel2|].
    destruct fuel2 as [|fuel2]; simpl in H1, H2; [lia|]. simpl.
    destruct (Ascii.eqb ch squote).
    + rewrite singleQuoted_acc.
      destruct (singleQuoted ch s' []) as [[out rest] closed] eqn:E.
      apply singleQuoted_length in E.
      rewrite scan_acc, (scan_acc known fuel2).
      f_equal. apply IH; lia.
    + destruct (Ascii.eqb ch dquote).
      * destruct (doubleQuoted s' []) as [[tok rest] closed] eqn:E.
        apply doubleQuoted_length in E.
        rewrite scan_acc, (scan_acc known fuel2).
        f_equal. apply IH; lia.
      * rewrite scan_acc, (scan_acc known fuel2).
        f_equal. apply IH; lia.
Qed.

Lemma scan_fuel (known : JsSet) (fuel : nat) (s : jsstring) :
  length s <= fuel -> scan fuel known s [] = norm known s.
Proof. intros H. apply scan_fuel_irrelevant; auto. Qed.

Lemma norm_nil known : norm known [] = [].
Proof. reflexivity. Qed.

Lemma norm_squote known s' out rest closed :
  singleQuoted squote s' [] = (out, rest, closed) ->
  norm known (squote :: s') = squote :: out ++ norm known rest.
Proof.
  intros E. unfold norm at 1. simpl.
  rewrite singleQuoted_acc, E, scan_acc, scan_fuel.
  - reflexivity.
  - eapply singleQuoted_length; eassumption.
Qed.

Lemma norm_dquote known s' tok rest closed :
  doubleQuoted s' [] = (tok, rest, closed) ->
  norm known (dquote :: s') = emitToken known tok ++ norm known rest.
Proof.
  intros E. unfold norm at 1. simpl.
  rewrite E, scan_acc, scan_fuel.
  - reflexivity.
  - eapply doubleQuoted_length; eassumption.
Qed.

Lemma norm_plain known ch s' :
  Ascii.eqb ch squote = false -> Ascii.eqb ch dquote = false ->
  norm known (ch :: s') = ch :: norm known s'.
Proof.
  intros Hs Hd. unfold norm at 1. simpl.
  rewrite Hs, Hd, scan_acc, scan_fuel by lia. reflexivity.
Qed.

End ScanFacts.

Module TopLevelFacts.
Import JsFacts NormalizeFacts ScanFacts.

Lemma quotesClosed_fuel (fuel1 : nat) :
  forall fuel2 s,
    length s <= fuel1 -> length s <= fuel2 ->
    quotesClosed fuel1 s = quotesClosed fuel2 s.
Proof.
  induction fuel1 as [|fuel1 IH]; intros fuel2 s H1 H2.
  - destruct s; [now destruct fuel2 | simpl in H1; lia].
  - destruct s as [|ch s']; [now destruct fuel2|].
    destruct fuel2 as [|fuel2]; simpl in H1, H2; [lia|]. simpl.
    destruct (Ascii.eqb ch squote).
    + destruct (singleQuoted ch s' []) as [[out rest] closed] eqn:E.
      apply singleQuoted_length in E. f_equal. apply IH; lia.
    + destruct (Ascii.eqb ch dquote).
      * destruct (doubleQuoted s' []) as [[tok rest] closed] eqn:E.
        apply doubleQuoted_length in E. f_equal. apply IH; lia.
      * apply IH; lia.
Qed.

Lemma atTopLevel_squote s' out rest closed :
  singleQuoted squote s' [] = (out, rest, closed) ->
  atTopLevel (squote :: s') = closed && atTopLevel rest.
Proof.
  intros E. unfold atTopLevel. simpl. rewrite E. f_equal.
  apply singleQuoted_length in E. apply quotesClosed_fuel; lia.
Qed.

Lemma atTopLevel_dquote s' tok rest closed :
  doubleQuoted s' [] = (tok, rest, closed) ->
  atTopLevel (dquote :: s') = closed && atTopLevel rest.
Proof.
  intros E. unfold atTopLevel. simpl. rewrite E. f_equal.
  apply doubleQuoted_length in E. apply quotesClosed_fuel; lia.
Qed.

Lemma atTopLevel_plain ch s' :
  Ascii.eqb ch squote = false -> Ascii.eqb ch dquote = false ->
  atTopLevel (ch :: s') = atTopLevel s'.
Proof.
  intros Hs Hd. unfold atTopLevel. simpl. rewrite Hs, Hd.
  apply quotesClosed_fuel; lia.
Qed.

Lemma tokens_fuel (fuel1 : nat) :
  forall fuel2 s,
    length s <= fuel1 -> length s <= fuel2 ->
    doubleQuotedTokens fuel1 s = doubleQuotedTokens fuel2 s.
Proof.
  induction fuel1 as [|fuel1 IH]; intros fuel2 s H1 H2.
  - destruct s; [now destruct fuel2 | simpl in H1; lia].
  - destruct s as [|ch s']; [now destruct fuel2|].
    destruct fuel2 as [|fuel2]; simpl in H1, H2; [lia|]. simpl.
    destruct (Ascii.eqb ch squote).
    + destruct (singleQuoted ch s' []) as [[out rest] closed] eqn:E.
      apply singleQuoted_length in E. apply IH; lia.
    + destruct (Ascii.eqb ch dquote).
      * destruct (doubleQuoted s' []) as [[tok rest] closed] eqn:E.
        apply doubleQuoted_length in E. f_equal. apply IH; lia.
      * apply IH; lia.
Qed.

Lemma tokensOf_squote s' out rest closed :
  singleQuoted squote s' [] = (out, rest, closed) ->
  tokensOf (squote :: s') = tokensOf rest.
Proof.
  intros E. unfold tokensOf. simpl. rewrite E.
  apply singleQuoted_length in E. apply tokens_fuel; lia.
Qed.

Lemma tokensOf_dquote s' tok rest closed :
  doubleQuoted s' [] = (tok, rest, closed) ->
  tokensOf (dquote :: s') = tok :: tokensOf rest.
Proof.
  intros E. unfold tokensOf. simpl. rewrite E. f_equal.
  apply doubleQuoted_length in E. apply tokens_fuel; lia.
Qed.

Lemma tokensOf_plain ch s' :
  Ascii.eqb ch squote = false -> Ascii.eqb ch dquote = false ->
  tokensOf (ch :: s') = tokensOf s'.
Proof.
  intros Hs Hd. unfold tokensOf. simpl. rewrite Hs, Hd.
  apply tokens_fuel; lia.
Qed.

(** Case analysis on the character the main loop reads. *)
Lemma char_cases (ch : ascii) :
  ch = squote \/ ch = dquote
  \/ (Ascii.eqb ch squote = false /\ Ascii.eqb ch dquote = false).
Proof.
  destruct (Ascii.eqb ch squote) eqn:Hs; [left; now apply Ascii.eqb_eq|].
  destruct (Ascii.eqb ch dquote) eqn:Hd; [right; left; now apply Ascii.eqb_eq|].
  auto.
Qed.

(** The output for an input whose prefix ends at the top level of the scan is
    the output for the prefix followed by the output for the rest. *)
Lemma norm_app (known : JsSet) (t : jsstring) :
  forall pre,
    atTopLevel pre = true ->
    norm known (pre ++ t) = norm known pre ++ norm known t.
Proof.
  intros pre. remember (length pre) as n eqn:Hn.
  revert pre Hn. induction n as [n IH] using lt_wf_ind. intros pre Hn Hc.
  destruct pre as [|ch p']; [reflexivity|].
  simpl in Hn.
  destruct (char_cases ch) as [-> | [-> | [Hs Hd]]].
  - destruct (singleQuoted squote p' []) as [[out rest] closed] eqn:E.
    rewrite (atTopLevel_squote _ _ _ _ E) in Hc.
    apply andb_true_iff in Hc as [-> Hc].
    pose proof (singleQuoted_split _ _ _ _ _ E) as [Hp _].
    pose proof (singleQuoted_local _ _ _ _ (rest ++ t) E) as E'.
    rewrite (norm_squote known _ _ _ _ E).
    simpl. rewrite Hp at 1. rewrite <- app_assoc.
    rewrite (norm_squote known _ _ _ _ E').
    rewrite (IH (length rest)) with (pre := rest); auto.
    + now rewrite <- app_assoc.
    + apply singleQuoted_length in E. lia.
  - destruct (doubleQuoted p' []) as [[tok rest] closed] eqn:E.
    rewrite (atTopLevel_dquote _ _ _ _ E) in Hc.
    apply andb_true_iff in Hc as [-> Hc].
    pose proof (doubleQuoted_split _ _ _ _ E) as (Hn' & Hp & _).
    specialize (Hp eq_refl).
    rewrite (norm_dquote known _ _ _ _ E).
    simpl. rewrite Hp at 1. rewrite <- app_assoc. simpl.
    rewrite (norm_dquote known _ _ _ _ (doubleQuoted_token _ (rest ++ t) Hn')).
    rewrite (IH (length rest)) with (pre := rest); auto.
    + now rewrite <- app_assoc.
    + apply doubleQuoted_length in E. lia.
  - simpl. rewrite !norm_plain by assumption.
    rewrite (atTopLevel_plain _ _ Hs Hd) in Hc.
    rewrite (IH (length p')) with (pre := p'); auto. lia.
Qed.

(** A double-quoted token read at the top level. *)
Lemma norm_token (known : JsSet) (tok post : jsstring) :
  ~ In dquote tok ->
  norm known (dq tok ++ post) = emitToken known tok ++ norm known post.
Proof.
  intros Hn. unfold dq. simpl. rewrite <- app_assoc. simpl.
  apply norm_dquote with (closed := true). now apply doubleQuoted_token.
Qed.

Lemma norm_at_token (known : JsSet) (pre tok post : jsstring) :
  atTopLevel pre = true ->
  ~ In dquote tok ->
  norm known (pre ++ dq tok ++ post)
  = norm known pre ++ emitToken known tok ++ norm known post.
Proof.
  intros Hc Hn. now rewrite norm_app, norm_token.
Qed.

(** Normalizing an input whose double-quoted tokens are all identifiers
    changes nothing on a second pass. *)
Lemma norm_idempotent (known : JsSet) :
  forall s,
    forallb (isIdentifier known) (tokensOf s) = true ->
    norm known (norm known s) = norm known s.
Proof.
  intros s. remember (length s) as n eqn:Hn.
  revert s Hn. induction n as [n IH] using lt_wf_ind. intros s Hn Ht.
  destruct s as [|ch s']; [reflexivity|].
  simpl in Hn.
  destruct (char_cases ch) as [-> | [-> | [Hs Hd]]].
  - destruct (singleQuoted squote s' []) as [[out rest] closed] eqn:E.
    rewrite (tokensOf_squote _ _ _ _ E) in Ht.
    rewrite (norm_squote known _ _ _ _ E).
    pose proof (singleQuoted_split _ _ _ _ _ E) as [Hp Ho].
    destruct closed.
    + rewrite (norm_squote known _ _ _ _ (singleQuoted_local _ _ _ _ (norm known rest) E)).
      rewrite (IH (length rest)) with (s := rest); auto.
      apply singleQuoted_length in E. lia.
    + rewrite (Ho eq_refl) in *. rewrite norm_nil. rewrite app_nil_r in *.
      subst s'. rewrite (norm_squote known _ _ _ _ E). now rewrite norm_nil, app_nil_r.
  - destruct (doubleQuoted s' []) as [[tok rest] closed] eqn:E.
    rewrite (tokensOf_dquote _ _ _ _ E) in Ht. simpl in Ht.
    apply andb_true_iff in Ht as [Hi Ht].
    pose proof (doubleQuoted_split _ _ _ _ E) as (Hn' & _).
    rewrite (norm_dquote known _ _ _ _ E).
    unfold emitToken. rewrite Hi.
    change ([dquote] ++ tok ++ [dquote]) with (dq tok).
    rewrite norm_token by assumption.
    unfold emitToken. rewrite Hi.
    rewrite (IH (length rest)) with (s := rest); auto.
    apply doubleQuoted_length in E. lia.
  - rewrite (tokensOf_plain _ _ Hs Hd) in Ht.
    rewrite !norm_plain by assumption.
    rewrite (IH (length s')) with (s := s'); auto. lia.
Qed.

End TopLevelFacts.

Module NormalizeClaims.
Import JsFacts NormalizeFacts ScanFacts TopLevelFacts Samples.

Lemma isIdentifier_known (registry : Registry) (token ident : jsstring) :
  registryIdentifier registry ident ->
  token = ident \/ toLowerCase token = ident ->
  isIdentifier (knownIdentifiers registry) token = true.
Proof.
  intros Hr He. apply knownIdentifiers_In, Set_has_In in Hr.
  unfold isIdentifier. destruct He as [-> | ->]; rewrite Hr.
  - reflexivity.
  - now rewrite orb_true_r.
Qed.

Lemma identStart_lower (c : ascii) :
  identStart (toLowerCaseChar c) = identStart c.
Proof. destruct c as [[] [] [] [] [] [] [] []]; vm_compute; reflexivity. Qed.

Lemma identPart_lower (c : ascii) :
  identPart (toLowerCaseChar c) = identPart c.
Proof. destruct c as [[] [] [] [] [] [] [] []]; vm_compute; reflexivity. Qed.

Lemma identifierPattern_lower (token : jsstring) :
  identifierPattern (toLowerCase token) = identifierPattern token.
Proof.
  destruct token as [|c rest]; [reflexivity|]. simpl.
  rewrite identStart_lower. f_equal.
  induction rest as [|d rest IH]; [reflexivity|]. simpl.
  now rewrite identPart_lower, IH.
Qed.

(** The pattern test carries the [i] flag: it does not tell two spellings
    of a name apart. *)
Lemma identifierPattern_sameIgnoringCase (a b : jsstring) :
  SpecWords.sameIgnoringCase a b ->
  identifierPattern a = identifierPattern b.
Proof.
  unfold SpecWords.sameIgnoringCase. intros H.
  now rewrite <- (identifierPattern_lower a), H, identifierPattern_lower.
Qed.

Lemma isIdentifier_case_variant (registry : Registry) (token ident : jsstring) :
  registryIdentifier registry ident ->
  SpecWords.sameIgnoringCase token ident ->
  token = ident \/ toLowerCase ident = ident \/ identifierPattern ident = true ->
  isIdentifier (knownIdentifiers registry) token = true.
Proof.
  intros Hr Hs [He | [Hl | Hp]].
  - apply (isIdentifier_known registry token ident Hr). now left.
  - apply (isIdentifier_known registry token ident Hr). right.
    unfold SpecWords.sameIgnoringCase in Hs. now rewrite Hs.
  - unfold isIdentifier.
    rewrite (identifierPattern_sameIgnoringCase token ident Hs), Hp.
    now rewrite !orb_true_r.
Qed.

Lemma not_in_token (c : ascii) (s : jsstring) :
  existsb (Ascii.eqb c) s = false -> ~ In c s.
Proof.
  intros H Hin.
  assert (E : existsb (Ascii.eqb c) s = true).
  { apply existsb_exists. exists c. split; [assumption | apply Ascii.eqb_refl]. }
  congruence.
Qed.

(** C3.  A double-quoted token that the scan reads at its top level and
    that equals a known identifier of the registry in any letter case is
    kept between double quotes when it is the identifier as registered, or
    the identifier is registered in lower case, or the identifier has the
    lexical shape of an identifier.  It is not kept for the other known
    identifiers: with the dimension name [Order Total] registered, the token
    [order total] comes out between single quotes. *)
Theorem known_identifier_stays_double_quoted :
  (forall (registry : Registry) (pre token post ident : jsstring),
      atTopLevel pre = true ->
      ~ In dquote token ->
      registryIdentifier registry ident ->
      SpecWords.sameIgnoringCase token ident ->
      token = ident \/ toLowerCase ident = ident
      \/ identifierPattern ident = true ->
      normalizeSQLiteQuotes (pre ++ dq token ++ post) registry
      = normalizeSQLiteQuotes pre registry
        ++ dq token ++ normalizeSQLiteQuotes post registry)
  /\ (registryIdentifier ordersRegistry (str "Order Total")
      /\ SpecWords.sameIgnoringCase (str "order total") (str "Order Total")
      /\ atTopLevel (str "SELECT ") = true
      /\ normalizeSQLiteQuotes
           (str "SELECT " ++ dq (str "order total") ++ str " FROM orders")
           ordersRegistry
         = str "SELECT 'order total' FROM orders"
      /\ normalizeSQLiteQuotes
           (str "SELECT " ++ dq (str "order total") ++ str " FROM orders")
           ordersRegistry
         <> normalizeSQLiteQuotes (str "SELECT ") ordersRegistry
            ++ dq (str "order total")
            ++ normalizeSQLiteQuotes (str " FROM orders") ordersRegistry).
Proof.
  split.
  - intros registry pre token post ident Hc Hn Hr Hs He.
    change (norm (knownIdentifiers registry) (pre ++ dq token ++ post)
            = norm (knownIdentifiers registry) pre
              ++ dq token ++ norm (knownIdentifiers registry) post).
    rewrite norm_at_token by assumption.
    unfold emitToken.
    now rewrite (isIdentifier_case_variant _ _ _ Hr Hs He).
  - split; [|split; [|split; [|split]]].
    + apply knownIdentifiers_In, Set_has_In. reflexivity.
    + reflexivity.
    + reflexivity.
    + reflexivity.
    + vm_compute. discriminate.
Qed.

Lemma known_identifier_stays_double_quoted_witness :
  normalizeSQLiteQuotes
    (str "SELECT " ++ dq (str "Total Amount") ++ str " FROM orders")
    ordersRegistry
  = normalizeSQLiteQuotes (str "SELECT ") ordersRegistry
    ++ dq (str "Total Amount")
    ++ normalizeSQLiteQuotes (str " FROM orders") ordersRegistry
  /\ normalizeSQLiteQuotes
       (str "SELECT " ++ dq (str "ORDERS") ++ str " FROM orders")
       ordersRegistry
     = normalizeSQLiteQuotes (str "SELECT ") ordersRegistry
       ++ dq (str "ORDERS")
       ++ normalizeSQLiteQuotes (str " FROM orders") ordersRegistry.
Proof.
  split.
  - apply (proj1 known_identifier_stays_double_quoted
                 ordersRegistry (str "SELECT ") (str "Total Amount")
                 (str " FROM orders") (str "total amount")).
    + reflexivity.
    + apply not_in_token. reflexivity.
    + apply knownIdentifiers_In, Set_has_In. reflexivity.
    + reflexivity.
    + right. left. reflexivity.
  - apply (proj1 known_identifier_stays_double_quoted
                 ordersRegistry (str "SELECT ") (str "ORDERS")
                 (str " FROM orders") (str "orders")).
    + reflexivity.
    + apply not_in_token. reflexivity.
    + apply knownIdentifiers_In, Set_has_In. reflexivity.
    + reflexivity.
    + right. right. reflexivity.
Defined.

Lemma escapeQuotes_doubles (token : jsstring) :
  escapeQuotes token = SpecWords.singleQuotesDoubled token.
Proof.
  induction token as [|c rest IH]; [reflexivity|].
  unfold escapeQuotes in *. simpl. rewrite IH.
  now destruct (Ascii.eqb c squote).
Qed.

(** C4.  A double-quoted token read at the top level of the scan that is
    neither a known identifier (as it stands or lowercased), nor a keyword of
    the fixed list, nor of the lexical shape of an identifier, comes out
    between single quotes with each of its single quotes doubled: the
    output is the output for what precedes, a single quote, the token with
    two single quotes in the place of each one of its single quotes and
    every other character as it is, a single quote, and the output for what
    follows. *)
Theorem unknown_token_becomes_string_literal :
  forall (registry : Registry) (pre token post : jsstring),
    atTopLevel pre = true ->
    ~ In dquote token ->
    ~ registryIdentifier registry token ->
    ~ registryIdentifier registry (toLowerCase token) ->
    ~ In (toLowerCase token) sqlKeywords ->
    identifierPattern token = false ->
    normalizeSQLiteQuotes (pre ++ dq token ++ post) registry
    = normalizeSQLiteQuotes pre registry
      ++ [squote] ++ SpecWords.singleQuotesDoubled token ++ [squote]
      ++ normalizeSQLiteQuotes post registry.
Proof.
  intros registry pre token post Hc Hn H1 H2 H3 H4.
  change (norm (knownIdentifiers registry) (pre ++ dq token ++ post)
          = norm (knownIdentifiers registry) pre
            ++ [squote] ++ SpecWords.singleQuotesDoubled token ++ [squote]
            ++ norm (knownIdentifiers registry) post).
  rewrite norm_at_token by assumption.
  rewrite <- knownIdentifiers_In, <- Set_has_false in H1, H2.
  apply Set_has_false in H3.
  unfold emitToken, isIdentifier. rewrite H1, H2, H3, H4.
  cbn [orb]. unfold sq.
  rewrite escapeQuotes_doubles, <- !app_assoc. reflexivity.
Qed.

Lemma unknown_token_becomes_string_literal_witness :
  normalizeSQLiteQuotes
    (str "WHERE city = " ++ dq (str "it's") ++ str " LIMIT 5") ordersRegistry
  = str "WHERE city = 'it''s' LIMIT 5"
  /\ normalizeSQLiteQuotes
       (str "VALUES (" ++ dq (str "'a' 'b'") ++ str ")") ordersRegistry
     = str "VALUES ('''a'' ''b''')".
Proof.
  split.
  - refine (eq_trans
              (unknown_token_becomes_string_literal
                 ordersRegistry (str "WHERE city = ") (str "it's")
                 (str " LIMIT 5") _ _ _ _ _ _) _).
    + reflexivity.
    + apply not_in_token. reflexivity.
    + rewrite <- knownIdentifiers_In. apply Set_has_false. reflexivity.
    + rewrite <- knownIdentifiers_In. apply Set_has_false. reflexivity.
    + apply Set_has_false. reflexivity.
    + reflexivity.
    + reflexivity.
  - refine (eq_trans
              (unknown_token_becomes_string_literal
                 ordersRegistry (str "VALUES (") (str "'a' 'b'")
                 (str ")") _ _ _ _ _ _) _).
    + reflexivity.
    + apply not_in_token. reflexivity.
    + rewrite <- knownIdentifiers_In. apply Set_has_false. reflexivity.
    + rewrite <- knownIdentifiers_In. apply Set_has_false. reflexivity.
    + apply Set_has_false. reflexivity.
    + reflexivity.
    + reflexivity.
Defined.

(** C5.  When every double-quoted token of the input is already one the
    normalizer classifies as an identifier, normalizing twice gives what
    normalizing once gives. *)
Theorem normalizeSQLiteQuotes_idempotent :
  forall (sql : jsstring) (registry : Registry),
    Forall (fun token => isIdentifier (knownIdentifiers registry) token = true)
           (tokensOf sql) ->
    normalizeSQLiteQuotes (normalizeSQLiteQuotes sql registry) registry
    = normalizeSQLiteQuotes sql registry.
Proof.
  intros sql registry H.
  apply (norm_idempotent (knownIdentifiers registry) sql).
  apply forallb_forall. rewrite Forall_forall in H. exact H.
Qed.

Lemma normalizeSQLiteQuotes_idempotent_witness :
  normalizeSQLiteQuotes
    (normalizeSQLiteQuotes
       (str "SELECT " ++ dq (str "total amount") ++ str " FROM 'it''s' "
            ++ dq (str "orders"))
       ordersRegistry)
    ordersRegistry
  = normalizeSQLiteQuotes
      (str "SELECT " ++ dq (str "total amount") ++ str " FROM 'it''s' "
           ++ dq (str "orders"))
      ordersRegistry.
Proof.
  apply (normalizeSQLiteQuotes_idempotent
           (str "SELECT " ++ dq (str "total amount") ++ str " FROM 'it''s' "
                ++ dq (str "orders"))
           ordersRegistry).
  apply Forall_forall, forallb_forall. reflexivity.
Defined.

(** Outside that hypothesis a second pass can differ from the first: a
    token holding a backslash is rewritten to a literal whose closing quote
    the single-quote loop then takes for an escaped one. *)
Example second_pass_may_differ :
  let sql := dq [backslash] ++ str " 'x " ++ dq (str "a b") ++ str " y'" in
  normalizeSQLiteQuotes sql ordersRegistry
  = str "'\' 'x " ++ dq (str "a b") ++ str " y'"
  /\ normalizeSQLiteQuotes (normalizeSQLiteQuotes sql ordersRegistry)
                           ordersRegistry
     = str "'\' 'x 'a b' y'".
Proof. split; reflexivity. Qed.

End NormalizeClaims.

(* ================================================================== *)
(** * Facts about syntaxScan *)
(* ================================================================== *)

Module SyntaxScanFacts.
Import SyntaxScan.

(** *** split, endsWith and trim *)

Lemma split_go_length (sep : ascii) (s : jsstring) :
  forall piece,
    length (split_go sep s piece) = S (count_occ ascii_dec s sep).
Proof.
  induction s as [|c s IH]; intros piece; simpl; [reflexivity|].
  destruct (Ascii.eqb c sep) eqn:E.
  - apply Ascii.eqb_eq in E. subst c. simpl.
    destruct (ascii_dec sep sep); [|congruence]. now rewrite IH.
  - apply Ascii.eqb_neq in E.
    destruct (ascii_dec c sep); [congruence|]. apply IH.
Qed.

Lemma split_count (sep : ascii) (s : jsstring) :
  length (split sep s) - 1 = count_occ ascii_dec s sep.
Proof. unfold split. rewrite split_go_length. lia. Qed.

Lemma endsWith_iff (c : ascii) (s : jsstring) :
  endsWith c s = true <-> exists s', s = s' ++ [c].
Proof.
  unfold endsWith. split.
  - destruct (rev s) as [|x r] eqn:E; [discriminate|].
    intros H. apply Ascii.eqb_eq in H. subst x.
    exists (rev r). rewrite <- (rev_involutive s), E. reflexivity.
  - intros (s' & ->). rewrite rev_app_distr. simpl. apply Ascii.eqb_refl.
Qed.

Lemma endsWith_app (c : ascii) (x y : jsstring) :
  y <> [] -> endsWith c (x ++ y) = endsWith c y.
Proof.
  intros Hy. unfold endsWith. rewrite rev_app_distr.
  destruct (rev y) as [|a r] eqn:E; [|reflexivity].
  exfalso. apply Hy. rewrite <- (rev_involutive y), E. reflexivity.
Qed.

Lemma endsWith_count (c : ascii) (s : jsstring) :
  endsWith c s = true -> 1 <= count_occ ascii_dec s c.
Proof.
  intros H. apply endsWith_iff in H as (s' & ->).
  rewrite count_occ_app. simpl. destruct (ascii_dec c c); [lia | congruence].
Qed.

Lemma trimStart_before (c : ascii) (p x : jsstring) :
  isWhiteSpace c = false ->
  trimStart (p ++ c :: x) = trimStart p ++ c :: x.
Proof.
  intros Hc. induction p as [|a p IH]; simpl.
  - now rewrite Hc.
  - destruct (isWhiteSpace a); [exact IH | reflexivity].
Qed.

Lemma trimEnd_after (c : ascii) (x p : jsstring) :
  isWhiteSpace c = false ->
  trimEnd (x ++ c :: p) = x ++ c :: trimEnd p.
Proof.
  intros Hc. unfold trimEnd.
  rewrite rev_app_distr. simpl. rewrite <- app_assoc. simpl.
  rewrite trimStart_before by assumption.
  rewrite rev_app_distr. simpl. rewrite rev_involutive, <- app_assoc.
  reflexivity.
Qed.

(** The trimmed text of an input with a semicolon before a character that
    is not white space. *)
Lemma trim_around (u v w : jsstring) (c : ascii) :
  isWhiteSpace c = false ->
  trim (u ++ [semi] ++ v ++ [c] ++ w)
  = trimStart u ++ [semi] ++ v ++ [c] ++ trimEnd w.
Proof.
  intros Hc. unfold trim. simpl.
  rewrite trimStart_before by reflexivity.
  replace (trimStart u ++ semi :: v ++ c :: w)
    with ((trimStart u ++ semi :: v) ++ c :: w)
    by (now rewrite <- app_assoc).
  rewrite trimEnd_after by assumption.
  now rewrite <- app_assoc.
Qed.

(** *** The three rules *)

Lemma multi_iff (t : jsstring) :
  multi t = true
  <-> 1 < count_occ ascii_dec t semi
      \/ (count_occ ascii_dec t semi = 1 /\ ~ exists t', t = t' ++ [semi]).
Proof.
  unfold multi. rewrite split_count.
  rewrite orb_true_iff, andb_true_iff, Nat.ltb_lt, Nat.eqb_eq, negb_true_iff.
  rewrite <- endsWith_iff.
  destruct (endsWith semi t); intuition congruence.
Qed.

Lemma multi_inner_semicolon (x y : jsstring) :
  y <> [] -> multi (x ++ [semi] ++ y) = true.
Proof.
  intros Hy. apply multi_iff.
  rewrite !count_occ_app. simpl.
  destruct (ascii_dec semi semi) as [_|N]; [|congruence].
  destruct (count_occ ascii_dec y semi) as [|k] eqn:Ey.
  - destruct (count_occ ascii_dec x semi) as [|j]; [right | left; lia].
    split; [reflexivity|].
    rewrite <- endsWith_iff.
    change (x ++ semi :: y) with (x ++ [semi] ++ y). rewrite app_assoc.
    rewrite endsWith_app by assumption.
    intros E. apply endsWith_count in E. lia.
  - left. lia.
Qed.

Lemma checkDisallowed_keeps (sql : jsstring) (l : list Disallowed) :
  forall res,
    exists extra,
      res_issues (fold_left (checkDisallowed sql) l res) = res_issues res ++ extra
      /\ Forall (fun i => exists rx, i = str "Disallowed token: " ++ source rx) extra
      /\ res_ok (fold_left (checkDisallowed sql) l res)
         = res_ok res && match extra with [] => true | _ => false end.
Proof.
  induction l as [|rx l IH]; intros res; simpl.
  - exists []. rewrite app_nil_r, andb_true_r. repeat split. constructor.
  - destruct (IH (checkDisallowed sql res rx)) as (extra & Hi & Hf & Ho).
    unfold checkDisallowed in *. destruct (test rx sql).
    + exists ((str "Disallowed token: " ++ source rx) :: extra).
      rewrite Hi, Ho. simpl. rewrite <- app_assoc, andb_false_r.
      repeat split; eauto.
    + exists extra. repeat split; assumption.
Qed.

(** The issues of [syntaxScan], rule by rule. *)
Lemma syntaxScan_issues (sql : jsstring) :
  exists extra comment,
    issues (syntaxScan sql)
    = (if multi (trim sql) then [multipleStatements] else []) ++ extra ++ comment
    /\ Forall (fun i => exists rx, i = str "Disallowed token: " ++ source rx) extra
    /\ (comment = [] \/ comment = [str "Unclosed or unmatched block comment."])
    /\ ok (syntaxScan sql)
       = match issues (syntaxScan sql) with [] => true | _ => false end.
Proof.
  unfold syntaxScan. fold semi. fold (multi (trim sql)).
  set (res0 := {| res_ok := true; syntaxOk := true; res_issues := [] |}).
  set (res1 := if multi (trim sql) then fail res0 multipleStatements else res0).
  destruct (checkDisallowed_keeps sql DISALLOWED res1) as (extra & Hi & Hf & Ho).
  set (res2 := fold_left (checkDisallowed sql) DISALLOWED res1) in *.
  assert (H1 : res_issues res1
               = if multi (trim sql) then [multipleStatements] else [])
    by (subst res1; now destruct (multi (trim sql))).
  assert (H1o : res_ok res1 = negb (multi (trim sql)))
    by (subst res1; now destruct (multi (trim sql))).
  destruct (negb (_ =? _)); simpl.
  - exists extra, [str "Unclosed or unmatched block comment."].
    rewrite Hi, H1, <- app_assoc. repeat split; auto.
    destruct (multi (trim sql)); simpl; [reflexivity|].
    now destruct extra.
  - exists extra, []. rewrite Hi, Ho, H1, H1o, app_nil_r.
    repeat split; auto.
    destruct (multi (trim sql)); simpl; [reflexivity|]. now destruct extra.
Qed.

Lemma multipleStatements_reported (sql : jsstring) :
  In multipleStatements (issues (syntaxScan sql)) <-> multi (trim sql) = true.
Proof.
  destruct (syntaxScan_issues sql) as (extra & comment & Hi & Hf & Hc & _).
  rewrite Hi. rewrite !in_app_iff. split.
  - intros [H | [H | H]].
    + destruct (multi (trim sql)); [reflexivity | contradiction].
    + rewrite Forall_forall in Hf. destruct (Hf _ H) as (rx & E). discriminate E.
    + destruct Hc as [-> | ->]; [contradiction|].
      destruct H as [E | []]. discriminate E.
  - intros ->. left. now left.
Qed.

Lemma multipleStatements_not_ok (sql : jsstring) :
  multi (trim sql) = true -> ok (syntaxScan sql) = false.
Proof.
  intros H.
  destruct (syntaxScan_issues sql) as (extra & comment & Hi & _ & _ & Ho).
  rewrite Ho, Hi, H. reflexivity.
Qed.

(** A semicolon followed, somewhere, by a character that is not white
    space. *)
Lemma inner_semicolon_rejected (u v w : jsstring) (c : ascii) :
  isWhiteSpace c = false ->
  multi (trim (u ++ [semi] ++ v ++ [c] ++ w)) = true.
Proof.
  intros Hc. rewrite trim_around by assumption.
  apply multi_inner_semicolon. now destruct v.
Qed.

End SyntaxScanFacts.

Module SyntaxScanClaims.
Import SyntaxScan SyntaxScanFacts.

(** C1.  [syntaxScan] reports the multiple-statements issue, with [ok] false,
    exactly when the trimmed text holds more than one semicolon, or holds one
    that is not its last character; [SELECT 1; SELECT 2] is rejected with
    that issue and [SELECT 1;] is accepted. *)
Theorem multiple_statements_guard :
  (forall sql : jsstring,
      (In multipleStatements (issues (syntaxScan sql))
       /\ ok (syntaxScan sql) = false)
      <-> (1 < count_occ ascii_dec (trim sql) ";"%char
           \/ (count_occ ascii_dec (trim sql) ";"%char = 1
               /\ ~ exists t', trim sql = t' ++ [";"%char])))
  /\ syntaxScan (str "SELECT 1; SELECT 2")
     = {| ok := false; issues := [str "Multiple statements detected."] |}
  /\ syntaxScan (str "SELECT 1;") = {| ok := true; issues := [] |}.
Proof.
  split; [|split; reflexivity].
  intros sql. rewrite <- (multi_iff (trim sql)). split.
  - intros [H _]. now apply multipleStatements_reported.
  - intros H. split.
    + now apply multipleStatements_reported.
    + now apply multipleStatements_not_ok.
Qed.

(** C10.  The semicolons are counted in the raw trimmed text: one inside a
    single-quoted literal, or inside a block comment, counts like any other,
    so a query with a semicolon inside a closed literal is rejected as
    several statements; [SELECT 'a;b' FROM t] is. *)
Theorem semicolon_inside_literal_counts :
  (forall pre a b post : jsstring,
      let sql := pre ++ [squote] ++ a ++ [";"%char] ++ b ++ [squote] ++ post in
      ok (syntaxScan sql) = false
      /\ In (str "Multiple statements detected.") (issues (syntaxScan sql)))
  /\ (forall pre a b post : jsstring,
         let sql := pre ++ str "/*" ++ a ++ [";"%char] ++ b ++ str "*/" ++ post in
         ok (syntaxScan sql) = false
         /\ In (str "Multiple statements detected.") (issues (syntaxScan sql)))
  /\ syntaxScan (str "SELECT 'a;b' FROM t")
     = {| ok := false; issues := [str "Multiple statements detected."] |}.
Proof.
  split; [|split; [|reflexivity]].
  - intros pre a b post sql.
    assert (H : multi (trim sql) = true).
    { subst sql.
      replace (pre ++ [squote] ++ a ++ [";"%char] ++ b ++ [squote] ++ post)
        with ((pre ++ [squote] ++ a) ++ [semi] ++ b ++ [squote] ++ post)
        by (now rewrite <- !app_assoc).
      now apply inner_semicolon_rejected. }
    split.
    + now apply multipleStatements_not_ok.
    + now apply multipleStatements_reported.
  - intros pre a b post sql.
    assert (H : multi (trim sql) = true).
    { subst sql.
      replace (pre ++ str "/*" ++ a ++ [";"%char] ++ b ++ str "*/" ++ post)
        with ((pre ++ str "/*" ++ a) ++ [semi] ++ b ++ ["*"%char] ++ "/"%char :: post)
        by (now rewrite <- !app_assoc).
      now apply inner_semicolon_rejected. }
    split.
    + now apply multipleStatements_not_ok.
    + now apply multipleStatements_reported.
Qed.

End SyntaxScanClaims.

(* ================================================================== *)
(** * Facts about semanticCheck *)
(* ================================================================== *)

Module SemanticCheckFacts.
Import SemanticCheck JsFacts.

(** *** Maps *)

Lemma Map_get_In {V : Type} (m : JsMap V) (k : jsstring) (v : V) :
  Map_get m k = Some v -> In v (Map_values m).
Proof.
  unfold Map_get, Map_values.
  destruct (find _ m) as [[k' v']|] eqn:E; [|discriminate].
  intros [= <-]. apply find_some in E as [Hin _].
  now apply (in_map snd) in Hin.
Qed.

Lemma Map_get_has {V : Type} (m : JsMap V) (k : jsstring) (v : V) :
  Map_get m k = Some v -> Map_has m k = true.
Proof.
  unfold Map_get, Map_has.
  destruct (find _ m) as [kv|] eqn:E; [|discriminate].
  intros _. apply find_some in E as [Hin Hk].
  apply existsb_exists. eauto.
Qed.

(** *** The loops push at the end of [issues] *)

Lemma checkEntities_eq (registry : Registry) (selected : list jsstring) :
  forall issues,
    checkEntities registry selected issues
    = issues ++ map notLoaded (filter (missing registry) selected).
Proof.
  unfold checkEntities, missing.
  induction selected as [|e l IH]; intros issues; simpl.
  - now rewrite app_nil_r.
  - rewrite IH. destruct (negb (Map_has registry e)); simpl.
    + now rewrite <- app_assoc.
    + reflexivity.
Qed.

Lemma checkJoins_app (registry : Registry) (joins : list JoinEdge) :
  forall issues,
    checkJoins registry joins issues = issues ++ checkJoins registry joins [].
Proof.
  unfold checkJoins.
  induction joins as [|j l IH]; intros issues; simpl.
  - now rewrite app_nil_r.
  - rewrite IH. symmetry. rewrite IH. symmetry.
    destruct (negb (Map_has registry (from j))),
             (negb (Map_has registry (to j))); simpl;
      now rewrite <- ?app_assoc.
Qed.

Lemma checkDimensions_app (registry : Registry) (dims : list jsstring) :
  forall issues,
    checkDimensions registry dims issues
    = issues ++ checkDimensions registry dims [].
Proof.
  unfold checkDimensions.
  induction dims as [|d l IH]; intros issues; simpl.
  - now rewrite app_nil_r.
  - rewrite IH. symmetry. rewrite IH. symmetry.
    destruct (negb (existsInAnyEntity registry d true true)); simpl;
      now rewrite <- ?app_assoc.
Qed.

Lemma checkMetrics_app (registry : Registry) (metrics : list jsstring) :
  forall issues,
    checkMetrics registry metrics issues
    = issues ++ checkMetrics registry metrics [].
Proof.
  unfold checkMetrics.
  induction metrics as [|m l IH]; intros issues; simpl.
  - now rewrite app_nil_r.
  - rewrite IH. symmetry. rewrite IH. symmetry.
    destruct (negb (metricOrMeasureExists registry m)); simpl;
      now rewrite <- ?app_assoc.
Qed.

Lemma checkTimeRange_app (registry : Registry) (present : bool) issues :
  checkTimeRange registry present issues
  = issues ++ checkTimeRange registry present [].
Proof.
  unfold checkTimeRange. destruct present; [|now rewrite app_nil_r].
  destruct (negb _); [reflexivity | now rewrite app_nil_r].
Qed.

(** *** What the later loops push is told apart by its first character *)

Lemma laterIssue_not_notLoaded (i : jsstring) :
  laterIssue i -> forall e, i <> notLoaded e.
Proof.
  intros H e ->. unfold laterIssue, startsWith in H. simpl in H.
  intuition discriminate.
Qed.

Ltac solve_later :=
  repeat (apply Forall_cons || apply Forall_nil);
  unfold laterIssue, startsWith; simpl; auto.

Lemma checkJoins_later (registry : Registry) (joins : list JoinEdge) :
  Forall laterIssue (checkJoins registry joins []).
Proof.
  induction joins as [|j l IH]; [constructor|].
  change (checkJoins registry (j :: l) []) with (checkJoins registry l (checkJoins registry [j] [])).
  rewrite checkJoins_app. apply Forall_app. split; [|exact IH].
  unfold checkJoins. simpl.
  destruct (negb (Map_has registry (from j))),
           (negb (Map_has registry (to j))); simpl;
    solve_later.
Qed.

Lemma checkDimensions_later (registry : Registry) (dims : list jsstring) :
  Forall laterIssue (checkDimensions registry dims []).
Proof.
  induction dims as [|d l IH]; [constructor|].
  change (checkDimensions registry (d :: l) []) with (checkDimensions registry l (checkDimensions registry [d] [])).
  rewrite checkDimensions_app. apply Forall_app. split; [|exact IH].
  unfold checkDimensions. simpl.
  destruct (negb (existsInAnyEntity registry d true true)); simpl;
    solve_later.
Qed.

Lemma checkMetrics_later (registry : Registry) (metrics : list jsstring) :
  Forall laterIssue (checkMetrics registry metrics []).
Proof.
  induction metrics as [|m l IH]; [constructor|].
  change (checkMetrics registry (m :: l) []) with (checkMetrics registry l (checkMetrics registry [m] [])).
  rewrite checkMetrics_app. apply Forall_app. split; [|exact IH].
  unfold checkMetrics. simpl.
  destruct (negb (metricOrMeasureExists registry m)); simpl;
    solve_later.
Qed.

Lemma checkTimeRange_later (registry : Registry) (present : bool) :
  Forall laterIssue (checkTimeRange registry present []).
Proof.
  unfold checkTimeRange. destruct present; [|constructor].
  destruct (negb _); solve_later.
Qed.

Lemma semanticCheck_eq verify plan sql registry :
  legible (verify registry) ->
  semanticCheck verify plan sql registry
  = Returns {| ok := length (allIssues verify plan registry) =? 0;
               issues := allIssues verify plan registry;
               semanticOk := length (allIssues verify plan registry) =? 0 |}.
Proof.
  unfold semanticCheck, allIssues, laterIssues, legible.
  assert (E : forall start,
             checkTimeRange registry (timeRange (intent plan))
               (checkMetrics registry (orEmpty (intent_metrics (intent plan)))
                  (checkDimensions registry
                     (orEmpty (intent_dimensions (intent plan)))
                     (checkJoins registry (joinGraph plan)
                        (checkEntities registry (selectedEntities plan) start))))
             = start
               ++ map notLoaded (filter (missing registry) (selectedEntities plan))
               ++ checkJoins registry (joinGraph plan) []
               ++ checkDimensions registry
                    (orEmpty (intent_dimensions (intent plan))) []
               ++ checkMetrics registry (orEmpty (intent_metrics (intent plan))) []
               ++ checkTimeRange registry (timeRange (intent plan)) []).
  { intros start.
    rewrite checkTimeRange_app, checkMetrics_app, checkDimensions_app,
      checkJoins_app, checkEntities_eq.
    now rewrite <- !app_assoc. }
  destruct (verify registry) as [[]|e]; simpl.
  - intros _. rewrite E. reflexivity.
  - intros (text & ->). simpl. rewrite E. reflexivity.
Qed.

(** When the [catch] clause cannot read what the policy raised, the clause
    raises and so does [semanticCheck]. *)
Lemma semanticCheck_raises verify plan sql registry e err :
  verify registry = Raises e ->
  thrownText e = Raises err ->
  semanticCheck verify plan sql registry = Raises err.
Proof.
  intros Hv He. unfold semanticCheck. rewrite Hv. simpl. now rewrite He.
Qed.

Lemma returns_legible (verify : Registry -> Completion Thrown unit) registry :
  verify registry = Returns tt -> legible (verify registry).
Proof. intros ->. exact I. Qed.

Lemma returned_legible verify plan sql registry result :
  semanticCheck verify plan sql registry = Returns result ->
  legible (verify registry).
Proof.
  unfold semanticCheck, legible.
  destruct (verify registry) as [[]|e]; simpl; [auto|].
  destruct (thrownText e) as [text|err]; simpl; [eauto | discriminate].
Qed.

Lemma laterIssues_later plan registry :
  Forall laterIssue (laterIssues plan registry).
Proof.
  unfold laterIssues. repeat (apply Forall_app; split).
  - apply checkJoins_later.
  - apply checkDimensions_later.
  - apply checkMetrics_later.
  - apply checkTimeRange_later.
Qed.

Lemma length_zero_iff (l : list jsstring) : (length l =? 0) = true <-> l = [].
Proof. rewrite Nat.eqb_eq. apply length_zero_iff_nil. Qed.

End SemanticCheckFacts.

Module SemanticCheckClaims.
Import SemanticCheck JsFacts SemanticCheckFacts Samples.

(** C2.  The entity loop pushes one not-loaded issue for each entry of
    [selectedEntities] that is not a key of the registry, after what the
    policy check pushed and before anything the later loops push, none of
    which is a not-loaded issue.  For a plan that selects only [orders],
    without join edges, dimensions, metrics or time range, against a registry
    with the keys [customers] and [products] and a policy that does not
    raise, the result is that single issue and [ok] is false. *)
Theorem missing_entities_not_loaded :
  (forall verify plan sql registry,
      legible (verify registry) ->
      exists result later,
        semanticCheck verify plan sql registry = Returns result
        /\ issues result
           = policyIssues (verify registry)
             ++ map notLoaded
                  (filter (fun e => negb (Map_has registry e))
                          (selectedEntities plan))
             ++ later
        /\ (forall i e, In i later -> i <> notLoaded e))
  /\ (forall verify plan sql (c p : EntityJson),
         let registry := [(str "customers", c); (str "products", p)] in
         verify registry = Returns tt ->
         selectedEntities plan = [str "orders"] ->
         joinGraph plan = [] ->
         orEmpty (intent_dimensions (intent plan)) = [] ->
         orEmpty (intent_metrics (intent plan)) = [] ->
         timeRange (intent plan) = false ->
         semanticCheck verify plan sql registry
         = Returns {| ok := false;
                      issues := [notLoaded (str "orders")];
                      semanticOk := false |}).
Proof.
  split.
  - intros verify plan sql registry Hl.
    eexists. exists (laterIssues plan registry).
    split; [apply semanticCheck_eq; exact Hl|]. split; [reflexivity|].
    intros i e Hi. apply laterIssue_not_notLoaded.
    pose proof (laterIssues_later plan registry) as H.
    rewrite Forall_forall in H. now apply H.
  - intros verify plan sql c p registry Hv Hs Hj Hd Hm Ht.
    rewrite semanticCheck_eq by (now apply returns_legible).
    unfold allIssues, laterIssues.
    rewrite Hv, Hs, Hj, Hd, Hm, Ht. reflexivity.
Qed.

Lemma missing_entities_not_loaded_witness :
  semanticCheck allowAll ordersPlan (str "SELECT 1") shopRegistry
  = Returns {| ok := false;
               issues := [notLoaded (str "orders")];
               semanticOk := false |}
  /\ exists result,
      semanticCheck denyAll ordersPlan (str "SELECT 1") shopRegistry
      = Returns result
      /\ issues result
         = [str "Table not allowed"; notLoaded (str "orders")].
Proof.
  split.
  - apply (proj2 missing_entities_not_loaded
                 allowAll ordersPlan (str "SELECT 1")
                 customers (plainEntity (str "products")));
      reflexivity.
  - destruct (proj1 missing_entities_not_loaded
                    denyAll ordersPlan (str "SELECT 1") shopRegistry)
      as (result & later & Hr & Hi & _).
    + exists (str "Table not allowed"). reflexivity.
    + exists result. split; [exact Hr|].
      assert (R : semanticCheck denyAll ordersPlan (str "SELECT 1") shopRegistry
                  = Returns {| ok := false;
                               issues := [str "Table not allowed";
                                          notLoaded (str "orders")];
                               semanticOk := false |}) by reflexivity.
      rewrite R in Hr. injection Hr as <-. reflexivity.
Defined.

Lemma fieldIn_alias (ent : EntityJson) (alias canonical : jsstring) :
  Map_get (_reverseAliasIndex ent) alias = Some canonical ->
  canonical <> [] ->
  Set_has (_dimIndex ent) canonical = true ->
  fieldIn ent alias true true = true.
Proof.
  intros Ha Hc Hd. unfold fieldIn. simpl.
  destruct (Set_has (_dimIndex ent) alias); [reflexivity|].
  destruct (hasTimeDim ent alias); [reflexivity|].
  rewrite Ha. destruct canonical; [congruence|]. simpl. now rewrite Hd.
Qed.

Lemma checkEntities_loaded registry selected issues :
  (forall e, In e selected -> Map_has registry e = true) ->
  checkEntities registry selected issues = issues.
Proof.
  intros H. rewrite checkEntities_eq.
  replace (filter (missing registry) selected) with (@nil jsstring).
  - apply app_nil_r.
  - symmetry. induction selected as [|e l IH]; [reflexivity|].
    simpl. unfold missing at 1. rewrite (H e) by now left.
    simpl. apply IH. intros e' He'. apply H. now right.
Qed.

Lemma checkJoins_present registry joins :
  (forall j, In j joins ->
             Map_has registry (from j) = true /\ Map_has registry (to j) = true) ->
  checkJoins registry joins [] = [].
Proof.
  induction joins as [|j l IH]; intros H; [reflexivity|].
  unfold checkJoins. simpl.
  destruct (H j) as [-> ->]; [now left|]. simpl.
  apply IH. intros j' Hj'. apply H. now right.
Qed.

Lemma checkDimensions_found registry dims :
  (forall d, In d dims -> existsInAnyEntity registry d true true = true) ->
  checkDimensions registry dims [] = [].
Proof.
  induction dims as [|d l IH]; intros H; [reflexivity|].
  unfold checkDimensions. simpl. rewrite (H d) by now left. simpl.
  apply IH. intros d' Hd'. apply H. now right.
Qed.

Lemma checkMetrics_found registry metrics :
  (forall m, In m metrics -> metricOrMeasureExists registry m = true) ->
  checkMetrics registry metrics [] = [].
Proof.
  induction metrics as [|m l IH]; intros H; [reflexivity|].
  unfold checkMetrics. simpl. rewrite (H m) by now left. simpl.
  apply IH. intros m' Hm'. apply H. now right.
Qed.

Lemma existsInAnyEntity_alias (registry : Registry) (alias : jsstring) :
  Notions.registeredAlias registry alias ->
  existsInAnyEntity registry alias true true = true.
Proof.
  intros (Hdot & ent & canonical & Hin & Ha & Hc & Hd).
  unfold existsInAnyEntity.
  assert (Hi : includes "."%char alias = false).
  { unfold includes. destruct (existsb (Ascii.eqb "."%char) alias) eqn:E;
      [|reflexivity].
    apply existsb_exists in E as (x & Hx & Ex). apply Ascii.eqb_eq in Ex.
    subst x. contradiction. }
  rewrite Hi. apply existsb_exists. exists ent. split; [assumption|].
  unfold fieldIn. simpl.
  destruct (Set_has (_dimIndex ent) alias); [reflexivity|].
  destruct (hasTimeDim ent alias); [reflexivity|].
  rewrite Ha. destruct canonical; [congruence|]. simpl.
  destruct Hd as [-> | ->]; [reflexivity|].
  now destruct (Set_has (_dimIndex ent) (a :: canonical)).
Qed.

Lemma semanticCheck_passes verify plan sql registry :
  verify registry = Returns tt ->
  (forall e, In e (selectedEntities plan) -> Map_has registry e = true) ->
  (forall j, In j (joinGraph plan) ->
             Map_has registry (from j) = true
             /\ Map_has registry (to j) = true) ->
  (forall d, In d (orEmpty (intent_dimensions (intent plan))) ->
             existsInAnyEntity registry d true true = true) ->
  (forall m, In m (orEmpty (intent_metrics (intent plan))) ->
             metricOrMeasureExists registry m = true) ->
  (timeRange (intent plan) = true ->
   exists e, In e (Map_values registry) /\ time_dimensions e <> []) ->
  semanticCheck verify plan sql registry
  = Returns {| ok := true; issues := []; semanticOk := true |}.
Proof.
  intros Hv Hs Hj Hd Hm Ht.
  rewrite semanticCheck_eq by (now apply returns_legible).
  unfold allIssues, laterIssues.
  rewrite Hv. cbn [policyIssues].
  replace (filter (missing registry) (selectedEntities plan)) with (@nil jsstring).
  2:{ pose proof (checkEntities_loaded registry (selectedEntities plan) [] Hs) as E.
      rewrite checkEntities_eq in E. simpl in E.
      destruct (filter _ _); [reflexivity | discriminate]. }
  rewrite checkJoins_present by assumption.
  rewrite checkDimensions_found by assumption.
  rewrite checkMetrics_found by assumption.
  assert (E : checkTimeRange registry (timeRange (intent plan)) [] = []).
  { unfold checkTimeRange. destruct (timeRange (intent plan)); [|reflexivity].
    destruct (Ht eq_refl) as (e & He & Hne).
    assert (X : existsb (fun ent0 => 0 <? length (time_dimensions ent0))
                        (Map_values registry) = true).
    { apply existsb_exists. exists e. split; [assumption|].
      destruct (time_dimensions e); [congruence | reflexivity]. }
    now rewrite X. }
  rewrite E. reflexivity.
Qed.

(** C6.  A bare dimension reference that is a registered alias resolves:
    when the reverse alias index of some entity of the registry sends it to
    a canonical name the entity has as a dimension or time dimension,
    [existsInAnyEntity] finds it, and a plan whose dimensions are all such
    aliases, the rest of it resolvable and the policy not raising, passes
    with no issue.  So it is with an entity [customers] whose dimension
    index holds [country] and whose reverse alias index sends [region] to
    [country], for a plan whose dimensions are the one reference
    [region]. *)
Theorem alias_dimension_resolves :
  (forall (registry : Registry) (alias : jsstring),
      Notions.registeredAlias registry alias ->
      existsInAnyEntity registry alias true true = true)
  /\ (forall verify plan sql registry,
         verify registry = Returns tt ->
         (forall d, In d (orEmpty (intent_dimensions (intent plan))) ->
                    Notions.registeredAlias registry d) ->
         (forall e, In e (selectedEntities plan) -> Map_has registry e = true) ->
         (forall j, In j (joinGraph plan) ->
                    Map_has registry (from j) = true
                    /\ Map_has registry (to j) = true) ->
         (forall m, In m (orEmpty (intent_metrics (intent plan))) ->
                    metricOrMeasureExists registry m = true) ->
         (timeRange (intent plan) = true ->
          exists e, In e (Map_values registry) /\ time_dimensions e <> []) ->
         semanticCheck verify plan sql registry
         = Returns {| ok := true; issues := []; semanticOk := true |})
  /\ (forall verify plan sql registry (ent : EntityJson),
         verify registry = Returns tt ->
         Map_get registry (str "customers") = Some ent ->
         Set_has (_dimIndex ent) (str "country") = true ->
         Map_get (_reverseAliasIndex ent) (str "region") = Some (str "country") ->
         intent_dimensions (intent plan) = Some [str "region"] ->
         (forall e, In e (selectedEntities plan) -> Map_has registry e = true) ->
         (forall j, In j (joinGraph plan) ->
                    Map_has registry (from j) = true
                    /\ Map_has registry (to j) = true) ->
         (forall m, In m (orEmpty (intent_metrics (intent plan))) ->
                    metricOrMeasureExists registry m = true) ->
         (timeRange (intent plan) = true ->
          exists e, In e (Map_values registry) /\ time_dimensions e <> []) ->
         existsInAnyEntity registry (str "region") true true = true
         /\ semanticCheck verify plan sql registry
            = Returns {| ok := true; issues := []; semanticOk := true |}).
Proof.
  split; [exact existsInAnyEntity_alias|]. split.
  - intros verify plan sql registry Hv Hd Hs Hj Hm Ht.
    apply semanticCheck_passes; auto.
    intros d Hin. apply existsInAnyEntity_alias. auto.
  - intros verify plan sql registry ent Hv Hc Hd Ha Hp Hs Hj Hm Ht.
    assert (Hr : Notions.registeredAlias registry (str "region")).
    { split.
      - intros H. simpl in H.
        repeat (destruct H as [H | H]; [discriminate H|]). exact H.
      - exists ent, (str "country"). repeat split.
        + eapply Map_get_In; eassumption.
        + assumption.
        + discriminate.
        + now left. }
    split; [now apply existsInAnyEntity_alias|].
    apply semanticCheck_passes; auto.
    rewrite Hp. intros d [<- | []]. now apply existsInAnyEntity_alias.
Qed.

Lemma alias_dimension_resolves_witness :
  existsInAnyEntity shopRegistry (str "region") true true = true
  /\ semanticCheck allowAll regionPlan (str "SELECT country FROM customers")
                   shopRegistry
     = Returns {| ok := true; issues := []; semanticOk := true |}.
Proof.
  apply (proj2 (proj2 alias_dimension_resolves)
               allowAll regionPlan (str "SELECT country FROM customers")
               shopRegistry customers).
  - reflexivity.
  - reflexivity.
  - reflexivity.
  - reflexivity.
  - reflexivity.
  - intros e [<- | []]. reflexivity.
  - intros j [].
  - intros m [].
  - discriminate.
Defined.

(** C7.  [semanticCheck] does raise: when the policy throws null or
    undefined, the [catch] clause reads the message of what it caught and
    that raises a TypeError, which leaves [semanticCheck]; it is so for
    every plan, SQL text and registry.  For every policy that returns, or
    raises a value the clause can read, [semanticCheck] returns: the text of
    what was raised is the first issue, the checks that follow still run,
    and [ok] and [semanticOk] are true exactly when there is no issue. *)
Theorem semanticCheck_raises_on_thrown_null :
  (forall plan sql registry,
      semanticCheck throwNull plan sql registry = Raises MessageOfNullish)
  /\ (forall verify plan sql registry,
         legible (verify registry) ->
         exists result,
           semanticCheck verify plan sql registry = Returns result
           /\ (forall e text,
                  verify registry = Raises e -> thrownText e = Returns text ->
                  issues result
                  = text
                    :: map notLoaded
                         (filter (fun e => negb (Map_has registry e))
                                 (selectedEntities plan))
                    ++ laterIssues plan registry)
           /\ (verify registry = Returns tt ->
               issues result
               = map notLoaded
                   (filter (fun e => negb (Map_has registry e))
                           (selectedEntities plan))
                 ++ laterIssues plan registry)
           /\ (ok result = true <-> issues result = [])
           /\ (semanticOk result = true <-> issues result = [])).
Proof.
  split.
  - intros plan sql registry.
    apply (semanticCheck_raises throwNull plan sql registry ThrownNullish);
      reflexivity.
  - intros verify plan sql registry Hl. eexists.
    split; [apply semanticCheck_eq; exact Hl|]. simpl.
    split; [|split; [|split; apply length_zero_iff]].
    + intros e text He Ht. unfold allIssues. rewrite He. simpl.
      now rewrite Ht.
    + intros Hv. unfold allIssues. rewrite Hv. reflexivity.
Qed.

Lemma semanticCheck_raises_on_thrown_null_witness :
  semanticCheck throwNull regionPlan (str "SELECT 1") shopRegistry
  = Raises MessageOfNullish
  /\ exists result,
      semanticCheck denyAll regionPlan (str "SELECT 1") shopRegistry
      = Returns result
      /\ issues result = [str "Table not allowed"]
      /\ ok result = false.
Proof.
  split.
  - apply (proj1 semanticCheck_raises_on_thrown_null).
  - destruct (proj2 semanticCheck_raises_on_thrown_null
                    denyAll regionPlan (str "SELECT 1") shopRegistry)
      as (result & Hr & He & _ & Hok & _).
    + exists (str "Table not allowed"). reflexivity.
    + exists result. split; [exact Hr|].
      specialize (He denied (str "Table not allowed") eq_refl eq_refl).
      change (issues result = [str "Table not allowed"]) in He.
      split; [exact He|].
      destruct (ok result); [|reflexivity].
      destruct Hok as [Hok _]. rewrite (Hok eq_refl) in He. discriminate He.
Defined.

End SemanticCheckClaims.

(* ================================================================== *)
(** * Facts about the error classifiers *)
(* ================================================================== *)

Module ErrorsFacts.
Import Errors JsFacts SpecWords.

(** *** Insertion-ordered sets keep first occurrences *)

Lemma filter_filter {A : Type} (f g : A -> bool) (l : list A) :
  filter f (filter g l) = filter (fun x => g x && f x) l.
Proof.
  induction l as [|a l IH]; simpl; [reflexivity|].
  destruct (g a); simpl; [destruct (f a)|]; now rewrite IH.
Qed.

Lemma Set_add_all_eq (xs : list jsstring) :
  forall acc,
    fold_left Set_add xs acc
    = acc ++ filter (fun y => negb (Set_has acc y)) (dedupFirstSeen xs).
Proof.
  induction xs as [|x xs IH]; intros acc; simpl.
  - now rewrite app_nil_r.
  - rewrite IH. unfold Set_add. destruct (Set_has acc x) eqn:E; simpl.
    + f_equal. rewrite filter_filter. apply filter_ext. intros y.
      destruct (streq y x) eqn:Eyx; simpl; [|reflexivity].
      apply streq_eq in Eyx. subst y. now rewrite E.
    + rewrite <- app_assoc. simpl. f_equal. f_equal.
      rewrite filter_filter. apply filter_ext. intros y.
      unfold Set_has. rewrite existsb_app. simpl.
      rewrite orb_false_r, negb_orb. apply andb_comm.
Qed.

Lemma Set_from_dedup (xs : list jsstring) : Set_from xs = dedupFirstSeen xs.
Proof.
  unfold Set_from. rewrite Set_add_all_eq. simpl.
  induction (dedupFirstSeen xs) as [|y l IH]; simpl; [reflexivity|].
  now rewrite IH.
Qed.

Lemma dedupFirstSeen_In (xs : list jsstring) (x : jsstring) :
  In x (dedupFirstSeen xs) <-> In x xs.
Proof.
  induction xs as [|y xs IH]; simpl; [tauto|].
  rewrite filter_In, IH, negb_true_iff.
  destruct (streq x y) eqn:E.
  - apply streq_eq in E. subst. intuition congruence.
  - assert (x <> y) by (intros ->; rewrite streq_refl in E; discriminate).
    intuition congruence.
Qed.

Lemma dedupFirstSeen_NoDup (xs : list jsstring) : NoDup (dedupFirstSeen xs).
Proof.
  induction xs as [|y xs IH]; simpl; constructor.
  - rewrite filter_In, negb_true_iff, streq_refl. intros [_ H]. discriminate.
  - now apply NoDup_filter.
Qed.

(** *** Patterns *)

Lemma span_split (p : ascii -> bool) (s : jsstring) :
  forall run rest,
    span p s = (run, rest) ->
    s = run ++ rest
    /\ forallb p run = true
    /\ match rest with c :: _ => p c = false | [] => True end.
Proof.
  induction s as [|c s IH]; intros run rest; simpl.
  - intros [= <- <-]. auto.
  - destruct (p c) eqn:E.
    + destruct (span p s) as [run' rest']. intros [= <- <-].
      destruct (IH _ _ eq_refl) as (-> & Hr & Hh). simpl. rewrite E. auto.
    + intros [= <- <-]. simpl. auto.
Qed.

Lemma span_local (p : ascii -> bool) (run : jsstring) (c : ascii) (x : jsstring) :
  forallb p run = true -> p c = false ->
  span p (run ++ c :: x) = (run, c :: x).
Proof.
  intros Hr Hc. induction run as [|a run IH]; simpl.
  - now rewrite Hc.
  - simpl in Hr. apply andb_true_iff in Hr as [Ha Hr].
    now rewrite Ha, IH.
Qed.

Lemma literal_split (lit : jsstring) :
  forall s t r,
    literal lit s = Some (t, r) ->
    s = t ++ r /\ forall x, literal lit (t ++ x) = Some (t, x).
Proof.
  induction lit as [|p lit IH]; intros s t r; simpl.
  - intros [= <- <-]. auto.
  - destruct s as [|c s]; [discriminate|].
    destruct (ci_eqb p c) eqn:E; [|discriminate].
    destruct (literal lit s) as [[t' r']|] eqn:L; [|discriminate].
    intros [= <- <-]. destruct (IH _ _ _ L) as [-> Hx].
    split; [reflexivity|]. intros x. simpl. now rewrite E, Hx.
Qed.

Lemma literal_prefix (a b : jsstring) :
  forall s t r,
    literal (a ++ b) s = Some (t, r) -> exists t' r', literal a s = Some (t', r').
Proof.
  induction a as [|p a IH]; intros s t r; simpl.
  - eauto.
  - destruct s as [|c s]; [discriminate|].
    destruct (ci_eqb p c); [|discriminate].
    destruct (literal (a ++ b) s) as [[t' r']|] eqn:L; [|discriminate].
    intros _. destruct (IH _ _ _ L) as (t1 & r1 & ->). eauto.
Qed.

(** What a match of [quotedAfter] is made of. *)
Lemma quotedAfter_parts (lit s : jsstring) (m : Match) :
  quotedAfter lit s = Some m ->
  s = text m ++ rest m
  /\ group1 m <> []
  /\ forallb (fun c => negb (isQuote c)) (group1 m) = true
  /\ exists kw ws q q',
      text m = kw ++ ws ++ [q] ++ group1 m ++ [q']
      /\ (forall x, literal lit (kw ++ x) = Some (kw, x))
      /\ forallb isWhiteSpace ws = true
      /\ isQuote q = true /\ isQuote q' = true.
Proof.
  unfold quotedAfter.
  destruct (literal lit s) as [[kw r]|] eqn:L; [|discriminate].
  destruct (span isWhiteSpace r) as [ws r1] eqn:W.
  destruct r1 as [|q r2]; [discriminate|].
  destruct (isQuote q) eqn:Q; [|discriminate].
  destruct (span (fun c => negb (isQuote c)) r2) as [captured r3] eqn:C.
  destruct captured as [|c0 cap]; [discriminate|].
  destruct r3 as [|q' r4]; [discriminate|].
  intros [= <-]. simpl.
  destruct (literal_split _ _ _ _ L) as [-> Hl].
  destruct (span_split _ _ _ _ W) as (-> & Hws & _).
  destruct (span_split _ _ _ _ C) as (-> & Hcap & Hq').
  apply negb_false_iff in Hq'.
  split; [repeat (rewrite <- app_assoc; simpl); reflexivity|].
  split; [discriminate|]. split; [exact Hcap|].
  exists kw, ws, q, q'. repeat split; auto.
Qed.

(** Matching the text of a match again finds the same capture group. *)
Lemma quotedAfter_again (lit s : jsstring) (m : Match) :
  quotedAfter lit s = Some m ->
  quotedAfter lit (text m)
  = Some {| text := text m; group1 := group1 m; rest := [] |}.
Proof.
  intros H.
  destruct (quotedAfter_parts _ _ _ H)
    as (_ & Hne & Hcap & kw & ws & q & q' & Ht & Hl & Hws & Hq & Hq').
  rewrite Ht at 1. unfold quotedAfter. rewrite Hl. simpl.
  rewrite span_local; [|assumption|].
  2:{ destruct q as [[] [] [] [] [] [] [] []]; try discriminate Hq; reflexivity. }
  rewrite Hq.
  rewrite span_local; [|assumption | now rewrite Hq'].
  destruct (group1 m) as [|c0 cap] eqn:G; [congruence|].
  now rewrite Ht.
Qed.

Lemma search_head {A : Type} (f : jsstring -> option A) (s : jsstring) (a : A) :
  f s = Some a -> search f s = Some a.
Proof. intros H. destruct s; simpl; now rewrite H. Qed.

Lemma search_some {A : Type} (f : jsstring -> option A) (s : jsstring) (a : A) :
  search f s = Some a -> exists pre suf, s = pre ++ suf /\ f suf = Some a.
Proof.
  induction s as [|c s IH]; simpl.
  - destruct (f []) eqn:E; [|discriminate]. intros [= <-]. exists [], []. auto.
  - destruct (f (c :: s)) eqn:E.
    + intros [= <-]. exists [], (c :: s). auto.
    + intros H. destruct (IH H) as (pre & suf & -> & Hf).
      exists (c :: pre), suf. auto.
Qed.

Lemma test_suffix {A : Type} (f : jsstring -> option A) (pre suf : jsstring) (a : A) :
  f suf = Some a -> test f (pre ++ suf) = true.
Proof.
  intros H. unfold test.
  induction pre as [|c pre IH]; simpl.
  - now rewrite (search_head f suf a H).
  - destruct (f (c :: pre ++ suf)); [reflexivity | exact IH].
Qed.

Lemma matches_from_pattern (f : jsstring -> option Match) (fuel : nat) :
  forall s, Forall (fun m => exists x, f x = Some m) (matches fuel f s).
Proof.
  induction fuel as [|fuel IH]; intros s; simpl; [constructor|].
  destruct (f s) as [m|] eqn:E.
  - constructor; eauto.
  - destruct s; [constructor | apply IH].
Qed.

(** A match of [quotedAfter] is never empty, so the rounds [matchAll] allows
    are enough: more of them find the same matches. *)
Lemma quotedAfter_shorter (lit s : jsstring) (m : Match) :
  quotedAfter lit s = Some m -> length (rest m) < length s.
Proof.
  intros H.
  destruct (quotedAfter_parts _ _ _ H) as (Hs & _ & _ & kw & ws & q & q' & Ht & _).
  rewrite Hs, Ht. repeat (rewrite length_app; simpl). lia.
Qed.

Lemma matches_fuel (lit : jsstring) (fuel1 : nat) :
  forall fuel2 s,
    length s < fuel1 -> length s < fuel2 ->
    matches fuel1 (quotedAfter lit) s = matches fuel2 (quotedAfter lit) s.
Proof.
  induction fuel1 as [|fuel1 IH]; intros fuel2 s H1 H2; [lia|].
  destruct fuel2 as [|fuel2]; [lia|]. simpl.
  destruct (quotedAfter lit s) as [m|] eqn:E.
  - apply quotedAfter_shorter in E. f_equal. apply IH; lia.
  - destruct s as [|c s]; [reflexivity|]. simpl in H1, H2. apply IH; lia.
Qed.

Lemma matchAll_fuel (lit : jsstring) (fuel : nat) (s : jsstring) :
  length s < fuel ->
  matches fuel (quotedAfter lit) s = matchAll (quotedAfter lit) s.
Proof. intros H. apply matches_fuel; [assumption | lia]. Qed.

Lemma dotStar_over (next : jsstring -> bool) (run r : jsstring) :
  forallb (fun c => negb (isLineTerminator c)) run = true ->
  next r = true ->
  dotStar next (run ++ r) = true.
Proof.
  intros Hr Hn. induction run as [|c run IH]; simpl.
  - destruct r; simpl; [exact Hn | rewrite Hn; apply orb_true_r].
  - simpl in Hr. apply andb_true_iff in Hr as [Hc Hr].
    apply negb_true_iff in Hc. now rewrite Hc, IH.
Qed.

(** Where the second pattern matches with a name free of line terminators,
    the first one matches too. *)
Lemma columnNotFound_passes_test (s name : jsstring) :
  columnNotFound s = Some name ->
  forallb (fun c => negb (isLineTerminator c)) name = true ->
  name <> [] /\ columnAnyNotFound s = Some tt.
Proof.
  unfold columnNotFound, columnAnyNotFound.
  destruct (literal (str "column ") s) as [[kw r]|]; [|discriminate].
  destruct (span _ r) as [captured r'] eqn:C.
  destruct captured as [|c0 cap]; [discriminate|].
  destruct (literal (str " not found") r') as [nf|] eqn:L; [|discriminate].
  intros [= <-] Hn. split; [discriminate|].
  destruct (span_split _ _ _ _ C) as (-> & _ & _).
  rewrite dotStar_over; [reflexivity | assumption | now rewrite L].
Qed.

End ErrorsFacts.

Module ErrorsClaims.
Import Errors JsFacts SpecWords ErrorsFacts.

Lemma rematch_names (ms : list Match) :
  Forall (fun m => exists x, invalidIdentifier x = Some m) ms ->
  filter truthy
    (map (fun s => match search invalidIdentifier s with
                   | Some found => group1 found
                   | None => []
                   end)
         (map text ms))
  = map group1 ms.
Proof.
  induction 1 as [|m ms (x & Hx) _ IH]; simpl; [reflexivity|].
  rewrite (search_head invalidIdentifier (text m) _ (quotedAfter_again _ _ _ Hx)).
  simpl. destruct (quotedAfter_parts _ _ _ Hx) as (_ & Hne & _).
  destruct (group1 m) eqn:G; [congruence|]. simpl. now rewrite IH.
Qed.

(** C8, as amended.  When the message holds matches of the invalid
    identifier pattern, the result lists the names they capture, each once,
    in the order they are first seen; [invalid identifier 'FOO'] gives
    [FOO].  When it holds none and the pattern [column <name> not found]
    matches with a name free of line terminators, the result is that name
    with every quote character removed, those inside the name too. *)
Theorem column_not_found_names :
  (forall err : ErrValue,
      matchAll invalidIdentifier (errorText err) <> [] ->
      isColumnNotFound err
      = Some {| missingColumns :=
                  dedupFirstSeen
                    (map group1 (matchAll invalidIdentifier (errorText err))) |})
  /\ isColumnNotFound (ErrWithMessage (str "invalid identifier 'FOO'"))
     = Some {| missingColumns := [str "FOO"] |}
  /\ (forall (err : ErrValue) (name : jsstring),
         matchAll invalidIdentifier (errorText err) = [] ->
         search columnNotFound (errorText err) = Some name ->
         (forall c, In c name -> isLineTerminator c = false) ->
         isColumnNotFound err
         = Some {| missingColumns := [removeQuotes name] |}).
Proof.
  split; [|split; [reflexivity|]].
  - intros err Hne. unfold isColumnNotFound.
    destruct (matchAll invalidIdentifier (errorText err)) as [|m ms] eqn:E;
      [congruence|].
    change (map text (m :: ms)) with (text m :: map text ms).
    cbv iota. change (text m :: map text ms) with (map text (m :: ms)).
    rewrite rematch_names.
    + now rewrite Set_from_dedup.
    + rewrite <- E. apply matches_from_pattern.
  - intros err name Hnone Hs Hlt. unfold isColumnNotFound.
    rewrite Hnone. simpl.
    destruct (search_some _ _ _ Hs) as (pre & suf & Hmsg & Hsuf).
    assert (Hl : forallb (fun c => negb (isLineTerminator c)) name = true).
    { apply forallb_forall. intros c Hc. now rewrite (Hlt c Hc). }
    destruct (columnNotFound_passes_test _ _ Hsuf Hl) as [Hne Htest].
    rewrite Hmsg at 1. rewrite (test_suffix columnAnyNotFound pre suf tt Htest).
    rewrite Hs. destruct name; [congruence | reflexivity].
Qed.

Lemma column_not_found_names_witness :
  isColumnNotFound
    (ErrWithMessage (str "invalid identifier 'FOO' and invalid identifier 'BAR', then invalid identifier 'FOO'"))
  = Some {| missingColumns := [str "FOO"; str "BAR"] |}
  /\ isColumnNotFound (ErrOther (str "Error: column 'user_name' not found"))
     = Some {| missingColumns := [str "user_name"] |}.
Proof.
  split.
  - apply (proj1 column_not_found_names
                 (ErrWithMessage (str "invalid identifier 'FOO' and invalid identifier 'BAR', then invalid identifier 'FOO'"))).
    vm_compute. discriminate.
  - apply (proj2 (proj2 column_not_found_names)
                 (ErrOther (str "Error: column 'user_name' not found"))
                 (str "'user_name'")).
    + reflexivity.
    + reflexivity.
    + intros c Hc. simpl in Hc.
      repeat (destruct Hc as [<- | Hc]; [reflexivity|]). contradiction.
Defined.

(** C8 as stated fails: the quote inside the captured name goes too, where
    stripping the surrounding quotes would keep it. *)
Lemma inner_quote_of_column_name_removed :
  matchAll invalidIdentifier (str "column o'brien not found") = []
  /\ search columnNotFound (str "column o'brien not found")
     = Some (str "o'brien")
  /\ stripSurroundingQuotes (str "o'brien") = str "o'brien"
  /\ isColumnNotFound (ErrWithMessage (str "column o'brien not found"))
     = Some {| missingColumns := [str "obrien"] |}
  /\ isColumnNotFound (ErrWithMessage (str "column o'brien not found"))
     <> Some {| missingColumns := [stripSurroundingQuotes (str "o'brien")] |}.
Proof.
  repeat split; try reflexivity. vm_compute. discriminate.
Qed.

Lemma mentions_no_such_column (msg : jsstring) (found : Match) :
  search noSuchColumn msg = Some found ->
  mentions (str "no such column") msg = true.
Proof.
  intros H. destruct (search_some _ _ _ H) as (pre & suf & -> & Hs).
  unfold noSuchColumn, quotedAfter in Hs.
  destruct (literal (str "no such column:") suf) as [[t r]|] eqn:L;
    [|discriminate].
  destruct (literal_prefix (str "no such column") (str ":") _ _ _ L)
    as (t' & r' & L').
  unfold mentions. eapply test_suffix. exact L'.
Qed.

(** C9, as amended.  For a message in which the no-such-column pattern
    captures a quoted name, and which meets neither of the two other
    conditions, the hint is returned exactly when the first character of the
    name is equal to its own upper case and the name is not made of capitals
    and underscores only; a name that starts with an uppercase letter and is
    not made of capitals and underscores only gets the hint. *)
Theorem no_such_column_hint :
  forall (err : ErrValue) (found : Match),
    search noSuchColumn (errorText err) = Some found ->
    mentions (str "unrecognized token") (errorText err)
    && includes dquote (errorText err) = false ->
    (mentions (str "syntax error") (errorText err)
     || mentions (str "near") (errorText err))
    && includes dquote (errorText err) = false ->
    (isQuoteSyntaxError err = Some (singleQuotesHint (errorText err))
     <-> exists c tail,
          group1 found = c :: tail
          /\ upperCaseFixed c = true
          /\ allCapsUnderscore (group1 found) = false)
    /\ (isQuoteSyntaxError err = Some (singleQuotesHint (errorText err))
        \/ isQuoteSyntaxError err = None)
    /\ (startsWithUppercaseLetter (group1 found) = true ->
        allCapsUnderscore (group1 found) = false ->
        isQuoteSyntaxError err = Some (singleQuotesHint (errorText err))).
Proof.
  intros err found Hs Ha Hc.
  assert (E : isQuoteSyntaxError err
              = if looksLikeLiteral (group1 found)
                then Some (singleQuotesHint (errorText err)) else None).
  { unfold isQuoteSyntaxError.
    rewrite Ha, (mentions_no_such_column _ _ Hs), Hs, Hc. reflexivity. }
  rewrite E. unfold looksLikeLiteral.
  destruct (group1 found) as [|c tail] eqn:G.
  - split; [|split].
    + split; [discriminate | intros (c & tail & [=] & _)].
    + now right.
    + discriminate.
  - split; [|split].
    + destruct (upperCaseFixed c) eqn:U, (allCapsUnderscore (c :: tail)) eqn:A;
        simpl; split; try discriminate; eauto;
        intros (c' & tail' & [= <- <-] & U' & A'); congruence.
    + destruct (upperCaseFixed c && negb (allCapsUnderscore (c :: tail)));
        auto.
    + simpl. intros Hu ->.
      assert (U : upperCaseFixed c = true).
      { unfold hasLower, upperCaseFixed, hasUpper, isAsciiUpper, isAsciiLower,
          between in *.
        destruct c as [[] [] [] [] [] [] [] []]; try discriminate Hu; reflexivity. }
      now rewrite U.
Qed.

Lemma no_such_column_hint_witness :
  isQuoteSyntaxError (ErrWithMessage (str "no such column: 'Technology'"))
  = Some (singleQuotesHint (str "no such column: 'Technology'")).
Proof.
  apply (no_such_column_hint
           (ErrWithMessage (str "no such column: 'Technology'"))
           {| text := str "no such column: 'Technology'";
              group1 := str "Technology"; rest := [] |});
    reflexivity.
Defined.

(** C9 as stated fails: a name that starts with a digit is no uppercase
    letter, and it gets the hint. *)
Lemma digit_first_name_gets_hint :
  option_map group1 (search noSuchColumn (str "no such column: '2024-Q1'"))
  = Some (str "2024-Q1")
  /\ mentions (str "unrecognized token") (str "no such column: '2024-Q1'") = false
  /\ mentions (str "syntax error") (str "no such column: '2024-Q1'") = false
  /\ mentions (str "near") (str "no such column: '2024-Q1'") = false
  /\ includes dquote (str "no such column: '2024-Q1'") = false
  /\ startsWithUppercaseLetter (str "2024-Q1") = false
  /\ isQuoteSyntaxError (ErrWithMessage (str "no such column: '2024-Q1'"))
     = Some (singleQuotesHint (str "no such column: '2024-Q1'")).
Proof. repeat split; reflexivity. Qed.

End ErrorsClaims.

(* ================================================================== *)
(** * Further properties of the quote normalizer *)
(* ================================================================== *)

Module NormalizeMoreFacts.
Import JsFacts NormalizeFacts ScanFacts TopLevelFacts Notions.

(** *** Inputs the main loop leaves as they are *)

Lemma norm_fixed (known : JsSet) :
  forall s,
    atTopLevel s = true ->
    forallb (isIdentifier known) (tokensOf s) = true ->
    norm known s = s.
Proof.
  intros s. remember (length s) as n eqn:Hn.
  revert s Hn. induction n as [n IH] using lt_wf_ind. intros s Hn Hc Ht.
  destruct s as [|ch s']; [reflexivity|].
  simpl in Hn.
  destruct (char_cases ch) as [-> | [-> | [Hs Hd]]].
  - destruct (singleQuoted squote s' []) as [[out rest] closed] eqn:E.
    rewrite (atTopLevel_squote _ _ _ _ E) in Hc.
    apply andb_true_iff in Hc as [-> Hc].
    rewrite (tokensOf_squote _ _ _ _ E) in Ht.
    rewrite (norm_squote known _ _ _ _ E).
    pose proof (singleQuoted_split _ _ _ _ _ E) as [Hp _].
    rewrite (IH (length rest)) with (s := rest); auto.
    + now rewrite Hp.
    + apply singleQuoted_length in E. lia.
  - destruct (doubleQuoted s' []) as [[tok rest] closed] eqn:E.
    rewrite (atTopLevel_dquote _ _ _ _ E) in Hc.
    apply andb_true_iff in Hc as [-> Hc].
    rewrite (tokensOf_dquote _ _ _ _ E) in Ht. simpl in Ht.
    apply andb_true_iff in Ht as [Hi Ht].
    pose proof (doubleQuoted_split _ _ _ _ E) as (_ & Hp & _).
    rewrite (norm_dquote known _ _ _ _ E).
    unfold emitToken. rewrite Hi.
    rewrite (IH (length rest)) with (s := rest); auto.
    + rewrite (Hp eq_refl). simpl. now rewrite <- app_assoc.
    + apply doubleQuoted_length in E. lia.
  - rewrite (atTopLevel_plain _ _ Hs Hd) in Hc.
    rewrite (tokensOf_plain _ _ Hs Hd) in Ht.
    rewrite norm_plain by assumption.
    rewrite (IH (length s')) with (s := s'); auto. lia.
Qed.

Lemma neq_eqb_false (c d : ascii) : c <> d -> Ascii.eqb c d = false.
Proof. intros H. now apply Ascii.eqb_neq. Qed.

Lemma norm_no_quotes (known : JsSet) (s : jsstring) :
  quoteFree s -> norm known s = s.
Proof.
  intros [Hs Hd]. induction s as [|c s IH]; [reflexivity|].
  rewrite norm_plain.
  - rewrite IH; [reflexivity | |]; intros H; [apply Hs | apply Hd]; now right.
  - apply neq_eqb_false. intros ->. apply Hs. now left.
  - apply neq_eqb_false. intros ->. apply Hd. now left.
Qed.

(** *** Single-quoted spans *)

Lemma last_cons_default (a : jsstring) :
  forall c prev, last (c :: a) prev = last a c.
Proof.
  induction a as [|x a IH]; intros c prev; [reflexivity|].
  change (last (c :: x :: a) prev) with (last (x :: a) prev).
  now rewrite (IH x prev), (IH x c).
Qed.

(** The loop walks over characters that are not single quotes. *)
Lemma singleQuoted_over (a t : jsstring) :
  forall prev,
    ~ In squote a ->
    singleQuoted prev (a ++ t) []
    = let '(out, rest, closed) := singleQuoted (last a prev) t [] in
      (a ++ out, rest, closed).
Proof.
  induction a as [|c a IH]; intros prev Hn.
  - simpl. now destruct (singleQuoted prev t []) as [[out rest] closed].
  - assert (Hc : Ascii.eqb c squote = false).
    { apply neq_eqb_false. intros ->. apply Hn. now left. }
    change ((c :: a) ++ t) with (c :: (a ++ t)).
    cbn [singleQuoted]. rewrite Hc. cbn [andb].
    rewrite singleQuoted_acc, IH by (intros H; apply Hn; now right).
    rewrite last_cons_default.
    now destruct (singleQuoted (last a c) t []) as [[out rest] closed].
Qed.

Lemma lastChar_last (s : jsstring) (d : ascii) :
  lastChar s = Some (last s d) \/ (s = [] /\ lastChar s = None).
Proof.
  unfold lastChar. destruct s as [|c s] using rev_ind; [now right|].
  left. rewrite rev_app_distr, last_last. reflexivity.
Qed.

Lemma singleQuoted_closes (body post : jsstring) :
  ~ In squote body ->
  lastChar body <> Some backslash ->
  singleQuoted squote (body ++ squote :: post) []
  = (body ++ [squote], post, true).
Proof.
  intros Hn Hl. rewrite singleQuoted_over by assumption.
  cbn [singleQuoted]. rewrite Ascii.eqb_refl.
  assert (E : Ascii.eqb (last body squote) backslash = false).
  { apply neq_eqb_false. intros E.
    destruct (lastChar_last body squote) as [H | [-> _]].
    - rewrite E in H. contradiction.
    - discriminate E. }
  now rewrite E.
Qed.

Lemma singleQuoted_escaped (a b post : jsstring) :
  ~ In squote a -> ~ In squote b ->
  lastChar b <> Some backslash ->
  singleQuoted squote (a ++ [backslash; squote] ++ b ++ squote :: post) []
  = (a ++ [backslash; squote] ++ b ++ [squote], post, true).
Proof.
  intros Ha Hb Hl. rewrite singleQuoted_over by assumption.
  cbn [app singleQuoted].
  change (Ascii.eqb backslash squote) with false. cbn [andb].
  rewrite Ascii.eqb_refl. cbn [negb andb].
  rewrite singleQuoted_acc, singleQuoted_acc.
  rewrite singleQuoted_closes by assumption. reflexivity.
Qed.

(** *** Only the quote characters change *)

Lemma withoutQuotes_app (a b : jsstring) :
  withoutQuotes (a ++ b) = withoutQuotes a ++ withoutQuotes b.
Proof. apply filter_app. Qed.

Lemma withoutQuotes_escapeQuotes (tok : jsstring) :
  withoutQuotes (escapeQuotes tok) = withoutQuotes tok.
Proof.
  induction tok as [|c tok IH]; [reflexivity|].
  unfold escapeQuotes in *. cbn [flat_map].
  rewrite withoutQuotes_app, IH.
  destruct (Ascii.eqb c squote) eqn:E.
  - apply Ascii.eqb_eq in E. subst c. reflexivity.
  - unfold withoutQuotes. simpl. now destruct (negb (Errors.isQuote c)).
Qed.

Lemma withoutQuotes_emitToken (known : JsSet) (tok : jsstring) :
  withoutQuotes (emitToken known tok) = withoutQuotes tok.
Proof.
  unfold emitToken. destruct (isIdentifier known tok).
  - rewrite !withoutQuotes_app. simpl. apply app_nil_r.
  - rewrite !withoutQuotes_app, withoutQuotes_escapeQuotes. simpl.
    apply app_nil_r.
Qed.

Lemma norm_withoutQuotes (known : JsSet) :
  forall s, withoutQuotes (norm known s) = withoutQuotes s.
Proof.
  intros s. remember (length s) as n eqn:Hn.
  revert s Hn. induction n as [n IH] using lt_wf_ind. intros s Hn.
  destruct s as [|ch s']; [reflexivity|].
  simpl in Hn.
  destruct (char_cases ch) as [-> | [-> | [Hs Hd]]].
  - destruct (singleQuoted squote s' []) as [[out rest] closed] eqn:E.
    rewrite (norm_squote known _ _ _ _ E).
    pose proof (singleQuoted_split _ _ _ _ _ E) as [Hp _].
    pose proof (singleQuoted_length _ _ _ _ _ E) as Hl.
    rewrite Hp.
    change (squote :: out ++ norm known rest)
      with ([squote] ++ out ++ norm known rest).
    change (squote :: out ++ rest) with ([squote] ++ out ++ rest).
    rewrite !withoutQuotes_app.
    rewrite (IH (length rest)) with (s := rest); auto. lia.
  - destruct (doubleQuoted s' []) as [[tok rest] closed] eqn:E.
    rewrite (norm_dquote known _ _ _ _ E).
    pose proof (doubleQuoted_split _ _ _ _ E) as (_ & Hc & Ho).
    pose proof (doubleQuoted_length _ _ _ _ E) as Hl.
    rewrite withoutQuotes_app, withoutQuotes_emitToken.
    rewrite (IH (length rest)) with (s := rest); [|lia|reflexivity].
    destruct closed.
    + rewrite (Hc eq_refl).
      change (dquote :: tok ++ dquote :: rest)
        with ([dquote] ++ tok ++ [dquote] ++ rest).
      rewrite !withoutQuotes_app. reflexivity.
    + destruct (Ho eq_refl) as [-> ->].
      change (dquote :: tok) with ([dquote] ++ tok).
      rewrite !withoutQuotes_app. simpl. now rewrite app_nil_r.
  - rewrite norm_plain by assumption.
    change (ch :: norm known s') with ([ch] ++ norm known s').
    change (ch :: s') with ([ch] ++ s').
    rewrite !withoutQuotes_app.
    rewrite (IH (length s')) with (s := s'); auto. lia.
Qed.

(** *** The keyword list *)

Lemma lowered_letter (c : ascii) :
  isAsciiLower (toLowerCaseChar c) = true ->
  isAsciiLower c || isAsciiUpper c = true.
Proof.
  destruct c as [[] [] [] [] [] [] [] []]; intros H;
    first [reflexivity | discriminate H].
Qed.

Lemma lowered_word (tok : jsstring) :
  forallb isAsciiLower (toLowerCase tok) = true ->
  forallb (fun c => isAsciiLower c || isAsciiUpper c) tok = true.
Proof.
  induction tok as [|c tok IH]; [reflexivity|]. simpl.
  intros H. apply andb_true_iff in H as [Hc Ht].
  now rewrite (lowered_letter _ Hc), IH.
Qed.

Lemma keywords_lower_letters :
  forallb (fun kw => match kw with [] => false | _ => forallb isAsciiLower kw end)
          sqlKeywords = true.
Proof. reflexivity. Qed.

Lemma keyword_has_identifier_shape (tok : jsstring) :
  Set_has sqlKeywords (toLowerCase tok) = true ->
  identifierPattern tok = true.
Proof.
  intros H. apply Set_has_In in H.
  pose proof keywords_lower_letters as K.
  rewrite forallb_forall in K. specialize (K _ H).
  destruct (toLowerCase tok) as [|k ks] eqn:E; [discriminate|].
  rewrite <- E in K. apply lowered_word in K.
  destruct tok as [|c tok]; [discriminate E|].
  simpl in K. apply andb_true_iff in K as [Kc Kt].
  unfold identifierPattern, identStart. rewrite Kc. simpl.
  rewrite forallb_forall in Kt. apply forallb_forall. intros x Hx.
  unfold identPart. specialize (Kt x Hx).
  apply orb_true_iff in Kt as [-> | ->]; [reflexivity|].
  now rewrite orb_true_r.
Qed.

End NormalizeMoreFacts.

Module NormalizeExtras.
Import JsFacts NormalizeFacts ScanFacts TopLevelFacts Notions Samples.
Import NormalizeMoreFacts.

Lemma absent (c : ascii) (s : jsstring) :
  existsb (Ascii.eqb c) s = false -> ~ In c s.
Proof.
  intros H Hin.
  assert (E : existsb (Ascii.eqb c) s = true).
  { apply existsb_exists. exists c. split; [assumption | apply Ascii.eqb_refl]. }
  congruence.
Qed.

(** X1.  SQL that is already correctly quoted comes back unchanged: when
    every quoted span of the input is closed and every double-quoted token
    is one the normalizer classifies as an identifier, the output is the
    input. *)
Theorem correctly_quoted_sql_unchanged :
  forall (sql : jsstring) (registry : Registry),
    atTopLevel sql = true ->
    Forall (fun token => isIdentifier (knownIdentifiers registry) token = true)
           (tokensOf sql) ->
    normalizeSQLiteQuotes sql registry = sql.
Proof.
  intros sql registry Hc Ht.
  apply (norm_fixed (knownIdentifiers registry) sql Hc).
  apply forallb_forall. rewrite Forall_forall in Ht. exact Ht.
Qed.

Lemma correctly_quoted_sql_unchanged_witness :
  normalizeSQLiteQuotes
    (str "SELECT " ++ dq (str "total amount") ++ str " FROM orders WHERE a = 'x;y'")
    ordersRegistry
  = str "SELECT " ++ dq (str "total amount") ++ str " FROM orders WHERE a = 'x;y'".
Proof.
  apply (correctly_quoted_sql_unchanged
           (str "SELECT " ++ dq (str "total amount")
                ++ str " FROM orders WHERE a = 'x;y'")
           ordersRegistry).
  - reflexivity.
  - apply Forall_forall, forallb_forall. reflexivity.
Defined.

(** X2.  A double quote that is never closed takes the rest of the input as
    its token, and the output closes it: the token comes out between two
    quotes, double ones for an identifier and single ones otherwise. *)
Theorem unterminated_double_quote_closed :
  forall (registry : Registry) (pre token : jsstring),
    atTopLevel pre = true ->
    ~ In dquote token ->
    normalizeSQLiteQuotes (pre ++ dquote :: token) registry
    = normalizeSQLiteQuotes pre registry
      ++ (if isIdentifier (knownIdentifiers registry) token
          then dq token else sq token).
Proof.
  intros registry pre token Hc Hn.
  change (norm (knownIdentifiers registry) (pre ++ dquote :: token)
          = norm (knownIdentifiers registry) pre
            ++ emitToken (knownIdentifiers registry) token).
  rewrite norm_app by assumption. f_equal.
  rewrite (norm_dquote _ _ _ _ _ (doubleQuoted_unterminated token Hn)).
  rewrite norm_nil. apply app_nil_r.
Qed.

Lemma unterminated_double_quote_closed_witness :
  normalizeSQLiteQuotes (str "SELECT " ++ dquote :: str "New York") ordersRegistry
  = str "SELECT 'New York'".
Proof.
  apply (unterminated_double_quote_closed
           ordersRegistry (str "SELECT ") (str "New York")).
  - reflexivity.
  - apply absent. reflexivity.
Defined.

(** X3.  A single-quoted literal read at the top level of the scan, with no
    single quote inside and no backslash as its last character, is copied as
    it stands, double quotes inside it included, and the scan goes on after
    its closing quote. *)
Theorem single_quoted_literal_verbatim :
  forall (registry : Registry) (pre body post : jsstring),
    atTopLevel pre = true ->
    ~ In squote body ->
    lastChar body <> Some backslash ->
    normalizeSQLiteQuotes (pre ++ [squote] ++ body ++ [squote] ++ post) registry
    = normalizeSQLiteQuotes pre registry
      ++ [squote] ++ body ++ [squote]
      ++ normalizeSQLiteQuotes post registry.
Proof.
  intros registry pre body post Hc Hn Hl.
  change (norm (knownIdentifiers registry)
               (pre ++ [squote] ++ body ++ [squote] ++ post)
          = norm (knownIdentifiers registry) pre
            ++ [squote] ++ body ++ [squote]
            ++ norm (knownIdentifiers registry) post).
  rewrite norm_app by assumption. f_equal.
  change ([squote] ++ body ++ [squote] ++ post)
    with (squote :: (body ++ squote :: post)).
  rewrite (norm_squote _ _ _ _ _ (singleQuoted_closes body post Hn Hl)).
  simpl. now rewrite <- app_assoc.
Qed.

Lemma single_quoted_literal_verbatim_witness :
  normalizeSQLiteQuotes
    (str "SELECT " ++ [squote] ++ (str "say " ++ dq (str "hello world"))
         ++ [squote] ++ str " AS greeting")
    ordersRegistry
  = str "SELECT " ++ [squote] ++ (str "say " ++ dq (str "hello world"))
        ++ [squote] ++ str " AS greeting".
Proof.
  apply (single_quoted_literal_verbatim
           ordersRegistry (str "SELECT ")
           (str "say " ++ dq (str "hello world")) (str " AS greeting")).
  - reflexivity.
  - apply absent. reflexivity.
  - discriminate.
Defined.

(** X4.  A single quote that follows a backslash does not close a literal:
    the literal runs on to the next single quote that no backslash
    precedes, and all of it is copied as it stands. *)
Theorem escaped_quote_stays_inside_literal :
  forall (registry : Registry) (pre a b post : jsstring),
    atTopLevel pre = true ->
    ~ In squote a -> ~ In squote b ->
    lastChar b <> Some backslash ->
    normalizeSQLiteQuotes
      (pre ++ [squote] ++ a ++ [backslash; squote] ++ b ++ [squote] ++ post)
      registry
    = normalizeSQLiteQuotes pre registry
      ++ [squote] ++ a ++ [backslash; squote] ++ b ++ [squote]
      ++ normalizeSQLiteQuotes post registry.
Proof.
  intros registry pre a b post Hc Ha Hb Hl.
  change (norm (knownIdentifiers registry)
               (pre ++ [squote] ++ a ++ [backslash; squote] ++ b
                    ++ [squote] ++ post)
          = norm (knownIdentifiers registry) pre
            ++ [squote] ++ a ++ [backslash; squote] ++ b ++ [squote]
            ++ norm (knownIdentifiers registry) post).
  rewrite norm_app by assumption. f_equal.
  change ([squote] ++ a ++ [backslash; squote] ++ b ++ [squote] ++ post)
    with (squote :: (a ++ [backslash; squote] ++ b ++ squote :: post)).
  rewrite (norm_squote _ _ _ _ _ (singleQuoted_escaped a b post Ha Hb Hl)).
  simpl. rewrite <- !app_assoc. simpl. now rewrite <- !app_assoc.
Qed.

Lemma escaped_quote_stays_inside_literal_witness :
  normalizeSQLiteQuotes
    (str "SELECT " ++ [squote] ++ str "it" ++ [backslash; squote]
         ++ (str "s " ++ dq (str "a b")) ++ [squote] ++ str " FROM t")
    ordersRegistry
  = str "SELECT " ++ [squote] ++ str "it" ++ [backslash; squote]
        ++ (str "s " ++ dq (str "a b")) ++ [squote] ++ str " FROM t".
Proof.
  apply (escaped_quote_stays_inside_literal
           ordersRegistry (str "SELECT ") (str "it")
           (str "s " ++ dq (str "a b")) (str " FROM t")).
  - reflexivity.
  - apply absent. reflexivity.
  - apply absent. reflexivity.
  - discriminate.
Defined.

(** X5.  Normalization changes quote characters only: with the single and
    double quotes taken out, the output and the input are the same text. *)
Theorem only_quote_characters_change :
  forall (sql : jsstring) (registry : Registry),
    withoutQuotes (normalizeSQLiteQuotes sql registry) = withoutQuotes sql.
Proof.
  intros sql registry. apply (norm_withoutQuotes (knownIdentifiers registry)).
Qed.

(** X6.  The keyword list never decides how a token is classified: a token
    whose lowercase form is one of the keywords has the lexical shape of an
    identifier, so a token is an identifier exactly when it is a known
    identifier, as it stands or lowercased, or has that shape. *)
Theorem keyword_list_never_decides :
  forall (known : JsSet) (token : jsstring),
    (Set_has sqlKeywords (toLowerCase token) = true ->
     identifierPattern token = true)
    /\ isIdentifier known token
       = Set_has known token
         || Set_has known (toLowerCase token)
         || identifierPattern token.
Proof.
  intros known token. split; [apply keyword_has_identifier_shape|].
  unfold isIdentifier.
  destruct (Set_has sqlKeywords (toLowerCase token)) eqn:K.
  - rewrite (keyword_has_identifier_shape _ K). now rewrite !orb_true_r.
  - now rewrite orb_false_r.
Qed.

Lemma keyword_list_never_decides_witness :
  identifierPattern (str "Select") = true.
Proof.
  apply (proj1 (keyword_list_never_decides [] (str "Select"))). reflexivity.
Defined.

End NormalizeExtras.

(* ================================================================== *)
(** * Further properties of syntaxScan *)
(* ================================================================== *)

Module SyntaxScanMoreFacts.
Import SyntaxScan SyntaxScanFacts Notions.

(** *** The issues, rule by rule *)

Lemma checkDisallowed_fold (sql : jsstring) (l : list Disallowed) :
  forall res,
    res_issues (fold_left (checkDisallowed sql) l res)
    = res_issues res
      ++ map disallowedIssue (filter (fun rx => test rx sql) l)
    /\ res_ok (fold_left (checkDisallowed sql) l res)
       = res_ok res
         && match filter (fun rx => test rx sql) l with
            | [] => true
            | _ :: _ => false
            end.
Proof.
  induction l as [|rx l IH]; intros res; simpl.
  - now rewrite app_nil_r, andb_true_r.
  - destruct (IH (checkDisallowed sql res rx)) as [Hi Ho].
    rewrite Hi, Ho. unfold checkDisallowed.
    destruct (test rx sql); simpl.
    + rewrite <- app_assoc. split; [reflexivity | now rewrite andb_false_r].
    + auto.
Qed.

Lemma syntaxScan_normal_form (sql : jsstring) :
  issues (syntaxScan sql)
  = multiPart sql
    ++ map disallowedIssue (filter (fun rx => test rx sql) DISALLOWED)
    ++ commentPart sql
  /\ ok (syntaxScan sql)
     = match issues (syntaxScan sql) with [] => true | _ :: _ => false end.
Proof.
  unfold syntaxScan, multiPart, commentPart. fold semi. fold (multi (trim sql)).
  set (res0 := {| res_ok := true; syntaxOk := true; res_issues := [] |}).
  set (res1 := if multi (trim sql) then fail res0 multipleStatements else res0).
  destruct (checkDisallowed_fold sql DISALLOWED res1) as [Hi Ho].
  set (res2 := fold_left (checkDisallowed sql) DISALLOWED res1) in *.
  assert (H1 : res_issues res1
               = if multi (trim sql) then [multipleStatements] else [])
    by (subst res1; now destruct (multi (trim sql))).
  assert (H1o : res_ok res1 = negb (multi (trim sql)))
    by (subst res1; now destruct (multi (trim sql))).
  destruct (negb (_ =? _)); cbn [ok issues fail res_issues res_ok].
  - rewrite Hi, H1, <- app_assoc. split; [reflexivity|].
    destruct (multi (trim sql)); [reflexivity|].
    now destruct (map _ _).
  - rewrite Hi, Ho, H1, H1o, app_nil_r. split; [reflexivity|].
    destruct (multi (trim sql)); [reflexivity|].
    now destruct (filter _ _).
Qed.

(** *** Whole words *)

Lemma canonical_upper_is_word (c : ascii) :
  isAsciiUpper (canonicalize c) = true -> isWordChar c = true.
Proof.
  destruct c as [[] [] [] [] [] [] [] []]; intros H;
    first [reflexivity | discriminate H].
Qed.

Lemma upper_canonical (p : ascii) :
  isAsciiUpper p = true -> canonicalize p = p.
Proof.
  destruct p as [[] [] [] [] [] [] [] []]; intros H;
    first [reflexivity | discriminate H].
Qed.

Lemma ci_eqb_iff (p c : ascii) :
  ci_eqb p c = true <-> canonicalize c = canonicalize p.
Proof.
  unfold ci_eqb. rewrite Ascii.eqb_eq. split; congruence.
Qed.

(** What [literalAt] reads. *)
Lemma literalAt_some (lit : jsstring) :
  forall before s last rest,
    literalAt lit before s = Some (last, rest) ->
    exists occ,
      s = occ ++ rest /\ sameLetters lit occ
      /\ last = match lastChar occ with Some c => Some c | None => before end.
Proof.
  induction lit as [|p lit IH]; intros before s last rest; simpl.
  - intros [= <- <-]. exists []. repeat split.
  - destruct s as [|c s]; [discriminate|].
    destruct (ci_eqb p c) eqn:E; [|discriminate].
    intros H. destruct (IH _ _ _ _ H) as (occ & -> & Hs & Hl).
    exists (c :: occ). split; [reflexivity|]. split.
    + unfold sameLetters in *. simpl. apply ci_eqb_iff in E. congruence.
    + rewrite Hl. unfold lastChar. simpl.
      destruct (rev occ) as [|x r]; reflexivity.
Qed.

Lemma literalAt_match (lit : jsstring) :
  forall before occ rest,
    sameLetters lit occ ->
    literalAt lit before (occ ++ rest)
    = Some (match lastChar occ with Some c => Some c | None => before end, rest).
Proof.
  unfold sameLetters.
  induction lit as [|p lit IH]; intros before occ rest Hs.
  - destruct occ; [reflexivity | discriminate].
  - destruct occ as [|c occ]; [discriminate|].
    simpl in Hs. injection Hs as Hc Hs.
    simpl. apply ci_eqb_iff in Hc. rewrite Hc, (IH (Some c) occ rest Hs).
    unfold lastChar. simpl. destruct (rev occ) as [|x r]; reflexivity.
Qed.

Lemma sameLetters_word (w occ : jsstring) :
  forallb isAsciiUpper w = true -> sameLetters w occ ->
  forallb isWordChar occ = true.
Proof.
  unfold sameLetters. revert occ.
  induction w as [|p w IH]; intros occ Hw Hs.
  - destruct occ; [reflexivity | discriminate].
  - destruct occ as [|c occ]; [discriminate|].
    simpl in *. apply andb_true_iff in Hw as [Hp Hw].
    injection Hs as Hc Hs.
    rewrite (IH occ Hw Hs), andb_true_r.
    apply canonical_upper_is_word. now rewrite Hc, (upper_canonical p Hp).
Qed.

Lemma sameLetters_length (w occ : jsstring) :
  sameLetters w occ -> length occ = length w.
Proof.
  unfold sameLetters. intros H.
  now rewrite <- (length_map canonicalize occ), H, length_map.
Qed.

Lemma lastChar_word (occ : jsstring) :
  occ <> [] -> forallb isWordChar occ = true ->
  exists c, lastChar occ = Some c /\ isWordChar c = true.
Proof.
  intros Hne Hw. unfold lastChar.
  destruct occ as [|x occ] using rev_ind; [congruence|].
  rewrite rev_app_distr. simpl. exists x. split; [reflexivity|].
  rewrite forallb_app in Hw. simpl in Hw.
  apply andb_true_iff in Hw as [_ Hx]. now rewrite andb_true_r in Hx.
Qed.

(** The pattern of a word in capitals, at one position. *)
Lemma disallowedAt_iff (rx : Disallowed) (before : option ascii) (s : jsstring) :
  capitals (word rx) ->
  disallowedAt rx before s = true
  <-> exists occ post,
      s = occ ++ post /\ sameLetters (word rx) occ
      /\ isWord before = false /\ isWord (hd_error post) = false.
Proof.
  intros [Hne Hup]. unfold disallowedAt. split.
  - intros H. apply andb_true_iff in H as [Hb H].
    destruct (literalAt (word rx) before s) as [[last rest]|] eqn:L;
      [|discriminate].
    destruct (literalAt_some _ _ _ _ _ L) as (occ & -> & Hs & Hl).
    pose proof (sameLetters_word _ _ Hup Hs) as Hw.
    assert (Hoc : occ <> []).
    { intros ->. apply sameLetters_length in Hs. destruct (word rx);
        [congruence | discriminate]. }
    destruct (lastChar_word occ Hoc Hw) as (c & Hlc & Hcw).
    rewrite Hlc in Hl. subst last.
    exists occ, rest. repeat split; auto.
    + unfold wordBoundary in Hb. destruct occ as [|x occ]; [congruence|].
      simpl in Hw, Hb. apply andb_true_iff in Hw as [Hx _].
      rewrite Hx in Hb. now destruct (isWord before).
    + unfold wordBoundary in H. simpl in H. rewrite Hcw in H.
      now destruct (isWord (hd_error rest)).
  - intros (occ & post & -> & Hs & Hb & Ha).
    pose proof (sameLetters_word _ _ Hup Hs) as Hw.
    assert (Hoc : occ <> []).
    { intros ->. apply sameLetters_length in Hs. destruct (word rx);
        [congruence | discriminate]. }
    destruct (lastChar_word occ Hoc Hw) as (c & Hlc & Hcw).
    rewrite (literalAt_match _ before occ post Hs), Hlc.
    unfold wordBoundary. simpl. rewrite Hb, Hcw, Ha.
    destruct occ as [|x occ]; [congruence|].
    simpl in Hw. apply andb_true_iff in Hw as [Hx _]. simpl. now rewrite Hx.
Qed.

Lemma lastChar_cons (c : ascii) (pre : jsstring) :
  lastChar (c :: pre)
  = match lastChar pre with Some x => Some x | None => Some c end.
Proof.
  unfold lastChar. simpl. destruct (rev pre) as [|x r]; reflexivity.
Qed.

Lemma lastChar_none (pre : jsstring) : lastChar pre = None -> pre = [].
Proof.
  unfold lastChar. intros H. destruct (rev pre) as [|x r] eqn:E; [|discriminate].
  rewrite <- (rev_involutive pre), E. reflexivity.
Qed.

Lemma testFrom_iff (rx : Disallowed) :
  capitals (word rx) ->
  forall s before,
    testFrom rx before s = true
    <-> exists pre occ post,
        s = pre ++ occ ++ post /\ sameLetters (word rx) occ
        /\ isWord (match lastChar pre with Some c => Some c | None => before end)
           = false
        /\ isWord (hd_error post) = false.
Proof.
  intros Hcap. induction s as [|c s IH]; intros before.
  - simpl. rewrite orb_false_r, (disallowedAt_iff rx before [] Hcap). split.
    + intros (occ & post & E & Hs & Hb & Ha). exists [], occ, post. auto.
    + intros (pre & occ & post & E & Hs & Hb & Ha).
      destruct pre; [|discriminate]. exists occ, post. auto.
  - simpl. rewrite orb_true_iff, (disallowedAt_iff rx before (c :: s) Hcap), IH.
    split.
    + intros [(occ & post & E & Hs & Hb & Ha)
             | (pre & occ & post & E & Hs & Hb & Ha)].
      * exists [], occ, post. auto.
      * exists (c :: pre), occ, post. rewrite E, lastChar_cons.
        repeat split; auto.
        destruct (lastChar pre); assumption.
    + intros (pre & occ & post & E & Hs & Hb & Ha).
      destruct pre as [|x pre].
      * left. exists occ, post. auto.
      * right. simpl in E. injection E as <- ->.
        exists pre, occ, post. rewrite lastChar_cons in Hb.
        repeat split; auto.
        destruct (lastChar pre); assumption.
Qed.

Lemma test_iff (rx : Disallowed) (sql : jsstring) :
  capitals (word rx) ->
  test rx sql = true <-> occursAsWord (word rx) sql.
Proof.
  intros Hcap. unfold test, occursAsWord.
  rewrite (testFrom_iff rx Hcap sql None). split.
  - intros (pre & occ & post & E & Hs & Hb & Ha).
    exists pre, occ, post. repeat split; auto.
    destruct (lastChar pre); assumption.
  - intros (pre & occ & post & E & Hs & Hb & Ha).
    exists pre, occ, post. repeat split; auto.
    destruct (lastChar pre); assumption.
Qed.

Lemma DISALLOWED_capitals :
  Forall (fun rx => capitals (word rx)) DISALLOWED.
Proof. repeat constructor; discriminate. Qed.

Lemma disallowedIssue_inj (rx rx' : Disallowed) :
  disallowedIssue rx = disallowedIssue rx' -> rx = rx'.
Proof.
  unfold disallowedIssue, source. intros H.
  apply app_inv_head in H. apply app_inv_head in H.
  apply app_inv_tail in H. destruct rx, rx'. simpl in H. now subst.
Qed.

Lemma disallowedIssue_reported (rx : Disallowed) (sql : jsstring) :
  In rx DISALLOWED ->
  In (disallowedIssue rx) (issues (syntaxScan sql)) <-> test rx sql = true.
Proof.
  intros Hin. destruct (syntaxScan_normal_form sql) as [-> _].
  rewrite !in_app_iff, in_map_iff. split.
  - intros [H | [(rx' & E & H) | H]].
    + unfold multiPart in H. destruct (multi (trim sql)); [|contradiction].
      destruct H as [E | []]. discriminate E.
    + apply disallowedIssue_inj in E. subst rx'.
      now apply filter_In in H.
    + unfold commentPart in H. destruct (negb _); [|contradiction].
      destruct H as [E | []]. discriminate E.
  - intros H. right. left. exists rx. split; [reflexivity|].
    apply filter_In. auto.
Qed.

(** *** A statement terminator at the end *)

Lemma trimStart_all (ws : jsstring) :
  forallb isWhiteSpace ws = true -> trimStart ws = [].
Proof.
  induction ws as [|c ws IH]; [reflexivity|]. simpl.
  intros H. apply andb_true_iff in H as [-> H]. now apply IH.
Qed.

Lemma trimEnd_all (ws : jsstring) :
  forallb isWhiteSpace ws = true -> trimEnd ws = [].
Proof.
  intros H. unfold trimEnd. rewrite trimStart_all; [reflexivity|].
  rewrite forallb_forall in *. intros c Hc. apply H. now apply in_rev.
Qed.

Lemma trimStart_incl (c : ascii) (s : jsstring) :
  In c (trimStart s) -> In c s.
Proof.
  induction s as [|x s IH]; [auto|]. simpl.
  destruct (isWhiteSpace x); [right; auto | auto].
Qed.

Lemma count_zero (c : ascii) (s : jsstring) :
  ~ In c s -> count_occ ascii_dec s c = 0.
Proof. intros H. now apply count_occ_not_In. Qed.

Lemma multi_trailing (body ws : jsstring) :
  ~ In semi body -> forallb isWhiteSpace ws = true ->
  multi (trim (body ++ [semi] ++ ws)) = false.
Proof.
  intros Hb Hw.
  assert (E : trim (body ++ [semi] ++ ws) = trimStart body ++ [semi]).
  { unfold trim. simpl. rewrite trimStart_before by reflexivity.
    rewrite trimEnd_after by reflexivity. now rewrite (trimEnd_all ws Hw). }
  rewrite E. destruct (multi (trimStart body ++ [semi])) eqn:M; [|reflexivity].
  apply multi_iff in M. rewrite count_occ_app in M. simpl in M.
  rewrite count_zero in M by (intros H; apply Hb; eapply trimStart_incl; eauto).
  destruct (ascii_dec semi semi) as [_|N]; [|congruence].
  destruct M as [M | [_ M]]; [lia|]. exfalso. apply M. eauto.
Qed.

(** *** The comment markers *)

Lemma countPairs_occurrences (a b : ascii) :
  a <> b ->
  forall s x,
    countPairs a b (x :: s) = occurrences a b (x :: s)
    /\ countPairs a b s = occurrences a b s.
Proof.
  intros Hab. induction s as [|y s IH]; intros x.
  - split; reflexivity.
  - destruct (IH y) as [IH1 IH2]. split; [|exact IH1].
    assert (Eq1 : countPairs a b (x :: y :: s)
                  = if Ascii.eqb x a && Ascii.eqb y b
                    then S (countPairs a b s) else countPairs a b (y :: s))
      by reflexivity.
    assert (Eq2 : occurrences a b (x :: y :: s)
                  = (if Ascii.eqb x a && Ascii.eqb y b then 1 else 0)
                    + occurrences a b (y :: s))
      by reflexivity.
    rewrite Eq1, Eq2.
    destruct (Ascii.eqb x a && Ascii.eqb y b) eqn:E.
    + apply andb_true_iff in E as [_ Ey]. apply Ascii.eqb_eq in Ey. subst y.
      rewrite IH2.
      assert (Eb : Ascii.eqb b a = false)
        by (apply Ascii.eqb_neq; congruence).
      destruct s as [|z s]; [reflexivity|].
      change (occurrences a b (b :: z :: s))
        with ((if Ascii.eqb b a && Ascii.eqb z b then 1 else 0)
              + occurrences a b (z :: s)).
      now rewrite Eb.
    + exact IH1.
Qed.

Lemma commentIssue_reported (sql : jsstring) :
  In commentIssue (issues (syntaxScan sql))
  <-> countPairs "/"%char "*"%char sql <> countPairs "*"%char "/"%char sql.
Proof.
  destruct (syntaxScan_normal_form sql) as [-> _].
  rewrite !in_app_iff, in_map_iff. unfold commentPart.
  rewrite <- Nat.eqb_neq. split.
  - intros [H | [(rx & E & _) | H]].
    + unfold multiPart in H. destruct (multi (trim sql)); [|contradiction].
      destruct H as [E | []]. discriminate E.
    + discriminate E.
    + destruct (_ =? _); [contradiction | reflexivity].
  - intros ->. right. right. now left.
Qed.

End SyntaxScanMoreFacts.

Module SyntaxScanExtras.
Import SyntaxScan SyntaxScanFacts Notions SyntaxScanMoreFacts.

(** X7.  The three rules are always all evaluated and reported in a fixed
    order: the multi-statement issue, then one issue for each disallowed
    keyword found, in the order of the list, then the comment issue; [ok] is
    true exactly when there is no issue. *)
Theorem syntaxScan_reports_every_rule :
  forall sql : jsstring,
    issues (syntaxScan sql)
    = multiPart sql
      ++ map disallowedIssue (filter (fun rx => test rx sql) DISALLOWED)
      ++ commentPart sql
    /\ (ok (syntaxScan sql) = true <-> issues (syntaxScan sql) = []).
Proof.
  intros sql. destruct (syntaxScan_normal_form sql) as [Hi Ho].
  split; [exact Hi|]. rewrite Ho.
  destruct (issues (syntaxScan sql)); split; congruence.
Qed.

Lemma isWordChar_ascii (c : ascii) :
  128 <= code c -> isWordChar c = false.
Proof.
  intros H. apply Nat.leb_le in H.
  destruct c as [[] [] [] [] [] [] [] []]; vm_compute in H |- *;
    solve [reflexivity | discriminate H].
Qed.

(** X8.  A keyword of the list is reported exactly when it occurs in the
    SQL text as a whole word, in any letter case: no word character of [\b],
    that is no ASCII letter A to Z or a to z, no digit 0 to 9 and no
    underscore, stands right before or right after the occurrence.  The
    result is then not ok.  A letter outside ASCII is not a word character:
    a keyword that follows one is reported. *)
Theorem disallowed_keyword_reported_iff_whole_word :
  forall (rx : Disallowed) (sql : jsstring),
    In rx DISALLOWED ->
    (In (disallowedIssue rx) (issues (syntaxScan sql))
     <-> occursAsWord (word rx) sql)
    /\ (occursAsWord (word rx) sql -> ok (syntaxScan sql) = false)
    /\ (forall (pre post : jsstring) (c : ascii),
           128 <= code c ->
           isWord (hd_error post) = false ->
           In (disallowedIssue rx)
              (issues (syntaxScan (pre ++ [c] ++ word rx ++ post)))).
Proof.
  intros rx sql Hin.
  pose proof DISALLOWED_capitals as Hc. rewrite Forall_forall in Hc.
  specialize (Hc rx Hin).
  rewrite (disallowedIssue_reported rx sql Hin), (test_iff rx sql Hc).
  split; [reflexivity|]. split.
  - intros Hw.
    assert (Hi : In (disallowedIssue rx) (issues (syntaxScan sql))).
    { apply (disallowedIssue_reported rx sql Hin). now apply test_iff. }
    destruct (syntaxScan_normal_form sql) as [_ Ho]. rewrite Ho.
    destruct (issues (syntaxScan sql)); [contradiction | reflexivity].
  - intros pre post c Hcode Hpost.
    apply (disallowedIssue_reported rx _ Hin). apply (test_iff rx _ Hc).
    exists (pre ++ [c]), (word rx), post. repeat split.
    + now rewrite <- app_assoc.
    + unfold lastChar. rewrite rev_app_distr. simpl.
      now apply isWordChar_ascii.
    + exact Hpost.
Qed.

Lemma disallowed_keyword_reported_iff_whole_word_witness :
  (In (str "Disallowed token: \bDELETE\b")
      (issues (syntaxScan (str "SELECT 1 UNION delete FROM t")))
   /\ ok (syntaxScan (str "SELECT 1 UNION delete FROM t")) = false)
  /\ In (str "Disallowed token: \bDROP\b")
        (issues (syntaxScan (ascii_of_nat 233 :: str "DROP TABLE x")))
  /\ ~ In (str "Disallowed token: \bDROP\b")
          (issues (syntaxScan (str "eDROP TABLE x"))).
Proof.
  split; [|split].
  - assert (W : occursAsWord (str "DELETE")
                             (str "SELECT 1 UNION delete FROM t")).
    { exists (str "SELECT 1 UNION "), (str "delete"), (str " FROM t").
      repeat split. }
    assert (Hin : In {| word := str "DELETE" |} DISALLOWED)
      by (simpl; tauto).
    destruct (disallowed_keyword_reported_iff_whole_word
                {| word := str "DELETE" |}
                (str "SELECT 1 UNION delete FROM t") Hin) as (Hi & Ho & _).
    split; [now apply Hi | now apply Ho].
  - assert (Hin : In {| word := str "DROP" |} DISALLOWED)
      by (simpl; tauto).
    destruct (disallowed_keyword_reported_iff_whole_word
                {| word := str "DROP" |} [] Hin) as (_ & _ & Hn).
    apply (Hn [] (str " TABLE x") (ascii_of_nat 233)).
    + vm_compute. repeat constructor.
    + reflexivity.
  - vm_compute. intros H.
    repeat (destruct H as [H | H]; [discriminate H|]). exact H.
Defined.

(** X9.  A single statement terminator at the end of the text, followed by
    white space only, is not taken for a second statement. *)
Theorem trailing_terminator_accepted :
  forall body ws : jsstring,
    ~ In ";"%char body ->
    forallb isWhiteSpace ws = true ->
    ~ In multipleStatements
         (issues (syntaxScan (body ++ [";"%char] ++ ws))).
Proof.
  intros body ws Hb Hw H.
  apply multipleStatements_reported in H.
  pose proof (multi_trailing body ws Hb Hw) as M.
  unfold semi in M. congruence.
Qed.

Lemma trailing_terminator_accepted_witness :
  ~ In multipleStatements
       (issues (syntaxScan (str "SELECT name FROM companies" ++ [";"%char]
                                ++ [" "%char; ascii_of_nat 10]))).
Proof.
  apply (trailing_terminator_accepted
           (str "SELECT name FROM companies") [" "%char; ascii_of_nat 10]).
  - intros H. simpl in H.
    repeat (destruct H as [H | H]; [discriminate H|]). exact H.
  - reflexivity.
Defined.

(** X10.  The comment issue is reported exactly when the text holds a
    different number of opening markers and of closing markers, each counted
    wherever its two characters stand side by side; nothing checks that an
    opening marker comes before its closing one. *)
Theorem comment_rule_counts_markers :
  forall sql : jsstring,
    In commentIssue (issues (syntaxScan sql))
    <-> occurrences "/"%char "*"%char sql <> occurrences "*"%char "/"%char sql.
Proof.
  intros sql. rewrite commentIssue_reported.
  destruct sql as [|x s]; [reflexivity|].
  destruct (countPairs_occurrences "/"%char "*"%char
              ltac:(discriminate) s x) as [-> _].
  destruct (countPairs_occurrences "*"%char "/"%char
              ltac:(discriminate) s x) as [-> _].
  reflexivity.
Qed.

End SyntaxScanExtras.

(* ================================================================== *)
(** * Further properties of semanticCheck *)
(* ================================================================== *)

Module SemanticCheckMoreFacts.
Import SemanticCheck JsFacts SemanticCheckFacts Notions.

(** *** Each loop, as a list of issues *)

Lemma checkJoins_flat (registry : Registry) (joins : list JoinEdge) :
  checkJoins registry joins [] = flat_map (joinIssues registry) joins.
Proof.
  induction joins as [|j l IH]; [reflexivity|].
  change (checkJoins registry (j :: l) [])
    with (checkJoins registry l (checkJoins registry [j] [])).
  rewrite checkJoins_app, IH. simpl. f_equal.
  unfold checkJoins, joinIssues. simpl.
  destruct (Map_has registry (from j)), (Map_has registry (to j)); reflexivity.
Qed.

Lemma checkDimensions_filter (registry : Registry) (dims : list jsstring) :
  checkDimensions registry dims []
  = map dimensionNotFound
        (filter (fun d => negb (existsInAnyEntity registry d true true)) dims).
Proof.
  induction dims as [|d l IH]; [reflexivity|].
  change (checkDimensions registry (d :: l) [])
    with (checkDimensions registry l (checkDimensions registry [d] [])).
  rewrite checkDimensions_app, IH. simpl.
  unfold checkDimensions. simpl.
  destruct (negb (existsInAnyEntity registry d true true)); reflexivity.
Qed.

Lemma checkMetrics_filter (registry : Registry) (metrics : list jsstring) :
  checkMetrics registry metrics []
  = map metricNotFound
        (filter (fun m => negb (metricOrMeasureExists registry m)) metrics).
Proof.
  induction metrics as [|m l IH]; [reflexivity|].
  change (checkMetrics registry (m :: l) [])
    with (checkMetrics registry l (checkMetrics registry [m] [])).
  rewrite checkMetrics_app, IH. simpl.
  unfold checkMetrics. simpl.
  destruct (negb (metricOrMeasureExists registry m)); reflexivity.
Qed.

Lemma checkTimeRange_part (plan : FinalizedPlan) (registry : Registry) :
  checkTimeRange registry (timeRange (intent plan)) []
  = timeRangePart plan registry.
Proof.
  unfold checkTimeRange, timeRangePart, hasTimeDimensions.
  destruct (timeRange (intent plan)); [|reflexivity].
  now destruct (existsb _ _).
Qed.

Lemma allIssues_in_order verify plan registry :
  allIssues verify plan registry
  = policyIssues (verify registry)
    ++ map notLoaded
         (filter (fun e => negb (Map_has registry e)) (selectedEntities plan))
    ++ flat_map (joinIssues registry) (joinGraph plan)
    ++ map dimensionNotFound
         (filter (fun d => negb (existsInAnyEntity registry d true true))
                 (orEmpty (intent_dimensions (intent plan))))
    ++ map metricNotFound
         (filter (fun m => negb (metricOrMeasureExists registry m))
                 (orEmpty (intent_metrics (intent plan))))
    ++ timeRangePart plan registry.
Proof.
  unfold allIssues, laterIssues.
  now rewrite checkJoins_flat, checkDimensions_filter, checkMetrics_filter,
    checkTimeRange_part.
Qed.

(** *** When there is no issue *)

Lemma map_filter_nil {A B : Type} (f : A -> B) (p : A -> bool) (l : list A) :
  map f (filter p l) = [] <-> forall x, In x l -> p x = false.
Proof.
  induction l as [|a l IH]; simpl.
  - split; [intros _ x [] | reflexivity].
  - destruct (p a) eqn:E; simpl.
    + split; [discriminate|]. intros H. specialize (H a (or_introl eq_refl)).
      congruence.
    + rewrite IH. split.
      * intros H x [<- | Hx]; auto.
      * intros H x Hx. apply H. now right.
Qed.

Lemma app_nil_both {A : Type} (l l' : list A) :
  l ++ l' = [] <-> l = [] /\ l' = [].
Proof.
  split; [apply app_eq_nil | intros [-> ->]; reflexivity].
Qed.

Lemma joinIssues_nil (registry : Registry) (joins : list JoinEdge) :
  flat_map (joinIssues registry) joins = []
  <-> forall j, In j joins ->
                Map_has registry (from j) = true
                /\ Map_has registry (to j) = true.
Proof.
  induction joins as [|j l IH]; simpl.
  - split; [intros _ j [] | reflexivity].
  - split.
    + intros H. apply app_eq_nil in H as [Hj Hl]. intros j' [<- | Hj'].
      * unfold joinIssues in Hj.
        destruct (Map_has registry (from j)), (Map_has registry (to j));
          try discriminate Hj; auto.
      * now apply IH.
    + intros H. destruct (H j (or_introl eq_refl)) as [Hf Ht].
      unfold joinIssues at 1. rewrite Hf, Ht. simpl.
      apply IH. intros j' Hj'. apply H. now right.
Qed.

Lemma hasTimeDimensions_iff (registry : Registry) :
  hasTimeDimensions registry = true
  <-> exists ent, In ent (Map_values registry) /\ time_dimensions ent <> [].
Proof.
  unfold hasTimeDimensions. rewrite existsb_exists. split.
  - intros (ent & Hin & H). exists ent. split; [assumption|].
    destruct (time_dimensions ent); [discriminate | discriminate].
  - intros (ent & Hin & H). exists ent. split; [assumption|].
    destruct (time_dimensions ent); [congruence | reflexivity].
Qed.

Lemma allIssues_nil verify plan registry :
  legible (verify registry) ->
  allIssues verify plan registry = []
  <-> verify registry = Returns tt /\ resolvable plan registry.
Proof.
  intros Hl.
  rewrite allIssues_in_order. unfold resolvable.
  rewrite !app_nil_both.
  rewrite !map_filter_nil, joinIssues_nil.
  assert (P : policyIssues (verify registry) = [] <-> verify registry = Returns tt).
  { destruct (verify registry) as [[]|e]; simpl in *.
    - split; reflexivity.
    - destruct Hl as (text & ->). split; discriminate. }
  assert (T : timeRangePart plan registry = []
              <-> (timeRange (intent plan) = true ->
                   exists ent, In ent (Map_values registry)
                               /\ time_dimensions ent <> [])).
  { unfold timeRangePart. rewrite <- hasTimeDimensions_iff.
    destruct (timeRange (intent plan)), (hasTimeDimensions registry); simpl;
      split; auto; try discriminate.
    intros H. specialize (H eq_refl). discriminate. }
  rewrite P, T.
  assert (N : forall (f : jsstring -> bool) l,
             (forall x, In x l -> negb (f x) = false)
             <-> (forall x, In x l -> f x = true)).
  { intros f l. split; intros H x Hx; specialize (H x Hx);
      destruct (f x); auto; discriminate. }
  rewrite !N. tauto.
Qed.

(** *** Dotted references *)

Lemma split_go_piece (sep : ascii) (a t : jsstring) :
  forall piece,
    ~ In sep a ->
    split_go sep (a ++ sep :: t) piece = (piece ++ a) :: split_go sep t [].
Proof.
  induction a as [|c a IH]; intros piece Hn; simpl.
  - now rewrite Ascii.eqb_refl, app_nil_r.
  - destruct (Ascii.eqb c sep) eqn:E.
    + apply Ascii.eqb_eq in E. subst c. exfalso. apply Hn. now left.
    + rewrite IH by (intros H; apply Hn; now right).
      now rewrite <- app_assoc.
Qed.

Lemma split_go_last (sep : ascii) (a : jsstring) :
  forall piece, ~ In sep a -> split_go sep a piece = [piece ++ a].
Proof.
  induction a as [|c a IH]; intros piece Hn; simpl.
  - now rewrite app_nil_r.
  - destruct (Ascii.eqb c sep) eqn:E.
    + apply Ascii.eqb_eq in E. subst c. exfalso. apply Hn. now left.
    + rewrite IH by (intros H; apply Hn; now right).
      now rewrite <- app_assoc.
Qed.

Lemma splitDotted_two (e f tail : jsstring) :
  dotFree e -> dotFree f ->
  tail = [] \/ hd_error tail = Some dot ->
  splitDotted (e ++ [dot] ++ f ++ tail) = Some (e, f).
Proof.
  intros He Hf Ht. unfold splitDotted, split. fold dot.
  change (e ++ [dot] ++ f ++ tail) with (e ++ dot :: (f ++ tail)).
  rewrite split_go_piece by exact He. simpl.
  destruct Ht as [-> | Ht].
  - rewrite app_nil_r, split_go_last by exact Hf. reflexivity.
  - destruct tail as [|c tail]; [discriminate|]. injection Ht as ->.
    rewrite split_go_piece by exact Hf. reflexivity.
Qed.

Lemma includes_dot (e rest : jsstring) :
  includes dot (e ++ [dot] ++ rest) = true.
Proof.
  unfold includes. apply existsb_exists. exists dot.
  split; [|apply Ascii.eqb_refl]. apply in_or_app. right. now left.
Qed.

(** *** A registry that grows *)

Lemma Map_has_app {V : Type} (m more : JsMap V) (k : jsstring) :
  Map_has m k = true -> Map_has (m ++ more) k = true.
Proof. unfold Map_has. rewrite existsb_app. now intros ->. Qed.

Lemma Map_get_app {V : Type} (m more : JsMap V) (k : jsstring) (v : V) :
  Map_get m k = Some v -> Map_get (m ++ more) k = Some v.
Proof.
  unfold Map_get. induction m as [|kv m IH]; simpl; [discriminate|].
  destruct (streq k (fst kv)); [auto | exact IH].
Qed.

Lemma existsInAnyEntity_app registry more name cd ct :
  existsInAnyEntity registry name cd ct = true ->
  existsInAnyEntity (registry ++ more) name cd ct = true.
Proof.
  unfold existsInAnyEntity. destruct (includes "."%char name).
  - destruct (splitDotted name) as [[e f]|]; [|discriminate].
    destruct (Map_get registry e) as [ent|] eqn:G; [|discriminate].
    now rewrite (Map_get_app registry more e ent G).
  - unfold Map_values. rewrite map_app, existsb_app. now intros ->.
Qed.

Lemma metricOrMeasureExists_app registry more name :
  metricOrMeasureExists registry name = true ->
  metricOrMeasureExists (registry ++ more) name = true.
Proof.
  unfold metricOrMeasureExists. destruct (includes "."%char name).
  - destruct (splitDotted name) as [[e f]|]; [|discriminate].
    destruct (Map_get registry e) as [ent|] eqn:G; [|discriminate].
    now rewrite (Map_get_app registry more e ent G).
  - unfold Map_values. rewrite map_app, existsb_app. now intros ->.
Qed.

Lemma resolvable_app plan registry more :
  resolvable plan registry -> resolvable plan (registry ++ more).
Proof.
  intros (Hs & Hj & Hd & Hm & Ht). repeat split.
  - intros e He. apply Map_has_app. auto.
  - apply Map_has_app. now apply Hj.
  - apply Map_has_app. now apply Hj.
  - intros d Hd'. apply existsInAnyEntity_app. auto.
  - intros m Hm'. apply metricOrMeasureExists_app. auto.
  - intros H. destruct (Ht H) as (ent & Hin & Hne). exists ent.
    split; [|assumption]. unfold Map_values in *. rewrite map_app.
    apply in_or_app. now left.
Qed.

(** *** Issues told apart *)

Lemma noTimeDimensions_elsewhere verify plan registry :
  verify registry = Returns tt ->
  In noTimeDimensions (allIssues verify plan registry)
  <-> timeRangePart plan registry = [noTimeDimensions].
Proof.
  intros Hv. rewrite allIssues_in_order, Hv. simpl.
  rewrite !in_app_iff, !in_map_iff, in_flat_map. split.
  - intros [(e & E & _) | [(j & _ & Hj) | [(d & E & _) | [(m & E & _) | H]]]];
      try discriminate E.
    + unfold joinIssues in Hj.
      destruct (Map_has registry (from j)), (Map_has registry (to j));
        simpl in Hj; intuition discriminate.
    + unfold timeRangePart in *.
      destruct (_ && _); [reflexivity | contradiction].
  - intros ->. right; right; right; right. now left.
Qed.

End SemanticCheckMoreFacts.

Module SemanticCheckExtras.
Import SemanticCheck JsFacts SemanticCheckFacts Notions Samples.
Import SemanticCheckMoreFacts.

(** X11.  Every check runs and nothing stops at the first failure: when
    the policy returns or raises a value the [catch] clause can read, the
    issues are the policy issue, then the missing selected entities, then
    for each join edge its missing [from] side and its missing [to] side,
    then the unresolved dimensions, then the unresolved metrics, then the
    time-range issue, each group in the order of the plan. *)
Theorem semanticCheck_reports_everything_in_order :
  forall verify plan sql registry,
    legible (verify registry) ->
    exists result,
      semanticCheck verify plan sql registry = Returns result
      /\ issues result
         = policyIssues (verify registry)
           ++ map notLoaded
                (filter (fun e => negb (Map_has registry e))
                        (selectedEntities plan))
           ++ flat_map (joinIssues registry) (joinGraph plan)
           ++ map dimensionNotFound
                (filter (fun d => negb (existsInAnyEntity registry d true true))
                        (orEmpty (intent_dimensions (intent plan))))
           ++ map metricNotFound
                (filter (fun m => negb (metricOrMeasureExists registry m))
                        (orEmpty (intent_metrics (intent plan))))
           ++ timeRangePart plan registry.
Proof.
  intros verify plan sql registry Hl. eexists.
  split; [apply semanticCheck_eq; exact Hl|]. apply allIssues_in_order.
Qed.

Lemma semanticCheck_reports_everything_in_order_witness :
  exists result,
    semanticCheck denyAll
      {| selectedEntities := [str "orders"];
         joinGraph := [{| from := str "orders"; to := str "customers" |}];
         intent := {| intent_dimensions := Some [str "colour"];
                      intent_metrics := Some [str "revenue"];
                      timeRange := true |} |}
      (str "SELECT 1") shopRegistry
    = Returns result
    /\ issues result
       = [str "Table not allowed";
          notLoaded (str "orders");
          joinFromMissing (str "orders");
          dimensionNotFound (str "colour");
          metricNotFound (str "revenue");
          noTimeDimensions].
Proof.
  destruct (semanticCheck_reports_everything_in_order
              denyAll
              {| selectedEntities := [str "orders"];
                 joinGraph := [{| from := str "orders"; to := str "customers" |}];
                 intent := {| intent_dimensions := Some [str "colour"];
                              intent_metrics := Some [str "revenue"];
                              timeRange := true |} |}
              (str "SELECT 1") shopRegistry)
    as (result & Hr & Hi).
  - exists (str "Table not allowed"). reflexivity.
  - exists result. split; [exact Hr|]. rewrite Hi. reflexivity.
Defined.

(** X12.  When the policy returns or raises a value the [catch] clause can
    read, the result is ok exactly when the policy does not raise and the
    plan is resolvable: every selected entity and both sides of every join
    edge are keys of the registry, every dimension and every metric
    resolves, and a time range comes with at least one entity that has a
    time dimension. *)
Theorem semanticCheck_ok_iff_resolvable :
  forall verify plan sql registry,
    legible (verify registry) ->
    exists result,
      semanticCheck verify plan sql registry = Returns result
      /\ (ok result = true
          <-> verify registry = Returns tt /\ resolvable plan registry).
Proof.
  intros verify plan sql registry Hl. eexists.
  split; [apply semanticCheck_eq; exact Hl|]. cbn [ok].
  rewrite length_zero_iff. apply allIssues_nil. exact Hl.
Qed.

Lemma semanticCheck_ok_iff_resolvable_witness :
  (exists result,
      semanticCheck allowAll regionPlan (str "SELECT 1") shopRegistry
      = Returns result
      /\ ok result = true)
  /\ (exists result,
         semanticCheck denyAll regionPlan (str "SELECT 1") shopRegistry
         = Returns result
         /\ ok result <> true).
Proof.
  split.
  - destruct (semanticCheck_ok_iff_resolvable
                allowAll regionPlan (str "SELECT 1") shopRegistry I)
      as (result & Hr & Hok).
    exists result. split; [exact Hr|].
    apply Hok. split; [reflexivity|]. unfold resolvable. repeat split.
    + intros e [<- | []]. reflexivity.
    + destruct H.
    + destruct H.
    + intros d [<- | []]. reflexivity.
    + intros m [].
    + discriminate.
  - destruct (semanticCheck_ok_iff_resolvable
                denyAll regionPlan (str "SELECT 1") shopRegistry)
      as (result & Hr & Hok).
    + exists (str "Table not allowed"). reflexivity.
    + exists result. split; [exact Hr|].
      intros H. apply Hok in H as [H _]. discriminate H.
Defined.

(** X13.  A dotted reference is looked up in the entity named before the
    first dot only, with the field named between the first and the second
    dot; what follows a second dot is ignored, and when the registry has no
    such entity the reference does not resolve, whatever the other entities
    hold.  Metrics follow the same rule. *)
Theorem dotted_reference_resolves_in_its_entity :
  forall (registry : Registry) (e f tail : jsstring),
    dotFree e -> dotFree f ->
    tail = [] \/ hd_error tail = Some "."%char ->
    existsInAnyEntity registry (e ++ ["."%char] ++ f ++ tail) true true
    = match Map_get registry e with
      | Some ent => fieldIn ent f true true
      | None => false
      end
    /\ metricOrMeasureExists registry (e ++ ["."%char] ++ f ++ tail)
       = match Map_get registry e with
         | Some ent => metricIn ent f
         | None => false
         end.
Proof.
  intros registry e f tail He Hf Ht.
  unfold existsInAnyEntity, metricOrMeasureExists.
  pose proof (includes_dot e (f ++ tail)) as Hi.
  pose proof (splitDotted_two e f tail He Hf Ht) as Hs.
  unfold dot in *. rewrite Hi, Hs. split; reflexivity.
Qed.

Lemma dotted_reference_resolves_in_its_entity_witness :
  existsInAnyEntity shopRegistry (str "customers.region.extra") true true = true
  /\ existsInAnyEntity shopRegistry (str "products.region") true true = false.
Proof.
  split.
  - refine (eq_trans
              (proj1 (dotted_reference_resolves_in_its_entity
                        shopRegistry (str "customers") (str "region")
                        (str ".extra") _ _ _)) _).
    + intros H. simpl in H.
      repeat (destruct H as [H | H]; [discriminate H|]). exact H.
    + intros H. simpl in H.
      repeat (destruct H as [H | H]; [discriminate H|]). exact H.
    + right. reflexivity.
    + reflexivity.
  - refine (eq_trans
              (proj1 (dotted_reference_resolves_in_its_entity
                        shopRegistry (str "products") (str "region")
                        [] _ _ _)) _).
    + intros H. simpl in H.
      repeat (destruct H as [H | H]; [discriminate H|]). exact H.
    + intros H. simpl in H.
      repeat (destruct H as [H | H]; [discriminate H|]). exact H.
    + left. reflexivity.
    + reflexivity.
Defined.

(** X14.  With a policy that does not raise, the time-range issue is
    reported exactly when the plan has a time range and no entity of the
    registry has a time dimension; an empty registry is such a registry. *)
Theorem time_range_issue_iff :
  forall verify plan sql registry,
    verify registry = Returns tt ->
    exists result,
      semanticCheck verify plan sql registry = Returns result
      /\ (In noTimeDimensions (issues result)
          <-> timeRange (intent plan) = true
              /\ forall ent, In ent (Map_values registry) ->
                             time_dimensions ent = []).
Proof.
  intros verify plan sql registry Hv. eexists.
  split; [apply semanticCheck_eq; now apply returns_legible|]. cbn [issues].
  rewrite (noTimeDimensions_elsewhere verify plan registry Hv).
  unfold timeRangePart.
  destruct (timeRange (intent plan)); simpl.
  - destruct (hasTimeDimensions registry) eqn:H; simpl.
    + apply hasTimeDimensions_iff in H as (ent & Hin & Hne).
      split; [discriminate|]. intros [_ Hall]. now rewrite (Hall ent Hin) in Hne.
    + split; [|reflexivity]. intros _. split; [reflexivity|].
      intros ent Hin. destruct (time_dimensions ent) eqn:E; [reflexivity|].
      assert (X : hasTimeDimensions registry = true).
      { apply hasTimeDimensions_iff. exists ent. split; [assumption|].
        rewrite E. discriminate. }
      congruence.
  - split; [discriminate | intros [H _]; discriminate].
Qed.

Lemma time_range_issue_iff_witness :
  exists result,
    semanticCheck allowAll
      {| selectedEntities := []; joinGraph := [];
         intent := {| intent_dimensions := None; intent_metrics := None;
                      timeRange := true |} |}
      (str "SELECT 1") shopRegistry
    = Returns result
    /\ In noTimeDimensions (issues result).
Proof.
  destruct (time_range_issue_iff
              allowAll
              {| selectedEntities := []; joinGraph := [];
                 intent := {| intent_dimensions := None; intent_metrics := None;
                              timeRange := true |} |}
              (str "SELECT 1") shopRegistry eq_refl) as (result & Hr & Hi).
  exists result. split; [exact Hr|]. apply Hi. split; [reflexivity|].
  intros ent [<- | [<- | []]]; reflexivity.
Defined.

(** X15.  A plan that passes against a registry still passes after
    entities are added to the registry under new keys, provided the policy
    does not raise on the larger registry. *)
Theorem ok_survives_registry_growth :
  forall verify plan sql (registry more : Registry) result,
    (forall k ent, In (k, ent) more -> Map_has registry k = false) ->
    semanticCheck verify plan sql registry = Returns result ->
    ok result = true ->
    verify (registry ++ more) = Returns tt ->
    semanticCheck verify plan sql (registry ++ more)
    = Returns {| ok := true; issues := []; semanticOk := true |}.
Proof.
  intros verify plan sql registry more result _ Hr Hok Hv.
  pose proof (returned_legible verify plan sql registry result Hr) as Hl.
  rewrite semanticCheck_eq in Hr by exact Hl.
  injection Hr as <-. cbn [ok] in Hok.
  apply length_zero_iff in Hok.
  apply (allIssues_nil verify plan registry Hl) in Hok as [_ Hres].
  pose proof (returns_legible verify (registry ++ more) Hv) as Hl'.
  rewrite semanticCheck_eq by exact Hl'.
  assert (E : allIssues verify plan (registry ++ more) = []).
  { apply allIssues_nil; [exact Hl'|].
    split; [exact Hv | now apply resolvable_app]. }
  now rewrite E.
Qed.

Lemma ok_survives_registry_growth_witness :
  semanticCheck allowAll regionPlan (str "SELECT 1")
                (shopRegistry ++ ordersRegistry)
  = Returns {| ok := true; issues := []; semanticOk := true |}.
Proof.
  apply (ok_survives_registry_growth
           allowAll regionPlan (str "SELECT 1") shopRegistry ordersRegistry
           {| ok := true; issues := []; semanticOk := true |}).
  - intros k ent [H | []]. injection H as <- _. reflexivity.
  - reflexivity.
  - reflexivity.
  - reflexivity.
Defined.

End SemanticCheckExtras.

(* ================================================================== *)
(** * Further properties of the error classifiers *)
(* ================================================================== *)

Module ErrorsMoreFacts.
Import Errors Classifiers JsFacts SpecWords ErrorsFacts Notions.

(** *** Literal patterns *)

Lemma ci_eqb_canon (p c : ascii) :
  ci_eqb p c = true <-> canonicalize c = canonicalize p.
Proof. unfold ci_eqb. rewrite Ascii.eqb_eq. split; congruence. Qed.

Lemma literal_sound (lit : jsstring) :
  forall s t r,
    literal lit s = Some (t, r) -> s = t ++ r /\ sameLetters lit t.
Proof.
  unfold sameLetters.
  induction lit as [|p lit IH]; intros s t r; simpl.
  - intros [= <- <-]. auto.
  - destruct s as [|c s]; [discriminate|].
    destruct (ci_eqb p c) eqn:E; [|discriminate].
    destruct (literal lit s) as [[t' r']|] eqn:L; [|discriminate].
    intros [= <- <-]. destruct (IH _ _ _ L) as [-> Hs].
    apply ci_eqb_canon in E. simpl. split; [reflexivity | congruence].
Qed.

Lemma literal_complete (lit : jsstring) :
  forall t r, sameLetters lit t -> literal lit (t ++ r) = Some (t, r).
Proof.
  unfold sameLetters.
  induction lit as [|p lit IH]; intros t r Hs.
  - destruct t; [reflexivity | discriminate].
  - destruct t as [|c t]; [discriminate|].
    simpl in Hs. injection Hs as Hc Hs.
    apply ci_eqb_canon in Hc. simpl. now rewrite Hc, (IH t r Hs).
Qed.

Lemma literal_iff (lit s t r : jsstring) :
  literal lit s = Some (t, r) <-> s = t ++ r /\ sameLetters lit t.
Proof.
  split; [apply literal_sound|]. intros [-> Hs]. now apply literal_complete.
Qed.

Lemma test_iff_suffix {A : Type} (f : jsstring -> option A) (s : jsstring) :
  test f s = true <-> exists pre suf a, s = pre ++ suf /\ f suf = Some a.
Proof.
  split.
  - unfold test. destruct (search f s) as [a|] eqn:E; [|discriminate].
    intros _. destruct (search_some _ _ _ E) as (pre & suf & -> & H). eauto.
  - intros (pre & suf & a & -> & H). eapply test_suffix; eassumption.
Qed.

Lemma mentions_iff (lit msg : jsstring) :
  mentions lit msg = true <-> occursIgnoringCase lit msg.
Proof.
  unfold mentions, occursIgnoringCase. rewrite test_iff_suffix. split.
  - intros (pre & suf & [t r] & -> & H). apply literal_iff in H as [-> Hs].
    exists pre, t, r. auto.
  - intros (pre & occ & post & -> & Hs).
    exists pre, (occ ++ post), (occ, post). split; [reflexivity|].
    apply literal_iff. auto.
Qed.

Lemma occurs_second_part (a b msg : jsstring) :
  occursIgnoringCase (a ++ b) msg -> occursIgnoringCase b msg.
Proof.
  unfold occursIgnoringCase, sameLetters.
  intros (pre & occ & post & -> & Hs).
  rewrite map_app in Hs. apply map_eq_app in Hs as (o1 & o2 & -> & H1 & H2).
  exists (pre ++ o1), o2, post. split; [|assumption].
  now rewrite <- !app_assoc.
Qed.

Lemma occurs_first_part (a b msg : jsstring) :
  occursIgnoringCase (a ++ b) msg -> occursIgnoringCase a msg.
Proof.
  unfold occursIgnoringCase, sameLetters.
  intros (pre & occ & post & -> & Hs).
  rewrite map_app in Hs. apply map_eq_app in Hs as (o1 & o2 & -> & H1 & H2).
  exists pre, o1, (o2 ++ post). split; [|assumption].
  now rewrite <- !app_assoc.
Qed.

(** *** Names between double quotes *)

Lemma doubleQuotedName_parts (s : jsstring) (m : Match) :
  doubleQuotedName s = Some m ->
  s = text m ++ rest m
  /\ text m = [dquote] ++ group1 m ++ [dquote]
  /\ group1 m <> []
  /\ ~ In dquote (group1 m).
Proof.
  unfold doubleQuotedName.
  destruct s as [|q r]; [discriminate|].
  destruct (Ascii.eqb q dquote) eqn:Q; [|discriminate].
  apply Ascii.eqb_eq in Q. subst q.
  destruct (span (fun c => negb (Ascii.eqb c dquote)) r) as [captured r1] eqn:C.
  destruct captured as [|c0 cap]; [discriminate|].
  destruct r1 as [|q' r2]; [discriminate|].
  intros [= <-]. simpl.
  destruct (span_split _ _ _ _ C) as (-> & Hcap & Hq').
  apply negb_false_iff, Ascii.eqb_eq in Hq'. subst q'.
  split; [now rewrite <- app_assoc|]. split; [reflexivity|].
  split; [discriminate|].
  intros Hin. rewrite forallb_forall in Hcap. specialize (Hcap _ Hin).
  rewrite Ascii.eqb_refl in Hcap. discriminate.
Qed.

Lemma removeDoubleQuotes_text (s : jsstring) (m : Match) :
  doubleQuotedName s = Some m -> removeDoubleQuotes (text m) = group1 m.
Proof.
  intros H. destruct (doubleQuotedName_parts _ _ H) as (_ & -> & _ & Hn).
  unfold removeDoubleQuotes. rewrite !filter_app. simpl.
  rewrite app_nil_r.
  induction (group1 m) as [|c g IH]; [reflexivity|]. simpl.
  destruct (Ascii.eqb c dquote) eqn:E.
  - apply Ascii.eqb_eq in E. subst c. exfalso. apply Hn. now left.
  - simpl. f_equal. apply IH. intros Hin. apply Hn. now right.
Qed.

Lemma unquoted_names (ms : list Match) :
  Forall (fun m => exists x, doubleQuotedName x = Some m) ms ->
  map removeDoubleQuotes (map text ms) = map group1 ms.
Proof.
  induction 1 as [|m ms (x & Hx) _ IH]; simpl; [reflexivity|].
  now rewrite (removeDoubleQuotes_text _ _ Hx), IH.
Qed.

Lemma dedupFirstSeen_nil (xs : list jsstring) :
  dedupFirstSeen xs = [] <-> xs = [].
Proof. destruct xs; simpl; split; congruence. Qed.

(** The rounds [matchAll] allows are enough for any pattern whose matches
    leave less input than they were given. *)
Lemma matches_fuel_any (f : jsstring -> option Match) :
  (forall s m, f s = Some m -> length (rest m) < length s) ->
  forall fuel1 fuel2 s,
    length s < fuel1 -> length s < fuel2 ->
    matches fuel1 f s = matches fuel2 f s.
Proof.
  intros Hf. induction fuel1 as [|fuel1 IH]; intros fuel2 s H1 H2; [lia|].
  destruct fuel2 as [|fuel2]; [lia|]. simpl.
  destruct (f s) as [m|] eqn:E.
  - apply Hf in E. f_equal. apply IH; lia.
  - destruct s as [|c s]; [reflexivity|]. simpl in H1, H2. apply IH; lia.
Qed.

Lemma doubleQuotedName_shorter (s : jsstring) (m : Match) :
  doubleQuotedName s = Some m -> length (rest m) < length s.
Proof.
  intros H. destruct (doubleQuotedName_parts _ _ H) as (-> & -> & _).
  repeat (rewrite length_app; simpl). lia.
Qed.

(** *** The matches of a global search lie in the text searched *)

Lemma matches_within (f : jsstring -> option Match) :
  (forall s m, f s = Some m -> s = text m ++ rest m) ->
  forall fuel s,
    Forall (fun m => exists pre suf, s = pre ++ suf /\ f suf = Some m)
           (matches fuel f s).
Proof.
  intros Hf. induction fuel as [|fuel IH]; intros s; simpl; [constructor|].
  destruct (f s) as [m|] eqn:E.
  - constructor.
    + exists [], s. auto.
    + pose proof (Hf _ _ E) as Hs.
      eapply Forall_impl; [|apply (IH (rest m))].
      intros m' (pre & suf & Hr & Hm'). exists (text m ++ pre), suf.
      split; [|assumption]. rewrite Hs at 1. rewrite Hr.
      now rewrite <- app_assoc.
  - destruct s as [|c s]; [constructor|].
    eapply Forall_impl; [|apply (IH s)].
    intros m' (pre & suf & -> & Hm'). exists (c :: pre), suf. auto.
Qed.

(** *** isColumnNotFound, path by path *)

Lemma rematch (ms : list Match) :
  Forall (fun m => exists x, invalidIdentifier x = Some m) ms ->
  filter truthy
    (map (fun s => match search invalidIdentifier s with
                   | Some found => group1 found
                   | None => []
                   end)
         (map text ms))
  = map group1 ms.
Proof.
  induction 1 as [|m ms (x & Hx) _ IH]; simpl; [reflexivity|].
  rewrite (search_head invalidIdentifier (text m) _ (quotedAfter_again _ _ _ Hx)).
  simpl. destruct (quotedAfter_parts _ _ _ Hx) as (_ & Hne & _).
  destruct (group1 m) eqn:G; [congruence|]. simpl. now rewrite IH.
Qed.

Lemma isColumnNotFound_primary (err : ErrValue) :
  matchAll invalidIdentifier (errorText err) <> [] ->
  isColumnNotFound err
  = Some {| missingColumns :=
              dedupFirstSeen
                (map group1 (matchAll invalidIdentifier (errorText err))) |}.
Proof.
  intros Hne. unfold isColumnNotFound.
  destruct (matchAll invalidIdentifier (errorText err)) as [|m ms] eqn:E;
    [congruence|].
  change (map text (m :: ms)) with (text m :: map text ms).
  cbv iota. change (text m :: map text ms) with (map text (m :: ms)).
  rewrite rematch.
  - now rewrite Set_from_dedup.
  - rewrite <- E. apply matches_from_pattern.
Qed.

Lemma isColumnNotFound_fallback (err : ErrValue) :
  matchAll invalidIdentifier (errorText err) = [] ->
  isColumnNotFound err
  = if test columnAnyNotFound (errorText err) then
      Some {| missingColumns :=
                match search columnNotFound (errorText err) with
                | Some (c :: cs) => [removeQuotes (c :: cs)]
                | _ => []
                end |}
    else None.
Proof.
  intros E. unfold isColumnNotFound. rewrite E. simpl.
  destruct (test columnAnyNotFound (errorText err)); [|reflexivity].
  destruct (search columnNotFound (errorText err)) as [[|c cs]|]; reflexivity.
Qed.

Lemma removeQuotes_quoteFree (s : jsstring) : quoteFree (removeQuotes s).
Proof.
  unfold quoteFree, removeQuotes. split; intros H; apply filter_In in H as [_ H];
    discriminate H.
Qed.

Lemma not_quote_quoteFree (s : jsstring) :
  forallb (fun c => negb (isQuote c)) s = true -> quoteFree s.
Proof.
  intros H. rewrite forallb_forall in H.
  split; intros Hin; specialize (H _ Hin); discriminate H.
Qed.

(** *** Patterns that need a quote character *)

Lemma quotedAfter_has_quote (lit s : jsstring) (m : Match) :
  quotedAfter lit s = Some m -> exists q, In q s /\ isQuote q = true.
Proof.
  intros H.
  destruct (quotedAfter_parts _ _ _ H)
    as (-> & _ & _ & kw & ws & q & q' & -> & _ & _ & Hq & _).
  exists q. split; [|assumption].
  apply in_or_app. left. apply in_or_app. right. apply in_or_app. right.
  now left.
Qed.

Lemma quoteFree_no_quote (s : jsstring) (q : ascii) :
  quoteFree s -> In q s -> isQuote q = false.
Proof.
  intros [Hs Hd] Hin. unfold isQuote.
  destruct (Ascii.eqb q squote) eqn:E1.
  - apply Ascii.eqb_eq in E1. subst q. contradiction.
  - destruct (Ascii.eqb q dquote) eqn:E2; [|reflexivity].
    apply Ascii.eqb_eq in E2. subst q. contradiction.
Qed.

Lemma search_quotedAfter_quoteFree (lit msg : jsstring) :
  quoteFree msg -> search (quotedAfter lit) msg = None.
Proof.
  intros Hq. destruct (search (quotedAfter lit) msg) as [m|] eqn:E;
    [|reflexivity].
  destruct (search_some _ _ _ E) as (pre & suf & -> & H).
  destruct (quotedAfter_has_quote _ _ _ H) as (q & Hin & Hiq).
  rewrite (quoteFree_no_quote _ q Hq) in Hiq; [discriminate|].
  apply in_or_app. now right.
Qed.

Lemma includes_false (c : ascii) (s : jsstring) :
  ~ In c s -> includes c s = false.
Proof.
  intros H. unfold includes. destruct (existsb (Ascii.eqb c) s) eqn:E;
    [|reflexivity].
  apply existsb_exists in E as (x & Hx & Ex). apply Ascii.eqb_eq in Ex.
  subst x. contradiction.
Qed.

(** *** What the fallback pattern needs *)

Lemma dotStar_true (next : jsstring -> bool) (s : jsstring) :
  dotStar next s = true -> exists a b, s = a ++ b /\ next b = true.
Proof.
  induction s as [|c s IH]; simpl.
  - intros H. exists [], []. auto.
  - intros H. apply orb_true_iff in H as [H | H].
    + destruct (isLineTerminator c); [discriminate|].
      destruct (IH H) as (a & b & -> & Hb). exists (c :: a), b. auto.
    + exists [], (c :: s). auto.
Qed.

Lemma columnAnyNotFound_words (msg : jsstring) :
  test columnAnyNotFound msg = true ->
  occursIgnoringCase (str "column ") msg
  /\ occursIgnoringCase (str " not found") msg.
Proof.
  intros H. apply test_iff_suffix in H as (pre & suf & [] & -> & H).
  unfold columnAnyNotFound in H.
  destruct (literal (str "column ") suf) as [[kw r]|] eqn:L; [|discriminate].
  apply literal_iff in L as [-> Hk].
  destruct (dotStar _ r) eqn:D; [|discriminate].
  apply dotStar_true in D as (a & b & -> & Hb).
  destruct (literal (str " not found") b) as [[nf r']|] eqn:L2; [|discriminate].
  apply literal_iff in L2 as [-> Hn]. split.
  - exists pre, kw, (a ++ nf ++ r'). auto.
  - exists (pre ++ kw ++ a), nf, r'. split; [|assumption].
    now rewrite <- !app_assoc.
Qed.

Lemma invalidIdentifier_word (msg : jsstring) :
  matchAll invalidIdentifier msg <> [] ->
  occursIgnoringCase (str "invalid identifier") msg.
Proof.
  intros Hne.
  assert (W : Forall (fun m => exists pre suf,
                          msg = pre ++ suf /\ invalidIdentifier suf = Some m)
                     (matchAll invalidIdentifier msg)).
  { apply matches_within. intros s m H.
    now destruct (quotedAfter_parts _ _ _ H) as (Hs & _). }
  destruct (matchAll invalidIdentifier msg) as [|m ms]; [congruence|].
  inversion W as [|? ? (pre & suf & -> & H) _]. subst.
  unfold invalidIdentifier, quotedAfter in H.
  destruct (literal (str "invalid identifier") suf) as [[kw r]|] eqn:L;
    [|discriminate].
  apply literal_iff in L as [-> Hk]. exists pre, kw, r. auto.
Qed.

End ErrorsMoreFacts.

Module ErrorsExtras.
Import Errors Classifiers JsFacts SpecWords ErrorsFacts Notions.
Import ErrorsMoreFacts.

(** X16.  An error is a timeout exactly when its message holds [timeout] in
    any letter case, and the result then carries the message unchanged; the
    second test, for [Statement timeout], never changes the answer. *)
Theorem timeout_iff_message_mentions_it :
  forall err : ErrValue,
    (occursIgnoringCase (str "timeout") (errorText err) ->
     isTimeout err = Some {| message := errorText err |})
    /\ (~ occursIgnoringCase (str "timeout") (errorText err) ->
        isTimeout err = None).
Proof.
  intros err. unfold isTimeout. split.
  - intros H. apply mentions_iff in H. now rewrite H.
  - intros H.
    destruct (mentions (str "timeout") (errorText err)) eqn:M.
    + exfalso. apply H. now apply mentions_iff.
    + destruct (mentions (str "Statement timeout") (errorText err)) eqn:M2;
        [|reflexivity].
      exfalso. apply H. apply mentions_iff in M2.
      apply (occurs_second_part (str "Statement ") (str "timeout")). exact M2.
Qed.

Lemma timeout_iff_message_mentions_it_witness :
  isTimeout (ErrWithMessage (str "Statement TIMEOUT: query exceeded 30s"))
  = Some {| message := str "Statement TIMEOUT: query exceeded 30s" |}.
Proof.
  apply (proj1 (timeout_iff_message_mentions_it
                  (ErrWithMessage (str "Statement TIMEOUT: query exceeded 30s")))).
  exists (str "Statement "), (str "TIMEOUT"), (str ": query exceeded 30s").
  split; reflexivity.
Defined.

(** X17.  An error is an ambiguous-column error exactly when its message
    holds both [ambiguous] and [column], in any letter case and any order.
    Its columns are the names found between double quotes in the message,
    each once and in the order first seen; when there is none, the list is
    the one placeholder [(unknown)], so it is never empty. *)
Theorem ambiguous_column_names :
  forall err : ErrValue,
    (occursIgnoringCase (str "ambiguous") (errorText err) ->
     occursIgnoringCase (str "column") (errorText err) ->
     isAmbiguousColumn err
     = Some {| columns :=
                 match map group1 (matchAll doubleQuotedName (errorText err)) with
                 | [] => [str "(unknown)"]
                 | names => dedupFirstSeen names
                 end |})
    /\ (~ (occursIgnoringCase (str "ambiguous") (errorText err)
           /\ occursIgnoringCase (str "column") (errorText err)) ->
        isAmbiguousColumn err = None)
    /\ (forall info, isAmbiguousColumn err = Some info -> columns info <> []).
Proof.
  intros err.
  assert (E : map removeDoubleQuotes
                  (map text (matchAll doubleQuotedName (errorText err)))
              = map group1 (matchAll doubleQuotedName (errorText err))).
  { apply unquoted_names, matches_from_pattern. }
  assert (S : isAmbiguousColumn err
              = if mentions (str "ambiguous") (errorText err)
                   && mentions (str "column") (errorText err)
                then Some {| columns :=
                               match map group1
                                       (matchAll doubleQuotedName (errorText err))
                               with
                               | [] => [str "(unknown)"]
                               | names => dedupFirstSeen names
                               end |}
                else None).
  { unfold isAmbiguousColumn. rewrite E, Set_from_dedup.
    destruct (_ && _); [|reflexivity].
    destruct (map group1 (matchAll doubleQuotedName (errorText err)));
      reflexivity. }
  rewrite S. split; [|split].
  - intros Ha Hc. apply mentions_iff in Ha, Hc. now rewrite Ha, Hc.
  - intros H.
    destruct (mentions (str "ambiguous") (errorText err)) eqn:Ma;
      [|reflexivity].
    destruct (mentions (str "column") (errorText err)) eqn:Mc; [|reflexivity].
    exfalso. apply H. split; now apply mentions_iff.
  - intros info. destruct (_ && _); [|discriminate].
    intros [= <-]. simpl.
    destruct (map group1 (matchAll doubleQuotedName (errorText err)));
      discriminate.
Qed.

Lemma ambiguous_column_names_witness :
  isAmbiguousColumn
    (ErrWithMessage
       (str "Column reference " ++ [dquote] ++ str "id" ++ [dquote]
            ++ str " is AMBIGUOUS, as is " ++ [dquote] ++ str "id" ++ [dquote]))
  = Some {| columns := [str "id"] |}.
Proof.
  apply (proj1 (ambiguous_column_names
                  (ErrWithMessage
                     (str "Column reference " ++ [dquote] ++ str "id" ++ [dquote]
                          ++ str " is AMBIGUOUS, as is "
                          ++ [dquote] ++ str "id" ++ [dquote])))).
  - exists (str "Column reference " ++ [dquote] ++ str "id" ++ [dquote]
                ++ str " is "),
           (str "AMBIGUOUS"),
           (str ", as is " ++ [dquote] ++ str "id" ++ [dquote]).
    split; reflexivity.
  - exists [], (str "Column"),
           (str " reference " ++ [dquote] ++ str "id" ++ [dquote]
                ++ str " is AMBIGUOUS, as is " ++ [dquote] ++ str "id" ++ [dquote]).
    split; reflexivity.
Defined.

(** X18.  Whatever [isColumnNotFound] returns, no name in it holds a quote
    character and no name is listed twice; the names found by the invalid
    identifier pattern are never empty. *)
Theorem missing_columns_are_clean :
  forall (err : ErrValue) (info : ColumnNotFoundInfo),
    isColumnNotFound err = Some info ->
    NoDup (missingColumns info)
    /\ (forall n, In n (missingColumns info) -> quoteFree n)
    /\ (matchAll invalidIdentifier (errorText err) <> [] ->
        forall n, In n (missingColumns info) -> n <> []).
Proof.
  intros err info H.
  destruct (matchAll invalidIdentifier (errorText err)) as [|m ms] eqn:E.
  - rewrite (isColumnNotFound_fallback err E) in H.
    destruct (test columnAnyNotFound (errorText err)); [|discriminate].
    assert (Hi : missingColumns info
                 = match search columnNotFound (errorText err) with
                   | Some (c :: cs) => [removeQuotes (c :: cs)]
                   | _ => []
                   end) by (injection H as <-; reflexivity).
    rewrite Hi. clear Hi H. split; [|split].
    + destruct (search columnNotFound (errorText err)) as [[|c cs]|];
        repeat constructor; intros [].
    + intros n Hn.
      destruct (search columnNotFound (errorText err)) as [[|c cs]|];
        try contradiction.
      destruct Hn as [<- | []]. apply removeQuotes_quoteFree.
    + congruence.
  - assert (Hne : matchAll invalidIdentifier (errorText err) <> [])
      by (rewrite E; discriminate).
    rewrite (isColumnNotFound_primary err Hne) in H. injection H as <-. simpl.
    assert (P : forall n,
               In n (dedupFirstSeen
                       (map group1 (matchAll invalidIdentifier (errorText err)))) ->
               quoteFree n /\ n <> []).
    { intros n Hn. apply dedupFirstSeen_In, in_map_iff in Hn as (m' & <- & Hm').
      pose proof (matches_from_pattern invalidIdentifier
                    (S (length (errorText err))) (errorText err)) as F.
      rewrite Forall_forall in F. destruct (F m' Hm') as (x & Hx).
      destruct (quotedAfter_parts _ _ _ Hx) as (_ & Hn0 & Hq & _).
      split; [now apply not_quote_quoteFree | assumption]. }
    split; [apply dedupFirstSeen_NoDup|]. split.
    + intros n Hn. now apply P.
    + intros _ n Hn. now apply P.
Qed.

Lemma missing_columns_are_clean_witness :
  NoDup [str "FOO"; str "BAR"] /\ quoteFree (str "FOO").
Proof.
  destruct (missing_columns_are_clean
              (ErrWithMessage (str "invalid identifier 'FOO', invalid identifier 'BAR', invalid identifier 'FOO'"))
              {| missingColumns := [str "FOO"; str "BAR"] |} eq_refl)
    as (Hd & Hq & _).
  split; [exact Hd | apply Hq; now left].
Defined.

(** X19.  A message without any quote character, single or double, is never
    classified as a quote error: SQLite's own wording of a missing column,
    with the bare column name after the colon, gets no hint. *)
Theorem message_without_quotes_gets_no_hint :
  forall err : ErrValue,
    quoteFree (errorText err) -> isQuoteSyntaxError err = None.
Proof.
  intros err Hq. unfold isQuoteSyntaxError.
  rewrite (includes_false dquote (errorText err) (proj2 Hq)).
  rewrite !andb_false_r.
  unfold noSuchColumn. rewrite (search_quotedAfter_quoteFree _ _ Hq).
  now destruct (mentions (str "no such column") (errorText err)).
Qed.

Lemma message_without_quotes_gets_no_hint_witness :
  isQuoteSyntaxError (ErrWithMessage (str "no such column: Technology")) = None.
Proof.
  apply (message_without_quotes_gets_no_hint
           (ErrWithMessage (str "no such column: Technology"))).
  split; intros H; simpl in H;
    repeat (destruct H as [H | H]; [discriminate H|]); exact H.
Defined.

(** X20.  [isColumnNotFound] answers only for a message that holds
    [invalid identifier], or holds both [column] followed by a space and
    [not found] preceded by one, in any letter case; any other message,
    such as one that says [no such column: NAME], gets no answer. *)
Theorem column_not_found_needs_its_words :
  forall (err : ErrValue) (info : ColumnNotFoundInfo),
    isColumnNotFound err = Some info ->
    occursIgnoringCase (str "invalid identifier") (errorText err)
    \/ (occursIgnoringCase (str "column ") (errorText err)
        /\ occursIgnoringCase (str " not found") (errorText err)).
Proof.
  intros err info H.
  destruct (matchAll invalidIdentifier (errorText err)) as [|m ms] eqn:E.
  - right. rewrite (isColumnNotFound_fallback err E) in H.
    destruct (test columnAnyNotFound (errorText err)) eqn:T; [|discriminate].
    now apply columnAnyNotFound_words.
  - left. apply invalidIdentifier_word. rewrite E. discriminate.
Qed.

Lemma column_not_found_needs_its_words_witness :
  occursIgnoringCase (str "invalid identifier")
                     (str "Invalid Identifier 'FOO'")
  \/ (occursIgnoringCase (str "column ") (str "Invalid Identifier 'FOO'")
      /\ occursIgnoringCase (str " not found") (str "Invalid Identifier 'FOO'")).
Proof.
  apply (column_not_found_needs_its_words
           (ErrWithMessage (str "Invalid Identifier 'FOO'"))
           {| missingColumns := [str "FOO"] |}).
  reflexivity.
Defined.

End ErrorsExtras.
